(** * Gomoku engine: the board state machine and the move-selection agent

    A shallow embedding of [game/board.go] and [game/ai.go].  Go's [int] is
    modelled by [Z]: every coordinate that reaches an array access is checked
    against the board bounds first, and every score is a short sum of small
    constants, so no wrap-around can occur.  The two-dimensional array
    [Grid [BoardSize][BoardSize]Player] is a list of rows; an index outside
    the array is a run-time panic in Go and is modelled as such. *)

From stdpp Require Import base numbers list strings.
From Stdlib Require Import ZArith Lia Bool.

Open Scope Z_scope.

(** ** Constants and the cell type *)

Definition BoardSize : Z := 15.
Definition WinCondition : Z := 5.

(** [type Player int] with the three constants [Empty], [Black], [White]. *)
Inductive Player : Type := Empty | Black | White.

#[global] Instance Player_eq_dec : EqDecision Player.
Proof. solve_decision. Defined.

Definition Player_eqb (p q : Player) : bool := bool_decide (p = q).

Lemma Player_eqb_eq p q : Player_eqb p q = true <-> p = q.
Proof. unfold Player_eqb. apply bool_decide_eq_true. Qed.

Lemma Player_eqb_neq p q : Player_eqb p q = false <-> p <> q.
Proof. unfold Player_eqb. apply bool_decide_eq_false. Qed.

Lemma Player_eqb_refl p : Player_eqb p p = true.
Proof. by apply Player_eqb_eq. Qed.

(** [errors.New msg] *)
Inductive error : Type := errors_New (msg : string).

(** ** The grid *)

Abbreviation grid := (list (list Player)).

Definition isValidPosition (row col : Z) : bool :=
  (row >=? 0) && (row <? BoardSize) && (col >=? 0) && (col <? BoardSize).

(** [g[r][c]] as an expression: [None] is the index-out-of-range panic. *)
Definition grid_get (g : grid) (r c : Z) : option Player :=
  if (r <? 0) || (c <? 0) then None
  else match g !! Z.to_nat r with
       | Some line => line !! Z.to_nat c
       | None => None
       end.

(** [g[r][c] = p] as a statement: [None] is the index-out-of-range panic. *)
Definition grid_set (g : grid) (r c : Z) (p : Player) : option grid :=
  if (r <? 0) || (c <? 0) then None
  else match g !! Z.to_nat r with
       | Some line =>
           if decide (Z.to_nat c < length line)%nat
           then Some (<[Z.to_nat r := <[Z.to_nat c := p]> line]> g)
           else None
       | None => None
       end.

(** A read that the source guards by a bounds check (or by the bounds of the
    enclosing loops): the default is never produced on a full-size grid. *)
Definition cell (g : grid) (r c : Z) : Player :=
  default Empty (grid_get g r c).

(** The array type fixes the dimensions. *)
Definition grid_ok (g : grid) : bool :=
  bool_decide (length g = Z.to_nat BoardSize)
  && forallb (fun line => bool_decide (length line = Z.to_nat BoardSize)) g.

(** ** The board *)

Record Board : Type := mkBoard {
  Grid : grid;
  CurrentTurn : Player;
  MoveHistory : list (Z * Z);
  GameFinished : bool
}.

Definition set_Grid (g : grid) (b : Board) : Board :=
  mkBoard g (CurrentTurn b) (MoveHistory b) (GameFinished b).
Definition set_CurrentTurn (p : Player) (b : Board) : Board :=
  mkBoard (Grid b) p (MoveHistory b) (GameFinished b).
Definition set_MoveHistory (h : list (Z * Z)) (b : Board) : Board :=
  mkBoard (Grid b) (CurrentTurn b) h (GameFinished b).
Definition set_GameFinished (f : bool) (b : Board) : Board :=
  mkBoard (Grid b) (CurrentTurn b) (MoveHistory b) f.

Definition empty_grid : grid :=
  replicate (Z.to_nat BoardSize) (replicate (Z.to_nat BoardSize) Empty).

Definition NewBoard : Board := mkBoard empty_grid Black [] false.

(** Every recorded move is a position of the board. *)
Definition history_ok (h : list (Z * Z)) : bool :=
  forallb (fun m => isValidPosition m.1 m.2) h.

Definition board_ok (b : Board) : bool :=
  grid_ok (Grid b) && history_ok (MoveHistory b).

(** ** Methods on [*Board]: state passing with panics *)

Inductive res (A : Type) : Type :=
  | Ret (a : A)
  | Panic.
Arguments Ret {A} a.
Arguments Panic {A}.

Definition M (A : Type) : Type := Board -> res A * Board.

#[global] Instance M_ret : MRet M := fun A a b => (Ret a, b).
#[global] Instance M_bind : MBind M := fun A B f m b =>
  match m b with
  | (Ret a, b') => f a b'
  | (Panic, b') => (Panic, b')
  end.

Definition gets {A} (f : Board -> A) : M A := fun b => (Ret (f b), b).
Definition modify (f : Board -> Board) : M unit := fun b => (Ret tt, f b).
Definition query {A} (q : Board -> res A) : M A := fun b => (q b, b).
Definition panic {A} : M A := fun b => (Panic, b).

Definition readGrid (r c : Z) : M Player := fun b =>
  match grid_get (Grid b) r c with
  | Some p => (Ret p, b)
  | None => (Panic, b)
  end.

Definition writeGrid (r c : Z) (p : Player) : M unit := fun b =>
  match grid_set (Grid b) r c p with
  | Some g => (Ret tt, set_Grid g b)
  | None => (Panic, b)
  end.

(** ** [board.go] *)

Definition directions : list (Z * Z) := [(1, 0); (0, 1); (1, 1); (1, -1)].

Definition nextPlayer (b : Board) : Player :=
  if Player_eqb (CurrentTurn b) Black then White else Black.

Definition GetCurrentPlayer (b : Board) : Player := CurrentTurn b.
Definition IsGameFinished (b : Board) : bool := GameFinished b.

(** One counting loop of [CheckWin]:
    [for i := i0; i < i0 + n; i++ { r, c := pos i; if !valid || != player { break }; count++ }] *)
Fixpoint countRun (g : grid) (player : Player) (pos : Z -> Z * Z)
    (n : nat) (i : Z) (count : Z) : Z :=
  match n with
  | O => count
  | S n' =>
      let '(r, c) := pos i in
      if negb (isValidPosition r c) || negb (Player_eqb (cell g r c) player)
      then count
      else countRun g player pos n' (i + 1) (count + 1)
  end.

Definition forward (row col : Z) (dir : Z * Z) (i : Z) : Z * Z :=
  (row + dir.1 * i, col + dir.2 * i).
Definition backward (row col : Z) (dir : Z * Z) (i : Z) : Z * Z :=
  (row - dir.1 * i, col - dir.2 * i).

(** The body of [CheckWin]'s loop over the directions, up to the test. *)
Definition lineCount (g : grid) (player : Player) (row col : Z) (dir : Z * Z) : Z :=
  let count := 1 in
  let count := countRun g player (forward row col dir) (Z.to_nat (WinCondition - 1)) 1 count in
  let count := countRun g player (backward row col dir) (Z.to_nat (WinCondition - 1)) 1 count in
  count.

Definition CheckWin (b : Board) (row col : Z) : res bool :=
  match grid_get (Grid b) row col with
  | None => Panic
  | Some player =>
      Ret (existsb (fun dir => lineCount (Grid b) player row col dir >=? WinCondition)
                   directions)
  end.

Definition errOutOfBounds : error := errors_New "position out of bounds".
Definition errOccupied : error := errors_New "position already occupied".
Definition errFinished : error := errors_New "game is already finished".
Definition errNoMoves : error := errors_New "no moves to undo".

Definition PlaceStone (row col : Z) : M (option error) :=
  if (row <? 0) || (row >=? BoardSize) || (col <? 0) || (col >=? BoardSize)
  then mret (Some errOutOfBounds)
  else
    p ← readGrid row col;
    if negb (Player_eqb p Empty) then mret (Some errOccupied)
    else
      finished ← gets GameFinished;
      if (finished : bool) then mret (Some errFinished)
      else
        turn ← gets CurrentTurn;
        writeGrid row col turn;;
        modify (fun b => set_MoveHistory (MoveHistory b ++ [(row, col)]) b);;
        won ← query (fun b => CheckWin b row col);
        if (won : bool) then
          modify (set_GameFinished true);;
          mret None
        else
          np ← gets nextPlayer;
          modify (set_CurrentTurn np);;
          mret None.

Definition Undo : M (option error) :=
  h ← gets MoveHistory;
  if (length h =? 0)%nat then mret (Some errNoMoves)
  else
    match last h with
    | None => panic
    | Some lastMove =>
        writeGrid lastMove.1 lastMove.2 Empty;;
        modify (fun b => set_MoveHistory (take (length (MoveHistory b) - 1)%nat (MoveHistory b)) b);;
        np ← gets nextPlayer;
        modify (set_CurrentTurn np);;
        modify (set_GameFinished false);;
        mret None
    end.


(** ** [ai.go] *)

Inductive Difficulty : Type := Easy | Medium | Hard.

Record AI : Type := mkAI {
  player : Player;
  difficulty : Difficulty
}.

Definition NewAI (player : Player) (difficulty : Difficulty) : AI :=
  mkAI player difficulty.

Definition getOpponent (ai : AI) : Player :=
  if Player_eqb (player ai) Black then White else Black.

Definition max (a b : Z) : Z := if a >? b then a else b.
Definition min (a b : Z) : Z := if a <? b then a else b.

(** [math.MinInt32] *)
Definition MinInt32 : Z := - 2 ^ 31.

(** [math.Abs(float64(a)) + math.Abs(float64(b))]: the operands are small
    integers, which [float64] represents exactly. *)
Definition manhattan (a b : Z) : Z := Z.abs a + Z.abs b.

(** *** Loops *)

(** [for _, x := range xs { body }] where the body may return from the
    enclosing function: [Some v] is [return v], [None] goes on with the
    next iteration. *)
Fixpoint forM {A R : Type} (xs : list A) (body : A -> M (option R)) : M (option R) :=
  match xs with
  | [] => mret None
  | x :: xs' =>
      r ← body x;
      match r with
      | Some v => mret (Some v)
      | None => forM xs' body
      end
  end.

(** A loop that updates local variables [s] and never returns early. *)
Fixpoint foldM {A S : Type} (xs : list A) (s : S) (body : S -> A -> M S) : M S :=
  match xs with
  | [] => mret s
  | x :: xs' => s' ← body s x; foldM xs' s' body
  end.

(** The indices of [for i := lo; i < hi; i++] and [for i := lo; i <= hi; i++]. *)
Definition range (lo hi : Z) : list Z := seqZ lo (hi - lo).
Definition rangeIncl (lo hi : Z) : list Z := seqZ lo (hi - lo + 1).

(** *** Pattern detectors *)

(** One walk of [hasOpenFour] and [hasOpenThree] (the two functions run the
    same loop body, over four and three steps): count the player's stones
    and note whether the walk stopped at an empty cell. *)
Fixpoint openWalk (g : grid) (player : Player) (pos : Z -> Z * Z)
    (n : nat) (i : Z) (count space : Z) : Z * Z :=
  match n with
  | O => (count, space)
  | S n' =>
      let '(r, c) := pos i in
      if negb (isValidPosition r c) then (count, space)
      else if Player_eqb (cell g r c) player
           then openWalk g player pos n' (i + 1) (count + 1) space
      else if Player_eqb (cell g r c) Empty then (count, space + 1)
      else (count, space)
  end.

(** [count] and [space] after the forward and the backward walk. *)
Definition openLine (g : grid) (player : Player) (row col : Z) (dir : Z * Z)
    (steps : nat) : Z * Z :=
  let '(count, space) := openWalk g player (forward row col dir) steps 1 1 0 in
  openWalk g player (backward row col dir) steps 1 count space.

(** The test [count == 4 && space == 2] of [hasOpenFour]. *)
Definition openFourAxis (g : grid) (player : Player) (row col : Z) (dir : Z * Z) : bool :=
  let '(count, space) := openLine g player row col dir 4 in
  (count =? 4) && (space =? 2).

(** The test [count == 3 && space == 2] of [hasOpenThree]. *)
Definition openThreeAxis (g : grid) (player : Player) (row col : Z) (dir : Z * Z) : bool :=
  let '(count, space) := openLine g player row col dir 3 in
  (count =? 3) && (space =? 2).

Definition hasOpenFour (ai : AI) (board : Board) (row col : Z) : res bool :=
  match grid_get (Grid board) row col with
  | None => Panic
  | Some player => Ret (existsb (openFourAxis (Grid board) player row col) directions)
  end.

Definition hasOpenThree (ai : AI) (board : Board) (row col : Z) : res bool :=
  match grid_get (Grid board) row col with
  | None => Panic
  | Some player => Ret (existsb (openThreeAxis (Grid board) player row col) directions)
  end.

(** One walk of [hasDoubleThree]: as above, and count the walks that stopped
    at the edge of the board or at a stone of the other colour. *)
Fixpoint threeWalk (g : grid) (player : Player) (pos : Z -> Z * Z)
    (n : nat) (i : Z) (count space blocked : Z) : Z * Z * Z :=
  match n with
  | O => (count, space, blocked)
  | S n' =>
      let '(r, c) := pos i in
      if negb (isValidPosition r c) then (count, space, blocked + 1)
      else if Player_eqb (cell g r c) player
           then threeWalk g player pos n' (i + 1) (count + 1) space blocked
      else if Player_eqb (cell g r c) Empty then (count, space + 1, blocked)
      else (count, space, blocked + 1)
  end.

Definition threeLine (g : grid) (player : Player) (row col : Z) (dir : Z * Z)
    : Z * Z * Z :=
  let '(count, space, blocked) :=
    threeWalk g player (forward row col dir) 3 1 1 0 0 in
  threeWalk g player (backward row col dir) 3 1 count space blocked.

(** The test [count == 3 && space == 2 && blocked == 0] of [hasDoubleThree]. *)
Definition doubleThreeAxis (g : grid) (player : Player) (row col : Z) (dir : Z * Z) : bool :=
  let '(count, space, blocked) := threeLine g player row col dir in
  (count =? 3) && (space =? 2) && (blocked =? 0).

Definition hasDoubleThree (ai : AI) (board : Board) (row col : Z) : res bool :=
  match grid_get (Grid board) row col with
  | None => Panic
  | Some player =>
      let threeCount :=
        foldl (fun threeCount dir =>
                 if doubleThreeAxis (Grid board) player row col dir
                 then threeCount + 1 else threeCount) 0 directions in
      Ret (threeCount >=? 2)
  end.

(** One walk of [findThreatsMove]. *)
Fixpoint threatWalk (g : grid) (opponent : Player) (pos : Z -> Z * Z)
    (n : nat) (k : Z) (count blocked : Z) : Z * Z :=
  match n with
  | O => (count, blocked)
  | S n' =>
      let '(r, c) := pos k in
      if negb (isValidPosition r c) then (count, blocked + 1)
      else if Player_eqb (cell g r c) opponent
           then threatWalk g opponent pos n' (k + 1) (count + 1) blocked
      else if negb (Player_eqb (cell g r c) Empty) then (count, blocked + 1)
      else (count, blocked)
  end.

Definition threatLine (g : grid) (opponent : Player) (i j : Z) (dir : Z * Z) : bool :=
  let '(count, blocked) := threatWalk g opponent (forward i j dir) 3 1 0 0 in
  let '(count, blocked) := threatWalk g opponent (backward i j dir) 3 1 count blocked in
  (count >=? 2) && (blocked <? 2).

Definition noMove : Z * Z := (-1, -1).

Definition findThreatsMove (ai : AI) : M (Z * Z) :=
  let opponent := getOpponent ai in
  r ← forM (range 0 BoardSize) (fun i =>
        forM (range 0 BoardSize) (fun j =>
          p ← readGrid i j;
          if negb (Player_eqb p Empty) then mret None
          else
            g ← gets Grid;
            if existsb (threatLine g opponent i j) directions
            then mret (Some (i, j))
            else mret None));
  mret (default noMove r).

(** *** Speculative placements *)

(** The common shape of [findWinningMove], [findOpenFourMove],
    [findOpenThreeMove] and [findAdvancedThreatMove]: on every empty cell in
    row-major order, place the stone, run the tests, take the stone back. *)
Definition findWinningMove (ai : AI) (player : Player) : M (Z * Z) :=
  r ← forM (range 0 BoardSize) (fun i =>
        forM (range 0 BoardSize) (fun j =>
          p ← readGrid i j;
          if Player_eqb p Empty then
            writeGrid i j player;;
            won ← query (fun b => CheckWin b i j);
            if (won : bool) then
              writeGrid i j Empty;;
              mret (Some (i, j))
            else
              writeGrid i j Empty;;
              mret None
          else mret None));
  mret (default noMove r).

Definition findOpenFourMove (ai : AI) (player : Player) : M (Z * Z) :=
  r ← forM (range 0 BoardSize) (fun i =>
        forM (range 0 BoardSize) (fun j =>
          p ← readGrid i j;
          if negb (Player_eqb p Empty) then mret None
          else
            writeGrid i j player;;
            found ← query (fun b => hasOpenFour ai b i j);
            if (found : bool) then
              writeGrid i j Empty;;
              mret (Some (i, j))
            else
              writeGrid i j Empty;;
              mret None));
  mret (default noMove r).

Definition findOpenThreeMove (ai : AI) (player : Player) : M (Z * Z) :=
  r ← forM (range 0 BoardSize) (fun i =>
        forM (range 0 BoardSize) (fun j =>
          p ← readGrid i j;
          if negb (Player_eqb p Empty) then mret None
          else
            writeGrid i j player;;
            found ← query (fun b => hasOpenThree ai b i j);
            if (found : bool) then
              writeGrid i j Empty;;
              mret (Some (i, j))
            else
              writeGrid i j Empty;;
              mret None));
  mret (default noMove r).

Definition findAdvancedThreatMove (ai : AI) (player : Player) : M (Z * Z) :=
  r ← forM (range 0 BoardSize) (fun i =>
        forM (range 0 BoardSize) (fun j =>
          p ← readGrid i j;
          if negb (Player_eqb p Empty) then mret None
          else
            writeGrid i j player;;
            four ← query (fun b => hasOpenFour ai b i j);
            if (four : bool) then
              writeGrid i j Empty;;
              mret (Some (i, j))
            else
              three ← query (fun b => hasDoubleThree ai b i j);
              if (three : bool) then
                writeGrid i j Empty;;
                mret (Some (i, j))
              else
                writeGrid i j Empty;;
                mret None));
  mret (default noMove r).

(** *** Position scoring *)

(** The local variables of [evaluateDirection]. *)
Record dirVars : Type := mkDirVars {
  myCount : Z;
  oppCount : Z;
  empty : Z;
  maxMySeq : Z;
  maxOppSeq : Z;
  currentMySeq : Z;
  currentOppSeq : Z
}.

(** One iteration of the loop [for i := -4; i <= 4; i++] of [evaluateDirection]. *)
Definition dirStep (ai : AI) (g : grid) (row col dRow dCol : Z) (v : dirVars) (i : Z)
    : dirVars :=
  let r := row + dRow * i in
  let c := col + dCol * i in
  if (r <? 0) || (r >=? BoardSize) || (c <? 0) || (c >=? BoardSize) then v
  else
    let current := cell g r c in
    if Player_eqb current (player ai) then
      let cur := currentMySeq v + 1 in
      mkDirVars (myCount v + 1) (oppCount v) (empty v)
                (if cur >? maxMySeq v then cur else maxMySeq v) (maxOppSeq v)
                cur 0
    else if Player_eqb current Empty then
      mkDirVars (myCount v) (oppCount v) (empty v + 1)
                (maxMySeq v) (maxOppSeq v) 0 0
    else
      let cur := currentOppSeq v + 1 in
      mkDirVars (myCount v) (oppCount v + 1) (empty v)
                (maxMySeq v) (if cur >? maxOppSeq v then cur else maxOppSeq v)
                0 cur.

(** The scoring rules applied to the variables after the loop. *)
Definition dirScore (v : dirVars) : Z :=
  let score := 0 in
  let score :=
    if maxMySeq v >=? 4 then score + 2000
    else if (maxMySeq v =? 3) && (empty v >=? 2) then score + 1000
    else if (maxMySeq v =? 2) && (empty v >=? 3) then score + 100
    else score in
  let score :=
    if maxOppSeq v >=? 3 then score + 1500
    else if (maxOppSeq v =? 2) && (empty v >=? 3) then score + 200
    else score in
  let score := score + myCount v * 10 in
  let score := score + empty v * 2 in
  score.

Definition evaluateDirection (ai : AI) (board : Board) (row col dRow dCol : Z) : Z :=
  dirScore (foldl (dirStep ai (Grid board) row col dRow dCol)
                  (mkDirVars 0 0 0 0 0 0 0) (rangeIncl (-4) 4)).

Definition evaluatePosition (ai : AI) (row col : Z) : M Z :=
  writeGrid row col (player ai);;
  won ← query (fun b => CheckWin b row col);
  if (won : bool) then
    writeGrid row col Empty;;
    mret 10000
  else
    writeGrid row col Empty;;
    let opponent := getOpponent ai in
    writeGrid row col opponent;;
    won ← query (fun b => CheckWin b row col);
    if (won : bool) then
      writeGrid row col Empty;;
      mret 9000
    else
      writeGrid row col Empty;;
      score ← gets (fun b =>
        foldl (fun score dir => score + evaluateDirection ai b row col dir.1 dir.2)
              0 directions);
      let centerDist := manhattan (row - BoardSize `quot` 2) (col - BoardSize `quot` 2) in
      let score := score - centerDist * 10 in
      h ← gets MoveHistory;
      if (0 <? length h)%nat then
        match last h with
        | None => panic
        | Some lastMove =>
            let lastDist := manhattan (row - lastMove.1) (col - lastMove.2) in
            mret (score - lastDist * 5)
        end
      else mret score.

Definition evaluatePositionMedium (ai : AI) (row col : Z) : M Z :=
  score ← evaluatePosition ai row col;
  writeGrid row col (player ai);;
  four ← query (fun b => hasOpenFour ai b row col);
  let score := if (four : bool) then score + 800 else score in
  three ← query (fun b => hasOpenThree ai b row col);
  let score := if (three : bool) then score + 400 else score in
  writeGrid row col Empty;;
  let opponent := getOpponent ai in
  writeGrid row col opponent;;
  four ← query (fun b => hasOpenFour ai b row col);
  let score := if (four : bool) then score + 700 else score in
  three ← query (fun b => hasOpenThree ai b row col);
  let score := if (three : bool) then score + 300 else score in
  writeGrid row col Empty;;
  mret score.

(** The neighbourhood count of [evaluatePositionHard]. *)
Definition nearbyStones (g : grid) (row col : Z) : Z :=
  foldl (fun n i =>
    foldl (fun n j =>
      let r := row + i in
      let c := col + j in
      if (r >=? 0) && (r <? BoardSize) && (c >=? 0) && (c <? BoardSize) then
        if negb (Player_eqb (cell g r c) Empty) then
          if manhattan i j <=? 1 then n + 3 else n + 1
        else n
      else n) n (rangeIncl (-2) 2)) 0 (rangeIncl (-2) 2).

Definition evaluatePositionHard (ai : AI) (row col : Z) : M Z :=
  score ← evaluatePosition ai row col;
  writeGrid row col (player ai);;
  four ← query (fun b => hasOpenFour ai b row col);
  let score := if (four : bool) then score + 1200 else score in
  double ← query (fun b => hasDoubleThree ai b row col);
  let score := if (double : bool) then score + 1000 else score in
  three ← query (fun b => hasOpenThree ai b row col);
  let score := if (three : bool) then score + 600 else score in
  writeGrid row col Empty;;
  let opponent := getOpponent ai in
  writeGrid row col opponent;;
  four ← query (fun b => hasOpenFour ai b row col);
  let score := if (four : bool) then score + 1000 else score in
  double ← query (fun b => hasDoubleThree ai b row col);
  let score := if (double : bool) then score + 800 else score in
  three ← query (fun b => hasOpenThree ai b row col);
  let score := if (three : bool) then score + 500 else score in
  writeGrid row col Empty;;
  let centerDist := manhattan (row - BoardSize `quot` 2) (col - BoardSize `quot` 2) in
  let score := score - centerDist * 15 in
  near ← gets (fun b => nearbyStones (Grid b) row col);
  let score := score + near * 10 in
  let score :=
    if (row <=? 1) || (row >=? BoardSize - 2) || (col <=? 1) || (col >=? BoardSize - 2)
    then score `quot` 2 else score in
  mret score.

(** *** The three strategies *)

(** [rand.Intn(n)]: panics when [n <= 0], otherwise returns some number of
    [[0, n)].  The generator is an arbitrary function [rnd]; reducing its
    value modulo [n] makes every number of the interval a possible result
    and nothing else. *)
Definition rand_Intn (rnd : Z -> Z) (n : Z) : M Z :=
  if n <=? 0 then panic else mret (rnd n `mod` n).

(** The local variables of the scan for the range of existing stones. *)
Record stoneRange : Type := mkRange {
  minRow : Z;
  maxRow : Z;
  minCol : Z;
  maxCol : Z;
  hasStones : bool
}.

Definition rangeStep (g : grid) (i : Z) (s : stoneRange) (j : Z) : stoneRange :=
  if negb (Player_eqb (cell g i j) Empty) then
    mkRange (if i <? minRow s then i else minRow s)
            (if i >? maxRow s then i else maxRow s)
            (if j <? minCol s then j else minCol s)
            (if j >? maxCol s then j else maxCol s)
            true
  else s.

(** Step 4 of [makeEasyMove]: find the range of existing stones. *)
Definition findRange (g : grid) : stoneRange :=
  foldl (fun s i => foldl (rangeStep g i) s (range 0 BoardSize))
        (mkRange (BoardSize - 1) 0 (BoardSize - 1) 0 false)
        (range 0 BoardSize).

Record moveWithWeight : Type := mkMove {
  mw_row : Z;
  mw_col : Z;
  mw_weight : Z
}.

(** The loop over the eight neighbours (and the cell itself) in the body of
    step 5: the flag [hasNearbyStones] and the weight. *)
Definition nearbyStep (g : grid) (i j : Z) (s : bool * Z) (d : Z * Z) : bool * Z :=
  let ni := i + d.1 in
  let nj := j + d.2 in
  if (ni >=? 0) && (ni <? BoardSize) && (nj >=? 0) && (nj <? BoardSize) then
    if negb (Player_eqb (cell g ni nj) Empty) then (true, s.2 + 30) else s
  else s.

Definition offsets3 : list (Z * Z) :=
  di ← rangeIncl (-1) 1; dj ← rangeIncl (-1) 1; [(di, dj)].

(** The weight of the empty cell (i,j) in step 5 of [makeEasyMove]. *)
Definition candidateWeight (ai : AI) (lastRow lastCol i j : Z) : M Z :=
  let weight := 100 in
  e ← evaluatePosition ai i j;
  let weight := weight + e in
  let dist := manhattan (i - lastRow) (j - lastCol) in
  let weight :=
    if dist <=? 2 then weight + 100
    else if dist <=? 4 then weight + 50
    else weight in
  let centerDist := manhattan (i - BoardSize `quot` 2) (j - BoardSize `quot` 2) in
  let weight :=
    if centerDist <=? 2 then weight + 150
    else if centerDist <=? 4 then weight + 80
    else weight in
  g ← gets Grid;
  let '(hasNearbyStones, weight) := foldl (nearbyStep g i j) (false, weight) offsets3 in
  let weight := if negb hasNearbyStones then weight `quot` 2 else weight in
  let weight :=
    if (i <=? 1) || (i >=? BoardSize - 2) || (j <=? 1) || (j >=? BoardSize - 2)
    then weight `quot` 3 else weight in
  mret weight.

(** Step 5 of [makeEasyMove]: the empty cells of the search range with
    their weights, in row-major order. *)
Definition collectMoves (ai : AI) (minRow maxRow minCol maxCol lastRow lastCol : Z)
    : M (list moveWithWeight) :=
  foldM (rangeIncl minRow maxRow) [] (fun moves i =>
    foldM (rangeIncl minCol maxCol) moves (fun moves j =>
      p ← readGrid i j;
      if Player_eqb p Empty then
        weight ← candidateWeight ai lastRow lastCol i j;
        mret (moves ++ [mkMove i j weight])
      else mret moves)).

Definition totalWeight (moves : list moveWithWeight) : Z :=
  foldl (fun total move => total + mw_weight move) 0 moves.

(** The cumulative scan: the first move at which the running sum exceeds
    the drawn number. *)
Fixpoint pickMove (moves : list moveWithWeight) (currentWeight randomWeight : Z)
    : option (Z * Z) :=
  match moves with
  | [] => None
  | move :: rest =>
      let currentWeight := currentWeight + mw_weight move in
      if currentWeight >? randomWeight then Some (mw_row move, mw_col move)
      else pickMove rest currentWeight randomWeight
  end.

(** The move of highest weight, the first one among equals. *)
Definition bestOf (moves : list moveWithWeight) (first : moveWithWeight) : moveWithWeight :=
  foldl (fun bestMove move =>
           if mw_weight move >? mw_weight bestMove then move else bestMove)
        first moves.

(** The weighted draw of [makeEasyMove], for a non-empty list of moves. *)
Definition selectMove (rnd : Z -> Z) (moves : list moveWithWeight) : M (Z * Z) :=
  randomWeight ← rand_Intn rnd (totalWeight moves);
  match pickMove moves 0 randomWeight with
  | Some m => mret m
  | None =>
      match moves with
      | [] => panic
      | first :: _ =>
          let bestMove := bestOf moves first in
          mret (mw_row bestMove, mw_col bestMove)
      end
  end.

(** The first empty cell in row-major order. *)
Definition firstEmpty : M (Z * Z) :=
  r ← forM (range 0 BoardSize) (fun i =>
        forM (range 0 BoardSize) (fun j =>
          p ← readGrid i j;
          if Player_eqb p Empty then mret (Some (i, j)) else mret None));
  mret (default noMove r).

(** Between steps 4 and 5 of [makeEasyMove]: widen the range of the stones
    by two, keep it off the two outer rings, take the last move (the centre
    when there is none), and collect the moves. *)
Definition candidateMoves (ai : AI) (s : stoneRange) : M (list moveWithWeight) :=
  let minRow := max 2 (minRow s - 2) in
  let maxRow := min (BoardSize - 3) (maxRow s + 2) in
  let minCol := max 2 (minCol s - 2) in
  let maxCol := min (BoardSize - 3) (maxCol s + 2) in
  h ← gets MoveHistory;
  last ← (if (0 <? length h)%nat then
            match last h with
            | Some lastMove => mret lastMove
            | None => panic
            end
          else mret (BoardSize `quot` 2, BoardSize `quot` 2));
  collectMoves ai minRow maxRow minCol maxCol last.1 last.2.

Definition makeEasyMove (rnd : Z -> Z) (ai : AI) : M (Z * Z) :=
  move ← findWinningMove ai (player ai);
  if move.1 >=? 0 then mret move else
  move ← findWinningMove ai (getOpponent ai);
  if move.1 >=? 0 then mret move else
  move ← findThreatsMove ai;
  if move.1 >=? 0 then mret move else
  s ← gets (fun b => findRange (Grid b));
  if negb (hasStones s) then
    let center := BoardSize `quot` 2 in
    mret (center, center)
  else
    moves ← candidateMoves ai s;
    if (0 <? length moves)%nat then selectMove rnd moves
    else firstEmpty.

(** Step 7 of [makeMediumMove] and [makeHardMove]: the empty cell of highest
    score, the first one in row-major order among equals. *)
Definition bestScoreMove (eval : Z -> Z -> M Z) : M (Z * Z) :=
  best ← foldM (range 0 BoardSize) (MinInt32, noMove) (fun best i =>
    foldM (range 0 BoardSize) best (fun best j =>
      p ← readGrid i j;
      if Player_eqb p Empty then
        score ← eval i j;
        if score >? best.1 then mret (score, (i, j)) else mret best
      else mret best));
  mret best.2.

Definition makeMediumMove (rnd : Z -> Z) (ai : AI) : M (Z * Z) :=
  move ← findWinningMove ai (player ai);
  if move.1 >=? 0 then mret move else
  move ← findWinningMove ai (getOpponent ai);
  if move.1 >=? 0 then mret move else
  move ← findOpenFourMove ai (player ai);
  if move.1 >=? 0 then mret move else
  move ← findOpenFourMove ai (getOpponent ai);
  if move.1 >=? 0 then mret move else
  move ← findOpenThreeMove ai (player ai);
  if move.1 >=? 0 then mret move else
  move ← findThreatsMove ai;
  if move.1 >=? 0 then mret move else
  bestMove ← bestScoreMove (evaluatePositionMedium ai);
  if bestMove.1 >=? 0 then mret bestMove else
  makeEasyMove rnd ai.

Definition makeHardMove (rnd : Z -> Z) (ai : AI) : M (Z * Z) :=
  move ← findWinningMove ai (player ai);
  if move.1 >=? 0 then mret move else
  move ← findWinningMove ai (getOpponent ai);
  if move.1 >=? 0 then mret move else
  move ← findAdvancedThreatMove ai (player ai);
  if move.1 >=? 0 then mret move else
  move ← findAdvancedThreatMove ai (getOpponent ai);
  if move.1 >=? 0 then mret move else
  move ← findOpenThreeMove ai (player ai);
  if move.1 >=? 0 then mret move else
  move ← findOpenThreeMove ai (getOpponent ai);
  if move.1 >=? 0 then mret move else
  bestMove ← bestScoreMove (evaluatePositionHard ai);
  if bestMove.1 >=? 0 then mret bestMove else
  makeMediumMove rnd ai.

Definition MakeMove (rnd : Z -> Z) (ai : AI) : M (Z * Z) :=
  match difficulty ai with
  | Easy => makeEasyMove rnd ai
  | Medium => makeMediumMove rnd ai
  | Hard => makeHardMove rnd ai
  end.

(** ** Vocabulary of the specification *)

(** (r,c) is a cell of the board and holds [p]. *)
Definition holds (g : grid) (p : Player) (r c : Z) : Prop :=
  isValidPosition r c = true /\ grid_get g r c = Some p.

(** The cells at offsets [lo..hi] of the line through (row,col) along [dir]
    form a contiguous segment through (row,col), all holding [p]. *)
Definition run_through (g : grid) (p : Player) (row col : Z) (dir : Z * Z)
    (lo hi : Z) : Prop :=
  lo <= 0 <= hi /\
  forall i, lo <= i <= hi -> holds g p (row + dir.1 * i) (col + dir.2 * i).

(** Along one of the four axes, the contiguous run of [p] through (row,col)
    has length at least five. *)
Definition five_through (g : grid) (p : Player) (row col : Z) : Prop :=
  exists dir lo hi,
    dir ∈ directions /\ run_through g p row col dir lo hi /\
    WinCondition <= hi - lo + 1.

(** The cell at step [i] of a walk is on the board and holds [player]: the
    negation of the test that breaks the counting loops. *)
Definition matches (g : grid) (player : Player) (pos : Z -> Z * Z) (i : Z) : Prop :=
  isValidPosition (pos i).1 (pos i).2 = true /\ cell g (pos i).1 (pos i).2 = player.

(** A specification of a computation on the board: from a board satisfying
    [P], a normal return with value [a] leaves a board satisfying [Q a], and
    a panic leaves a board satisfying [E]. *)
Definition triple {A : Type} (P : Board -> Prop) (m : M A)
    (Q : A -> Board -> Prop) (E : Board -> Prop) : Prop :=
  forall b, P b ->
    match m b with
    | (Ret a, b') => Q a b'
    | (Panic, b') => E b'
    end.

(** [m] is a position of the board whose cell is empty. *)
Definition emptyCell (b : Board) (m : Z * Z) : Prop :=
  isValidPosition m.1 m.2 = true /\ grid_get (Grid b) m.1 m.2 = Some Empty.

(** No cell of the board is empty. *)
Definition boardFull (b : Board) : Prop :=
  forall r c, isValidPosition r c = true -> grid_get (Grid b) r c <> Some Empty.

(** The result of a scan: a position of the board whose cell is empty, or
    [noMove]; the board is [b0] again; a panic needs a malformed grid. *)
Definition scanSpec (b0 : Board) (m : M (Z * Z)) : Prop :=
  triple (eq b0) m
         (fun r b => b = b0 /\ (r = noMove \/ emptyCell b0 r))
         (fun b => b = b0 /\ grid_ok (Grid b0) = false).

(** *** The position score, in the words of the specification *)

(** The cell at offset [i] from (row,col) along [dir], if it is on the
    board. *)
Definition cellAtOffset (g : grid) (row col : Z) (dir : Z * Z) (i : Z) : option Player :=
  let r := row + dir.1 * i in
  let c := col + dir.2 * i in
  if isValidPosition r c then Some (cell g r c) else None.

(** The cells of the board at offsets -4..+4 from (row,col) along [dir], in
    order; offsets that fall off the board contribute no cell. *)
Definition window (g : grid) (row col : Z) (dir : Z * Z) : list Player :=
  omap (cellAtOffset g row col dir) (rangeIncl (-4) 4).

(** The number of cells holding [p]. *)
Definition countOf (p : Player) (w : list Player) : Z :=
  Z.of_nat (length (filter (fun q => q = p) w)).

(** The length of the run of [p] that starts the list. *)
Fixpoint leadingRun (p : Player) (w : list Player) : Z :=
  match w with
  | [] => 0
  | q :: w' => if Player_eqb q p then 1 + leadingRun p w' else 0
  end.

(** The length of the longest contiguous run of [p]: the longest of the
    runs that start at each position. *)
Fixpoint longestRun (p : Player) (w : list Player) : Z :=
  match w with
  | [] => 0
  | _ :: w' => Z.max (leadingRun p w) (longestRun p w')
  end.

(** The directional score of one axis. *)
Definition axisScore (own opp : Player) (w : list Player) : Z :=
  let ownRun := longestRun own w in
  let oppRun := longestRun opp w in
  let empties := countOf Empty w in
  (if decide (4 <= ownRun) then 2000
   else if decide (ownRun = 3 /\ 2 <= empties) then 1000
   else if decide (ownRun = 2 /\ 3 <= empties) then 100
   else 0)
  + (if decide (3 <= oppRun) then 1500
     else if decide (oppRun = 2 /\ 3 <= empties) then 200
     else 0)
  + 10 * countOf own w
  + 2 * countOf Empty w.

Definition sumOver {A : Type} (f : A -> Z) (l : list A) : Z :=
  foldr (fun a s => f a + s) 0 l.

(** The centre of the 15 x 15 board. *)
Definition centre : Z * Z := (7, 7).

(** The score of a cell that wins for neither side. *)
Definition quietScore (ai : AI) (b : Board) (row col : Z) : Z :=
  sumOver (fun dir => axisScore (player ai) (getOpponent ai)
                                        (window (Grid b) row col dir)) directions
  - 10 * (Z.abs (row - centre.1) + Z.abs (col - centre.2))
  - match last (MoveHistory b) with
    | Some lastMove => 5 * (Z.abs (row - lastMove.1) + Z.abs (col - lastMove.2))
    | None => 0
    end.

(** Placing a stone of [p] on (row,col) makes [CheckWin] true there. *)
Definition winsAt (b : Board) (row col : Z) (p : Player) : bool :=
  match grid_set (Grid b) row col p with
  | Some g =>
      match CheckWin (set_Grid g b) row col with
      | Ret won => won
      | Panic => false
      end
  | None => false
  end.

(** The value that [evaluatePosition] computes when neither placement wins. *)
Definition baseScore (ai : AI) (b : Board) (row col : Z) : Z :=
  foldl (fun score dir => score + evaluateDirection ai b row col dir.1 dir.2) 0 directions
  - manhattan (row - BoardSize `quot` 2) (col - BoardSize `quot` 2) * 10
  - match last (MoveHistory b) with
    | Some lastMove => manhattan (row - lastMove.1) (col - lastMove.2) * 5
    | None => 0
    end.

(** The value that [evaluatePosition] returns on an empty cell. *)
Definition positionValue (ai : AI) (b : Board) (row col : Z) : Z :=
  if winsAt b row col (player ai) then 10000
  else if winsAt b row col (getOpponent ai) then 9000
  else baseScore ai b row col.

(** An open three along [dir]: a contiguous run of exactly three cells of
    [p] through (row,col), with an empty cell of the board at either end. *)
Definition openThree (g : grid) (p : Player) (row col : Z) (dir : Z * Z) : Prop :=
  exists lo hi,
    run_through g p row col dir lo hi /\ hi - lo + 1 = 3 /\
    holds g Empty (row + dir.1 * (hi + 1)) (col + dir.2 * (hi + 1)) /\
    holds g Empty (row + dir.1 * (lo - 1)) (col + dir.2 * (lo - 1)).

(** The number of axes that satisfy [test]. *)
Definition axesWith (test : Z * Z -> bool) : Z :=
  Z.of_nat (length (filter (fun dir => test dir = true) directions)).

(** What a strategy returns: an empty cell of the board, or [noMove] on a
    board without empty cell. *)
Definition moveSpec (b0 : Board) (r : Z * Z) : Prop :=
  emptyCell b0 r \/ r = noMove /\ boardFull b0.

(** The Easy strategy reaches its draw with moves whose weights do not sum
    to a positive number. *)
Definition drawUndefined (ai : AI) (b0 : Board) : Prop :=
  exists moves,
    candidateMoves ai (findRange (Grid b0)) b0 = (Ret moves, b0) /\
    moves <> [] /\ totalWeight moves <= 0.

(** ** Further vocabulary *)

(** Row-major order on positions. *)
Definition before (m n : Z * Z) : Prop :=
  m.1 < n.1 \/ m.1 = n.1 /\ m.2 < n.2.

(** [r] is the first position of the board, in row-major order, that
    satisfies [found]; [noMove] when no position does. *)
Definition firstFound (found : Z -> Z -> Prop) (r : Z * Z) : Prop :=
  isValidPosition r.1 r.2 = true /\ found r.1 r.2 /\
  (forall i j, isValidPosition i j = true -> before (i, j) r -> ~ found i j)
  \/ r = noMove /\ forall i j, isValidPosition i j = true -> ~ found i j.

(** The verdict of a detector on the board with a stone of [p] placed on
    (i,j). *)
Definition testAfter (test : Board -> Z -> Z -> res bool) (b : Board) (i j : Z)
    (p : Player) : bool :=
  match grid_set (Grid b) i j p with
  | Some g =>
      match test (set_Grid g b) i j with
      | Ret verdict => verdict
      | Panic => false
      end
  | None => false
  end.

(** The cell (i,j) is empty and [accepts] holds of it. *)
Definition emptyAnd (b : Board) (accepts : Z -> Z -> bool) (i j : Z) : Prop :=
  grid_get (Grid b) i j = Some Empty /\ accepts i j = true.

(** The boards of a game: the new board, and what any sequence of calls to
    [PlaceStone] and [Undo], failing or not, makes of it. *)
Inductive reachable : Board -> Prop :=
  | reachable_new : reachable NewBoard
  | reachable_place b row col : reachable b -> reachable (PlaceStone row col b).2
  | reachable_undo b : reachable b -> reachable (Undo b).2.

(** The history lists the occupied cells, each once; a player is to move;
    a finished game ends on a stone that completes five in a row. *)
Definition consistent (b : Board) : Prop :=
  board_ok b = true /\
  CurrentTurn b <> Empty /\
  NoDup (MoveHistory b) /\
  (forall r c, isValidPosition r c = true ->
     cell (Grid b) r c <> Empty <-> (r, c) ∈ MoveHistory b) /\
  (GameFinished b = true ->
     exists m, last (MoveHistory b) = Some m /\ CheckWin b m.1 m.2 = Ret true).

(** The cells of a rectangle of the board, in row-major order. *)
Definition cellsOf (rows cols : list Z) : list (Z * Z) :=
  i ← rows; j ← cols; [(i, j)].

(** The rectangle that [makeEasyMove] searches: the range of the stones
    widened by two, clipped to rows and columns 2 to 12. *)
Definition searchCells (s : stoneRange) : list (Z * Z) :=
  cellsOf (rangeIncl (max 2 (minRow s - 2)) (min (BoardSize - 3) (maxRow s + 2)))
          (rangeIncl (max 2 (minCol s - 2)) (min (BoardSize - 3) (maxCol s + 2))).

Definition mw_pos (m : moveWithWeight) : Z * Z := (mw_row m, mw_col m).

(** (i,j) is a cell of the board that holds a stone. *)
Definition stoneAt (g : grid) (i j : Z) : Prop :=
  isValidPosition i j = true /\ cell g i j <> Empty.

(** The local variables of the scan for the range of the stones, after the
    cells [seen]. *)
Definition rangeOf (g : grid) (seen : list (Z * Z)) (s : stoneRange) : Prop :=
  (hasStones s = false ->
     s = mkRange (BoardSize - 1) 0 (BoardSize - 1) 0 false /\
     forall c, c ∈ seen -> cell g c.1 c.2 = Empty) /\
  (hasStones s = true ->
     (forall c, c ∈ seen -> cell g c.1 c.2 <> Empty ->
        minRow s <= c.1 <= maxRow s /\ minCol s <= c.2 <= maxCol s) /\
     (exists c, c ∈ seen /\ cell g c.1 c.2 <> Empty /\ c.1 = minRow s) /\
     (exists c, c ∈ seen /\ cell g c.1 c.2 <> Empty /\ c.1 = maxRow s) /\
     (exists c, c ∈ seen /\ cell g c.1 c.2 <> Empty /\ c.2 = minCol s) /\
     (exists c, c ∈ seen /\ cell g c.1 c.2 <> Empty /\ c.2 = maxCol s)).

(** An open four along [dir]: a contiguous run of exactly four cells of [p]
    through (row,col), with an empty cell of the board at either end. *)
Definition openFour (g : grid) (p : Player) (row col : Z) (dir : Z * Z) : Prop :=
  exists lo hi,
    run_through g p row col dir lo hi /\ hi - lo + 1 = 4 /\
    holds g Empty (row + dir.1 * (hi + 1)) (col + dir.2 * (hi + 1)) /\
    holds g Empty (row + dir.1 * (lo - 1)) (col + dir.2 * (lo - 1)).

(** The score that [eval] returns at a cell of board [b]. *)
Definition scoreAt (eval : Z -> Z -> M Z) (b : Board) (c : Z * Z) : Z :=
  match (eval c.1 c.2 b).1 with
  | Ret score => score
  | Panic => 0
  end.

(** [best] is the running maximum of step 7 after the cells [seen]: the
    initial pair when no cell seen is empty; otherwise an empty cell seen
    with its score, which no empty cell seen exceeds and no earlier one
    equals. *)
Definition bestSoFar (eval : Z -> Z -> M Z) (b : Board) (seen : Z * Z -> Prop)
    (best : Z * (Z * Z)) : Prop :=
  best = (MinInt32, noMove) /\ (forall c, seen c -> ~ emptyCell b c)
  \/ emptyCell b best.2 /\ seen best.2 /\ best.1 = scoreAt eval b best.2 /\
     forall c, seen c -> emptyCell b c ->
       scoreAt eval b c <= best.1 /\ (before c best.2 -> scoreAt eval b c < best.1).

(** [r] is the empty cell of highest score, the first one in row-major order
    among equals; [noMove] when the board has no empty cell. *)
Definition firstBest (eval : Z -> Z -> M Z) (b : Board) (r : Z * Z) : Prop :=
  r = noMove /\ boardFull b
  \/ emptyCell b r /\
     forall c, emptyCell b c ->
       scoreAt eval b c <= scoreAt eval b r /\
       (before c r -> scoreAt eval b c < scoreAt eval b r).

(** *** The Undo button of the game window

    The callback of the button, on the two fields of the window that it
    reads and writes: the board, which is the state of the monad, and the
    flag [isProcessing], passed in and returned.  The calls that redraw the
    stones and the status label read the board and are left out. *)
Definition undoTapped (isProcessing : bool) : M bool :=
  finished ← gets IsGameFinished;
  if isProcessing || finished then mret isProcessing
  else
    let isProcessing := true in
    err ← Undo;
    match err with
    | None =>
        turn ← gets GetCurrentPlayer;
        (if Player_eqb turn White then Undo else mret None);;
        mret false
    | Some _ => mret false
    end.

(** ** Concrete positions *)

(** The board reached from [b] by a sequence of calls to [PlaceStone]. *)
Definition playAll (moves : list (Z * Z)) (b : Board) : Board :=
  foldl (fun b m => (PlaceStone m.1 m.2 b).2) b moves.

(** Black has an open row of four on row 7, White has answered on row 8,
    and Black is to move. *)
Definition four_in_row_board : Board :=
  playAll [(7, 3); (8, 3); (7, 4); (8, 4); (7, 5); (8, 5); (7, 6); (8, 6)] NewBoard.

(** A grid given by its stones. *)
Definition put (g : grid) (s : Z * Z * Player) : grid :=
  default g (grid_set g s.1.1 s.1.2 s.2).
Definition grid_of (stones : list (Z * Z * Player)) : grid :=
  foldl put empty_grid stones.
Definition board_of (stones : list (Z * Z * Player)) (turn : Player)
    (history : list (Z * Z)) : Board :=
  mkBoard (grid_of stones) turn history false.

(** Five black stones from (5,7) along [dir]. *)
Definition five_stones (dir : Z * Z) : list (Z * Z * Player) :=
  map (fun i => (5 + dir.1 * i, 7 + dir.2 * i, Black)) (seqZ 0 5).

(** Four black stones on row 7 with a white stone at either end. *)
Definition blocked_four : list (Z * Z * Player) :=
  [(7, 3, Black); (7, 4, Black); (7, 5, Black); (7, 6, Black);
   (7, 2, White); (7, 7, White)].

(** Black has played the centre and White, the agent, is to answer. *)
Definition centre_stone_board : Board :=
  playAll [(7, 7)] NewBoard.

(** A game along the lower edge: Black (14,14), White (14,7), Black (14,0);
    White, the agent, is to move. *)
Definition edge_game_board : Board :=
  playAll [(14, 14); (14, 7); (14, 0)] NewBoard.


(** Black has an open row of four on row 7, columns 5 to 8; White, the
    agent, has three scattered stones on row 0, no winning cell, and is to
    move. *)
Definition open_four_board : Board :=
  playAll [(7, 5); (0, 0); (7, 6); (0, 2); (7, 7); (0, 4); (7, 8)] NewBoard.
(** ** Basic facts about the grid *)

Ltac munfold :=
  unfold mbind, M_bind, mret, M_ret, gets, modify, query, panic, readGrid, writeGrid in *.

Lemma isValidPosition_spec row col :
  isValidPosition row col = true <-> 0 <= row < BoardSize /\ 0 <= col < BoardSize.
Proof. unfold isValidPosition, BoardSize. lia. Qed.

Lemma isValidPosition_false row col :
  isValidPosition row col = false <->
  row < 0 \/ BoardSize <= row \/ col < 0 \/ BoardSize <= col.
Proof. unfold isValidPosition, BoardSize. lia. Qed.

Lemma grid_ok_spec (g : grid) :
  grid_ok g = true <->
  length g = Z.to_nat BoardSize /\
  forall i (line : list Player), g !! i = Some line -> length line = Z.to_nat BoardSize.
Proof.
  unfold grid_ok. rewrite andb_true_iff, bool_decide_eq_true, forallb_forall.
  split; intros [Hl Hr]; split; try done.
  - intros i line Hi. apply list_elem_of_lookup_2, list_elem_of_In in Hi.
    specialize (Hr _ Hi). by apply bool_decide_eq_true in Hr.
  - intros line Hin. apply list_elem_of_In, list_elem_of_lookup in Hin as [i Hi].
    apply bool_decide_eq_true. eauto.
Qed.

Lemma grid_get_valid (g : grid) r c :
  grid_ok g = true -> isValidPosition r c = true -> exists p, grid_get g r c = Some p.
Proof.
  intros [Hl Hr]%grid_ok_spec [Hrow Hcol]%isValidPosition_spec.
  unfold grid_get. replace ((r <? 0) || (c <? 0)) with false by lia.
  destruct (g !! Z.to_nat r) as [line|] eqn:Hline.
  - apply Hr in Hline as Hlen.
    destruct (line !! Z.to_nat c) as [p|] eqn:Hp; [eauto|].
    apply lookup_ge_None in Hp. unfold BoardSize in *. lia.
  - apply lookup_ge_None in Hline. unfold BoardSize in *. lia.
Qed.

Lemma grid_get_Some_valid (g : grid) r c p :
  grid_ok g = true -> grid_get g r c = Some p -> isValidPosition r c = true.
Proof.
  intros [Hl Hr]%grid_ok_spec. unfold grid_get.
  destruct ((r <? 0) || (c <? 0)) eqn:Hneg; [done|].
  destruct (g !! Z.to_nat r) as [line|] eqn:Hline; [|done].
  intros Hp. apply lookup_lt_Some in Hp, Hline as Hrl. apply Hr in Hline.
  apply isValidPosition_spec. unfold BoardSize in *. lia.
Qed.

Lemma cell_get (g : grid) r c p : grid_get g r c = Some p -> cell g r c = p.
Proof. unfold cell. by intros ->. Qed.

Lemma grid_set_is_Some (g : grid) r c p q :
  grid_get g r c = Some q -> exists g', grid_set g r c p = Some g'.
Proof.
  unfold grid_get, grid_set. destruct ((r <? 0) || (c <? 0)); [done|].
  destruct (g !! Z.to_nat r) as [line|]; [|done].
  intros Hq%lookup_lt_Some. case_decide; [eauto|lia].
Qed.

Lemma grid_set_get_Some (g g' : grid) r c p :
  grid_set g r c p = Some g' -> exists q, grid_get g r c = Some q.
Proof.
  unfold grid_get, grid_set. destruct ((r <? 0) || (c <? 0)); [done|].
  destruct (g !! Z.to_nat r) as [line|]; [|done].
  case_decide; [|done]. intros _. by apply lookup_lt_is_Some.
Qed.

Lemma grid_get_set_eq (g g' : grid) r c p :
  grid_set g r c p = Some g' -> grid_get g' r c = Some p.
Proof.
  unfold grid_get, grid_set. destruct ((r <? 0) || (c <? 0)); [done|].
  destruct (g !! Z.to_nat r) as [line|] eqn:Hline; [|done].
  case_decide; [|done]. intros [= <-].
  rewrite list_lookup_insert_eq by (by eapply lookup_lt_Some).
  by rewrite list_lookup_insert_eq.
Qed.

Lemma grid_get_set_ne (g g' : grid) r c p r' c' :
  grid_set g r c p = Some g' -> 0 <= r' -> 0 <= c' -> (r', c') <> (r, c) ->
  grid_get g' r' c' = grid_get g r' c'.
Proof.
  unfold grid_get, grid_set. destruct ((r <? 0) || (c <? 0)) eqn:Hrc; [done|].
  destruct (g !! Z.to_nat r) as [line|] eqn:Hline; [|done].
  case_decide; [|done]. intros [= <-] Hr' Hc' Hne.
  destruct ((r' <? 0) || (c' <? 0)); [done|].
  destruct (decide (Z.to_nat r' = Z.to_nat r)) as [Heq|Hner].
  - rewrite Heq, list_lookup_insert_eq by (by eapply lookup_lt_Some).
    rewrite Hline. apply list_lookup_insert_ne.
    intros Hc. apply Hne. f_equal; lia.
  - by rewrite list_lookup_insert_ne.
Qed.

Lemma grid_set_ok (g g' : grid) r c p :
  grid_set g r c p = Some g' -> grid_ok g = true -> grid_ok g' = true.
Proof.
  unfold grid_set. destruct ((r <? 0) || (c <? 0)); [done|].
  destruct (g !! Z.to_nat r) as [line|] eqn:Hline; [|done].
  case_decide; [|done]. intros [= <-] [Hl Hr]%grid_ok_spec.
  apply grid_ok_spec. split; [by rewrite length_insert|].
  intros i l' Hi. apply list_lookup_insert_Some in Hi as [(<- & <- & _)|[_ Hi]].
  - rewrite length_insert. eauto.
  - eauto.
Qed.

(** Writing twice at the same place keeps the last value. *)
Lemma grid_set_set (g g1 : grid) r c p q :
  grid_set g r c p = Some g1 -> grid_set g1 r c q = grid_set g r c q.
Proof.
  unfold grid_set. destruct ((r <? 0) || (c <? 0)); [done|].
  destruct (g !! Z.to_nat r) as [line|] eqn:Hline; [|done].
  case_decide; [|done]. intros [= <-].
  rewrite list_lookup_insert_eq by (by eapply lookup_lt_Some).
  rewrite length_insert. case_decide; [|done].
  by rewrite list_insert_insert_eq, list_insert_insert_eq.
Qed.

(** Writing the value that is already there changes nothing. *)
Lemma grid_set_same (g : grid) r c p :
  grid_get g r c = Some p -> grid_set g r c p = Some g.
Proof.
  unfold grid_get, grid_set. destruct ((r <? 0) || (c <? 0)); [done|].
  destruct (g !! Z.to_nat r) as [line|] eqn:Hline; [|done].
  intros Hp. case_decide as Hlt; [|apply lookup_lt_Some in Hp; lia].
  f_equal. rewrite (list_insert_id line) by done. by apply list_insert_id.
Qed.

(** The speculative-placement round trip on the grid. *)
Lemma grid_set_restore (g g1 : grid) r c p q :
  grid_get g r c = Some q -> grid_set g r c p = Some g1 -> grid_set g1 r c q = Some g.
Proof.
  intros Hq Hset. rewrite (grid_set_set _ _ _ _ _ _ Hset). by apply grid_set_same.
Qed.

(** ** The board state machine *)

Lemma bounds_test row col :
  (row <? 0) || (row >=? BoardSize) || (col <? 0) || (col >=? BoardSize)
  = negb (isValidPosition row col).
Proof. unfold isValidPosition, BoardSize. lia. Qed.

Lemma CheckWin_grid b b' row col :
  Grid b = Grid b' -> CheckWin b row col = CheckWin b' row col.
Proof. unfold CheckWin. by intros ->. Qed.

Lemma nextPlayer_other b :
  nextPlayer b <> CurrentTurn b /\ nextPlayer b <> Empty.
Proof. unfold nextPlayer. by destruct (CurrentTurn b). Qed.

(** What a successful [PlaceStone] computes, step by step. *)
Lemma PlaceStone_run b row col g1 :
  isValidPosition row col = true ->
  grid_get (Grid b) row col = Some Empty ->
  GameFinished b = false ->
  grid_set (Grid b) row col (CurrentTurn b) = Some g1 ->
  let b1 := set_MoveHistory (MoveHistory b ++ [(row, col)]) (set_Grid g1 b) in
  exists won, CheckWin b1 row col = Ret won /\
    PlaceStone row col b =
      (Ret None, if won then set_GameFinished true b1
                 else set_CurrentTurn (nextPlayer b1) b1).
Proof.
  intros Hv Hget Hfin Hset b1.
  assert (Hg1 : grid_get g1 row col = Some (CurrentTurn b))
    by (by eapply grid_get_set_eq).
  unfold PlaceStone. rewrite bounds_test, Hv. simpl. munfold.
  rewrite Hget. simpl. rewrite Hfin, Hset. simpl. fold b1.
  unfold CheckWin at 2. unfold CheckWin. simpl. rewrite Hg1.
  eexists. split; [reflexivity|].
  match goal with |- context [if ?t then _ else _] => by destruct t end.
Qed.

(** C1.  On a board that is not finished, placing a stone on an empty cell
    of the board succeeds; the cell then holds the player who was to move,
    the move is the last entry of the history, and either the stone completes
    five in a row (per [CheckWin]), the board is finished and the turn is
    unchanged, or the board is still not finished and the turn has passed to
    the other player. *)
Theorem PlaceStone_success b row col :
  grid_ok (Grid b) = true ->
  isValidPosition row col = true ->
  grid_get (Grid b) row col = Some Empty ->
  GameFinished b = false ->
  exists b',
    PlaceStone row col b = (Ret None, b') /\
    grid_get (Grid b') row col = Some (CurrentTurn b) /\
    MoveHistory b' = MoveHistory b ++ [(row, col)] /\
    last (MoveHistory b') = Some (row, col) /\
    exists won, CheckWin b' row col = Ret won /\
      if won : bool
      then GameFinished b' = true /\ CurrentTurn b' = CurrentTurn b
      else GameFinished b' = false /\ CurrentTurn b' = nextPlayer b /\
           CurrentTurn b' <> CurrentTurn b /\ CurrentTurn b' <> Empty.
Proof.
  intros Hok Hv Hget Hfin.
  destruct (grid_set_is_Some _ _ _ (CurrentTurn b) _ Hget) as [g1 Hset].
  destruct (PlaceStone_run b row col g1 Hv Hget Hfin Hset) as (won & Hwin & Hrun).
  eexists. split; [exact Hrun|].
  pose proof (grid_get_set_eq _ _ _ _ _ Hset) as Hg1.
  pose proof (nextPlayer_other b) as [Hn1 Hn2].
  destruct won; simpl.
  - repeat split; try done.
    + by rewrite last_snoc.
    + exists true. by rewrite <- Hwin.
  - repeat split; try done.
    + by rewrite last_snoc.
    + exists false. split; [by rewrite <- Hwin|]. done.
Qed.

Lemma PlaceStone_success_witness :
  exists b', PlaceStone 7 7 NewBoard = (Ret None, b') /\
    grid_get (Grid b') 7 7 = Some Black /\ CurrentTurn b' = White.
Proof.
  destruct (PlaceStone_success NewBoard 7 7) as (b' & Hrun & Hcell & _ & _ & won & Hwon & Hturn);
    try reflexivity.
  exists b'. split; [exact Hrun|]. split; [exact Hcell|].
  assert (Hb' : b' = (PlaceStone 7 7 NewBoard).2) by (by rewrite Hrun).
  rewrite Hb'. reflexivity.
Defined.

Lemma PlaceStone_out_of_bounds b row col :
  isValidPosition row col = false ->
  PlaceStone row col b = (Ret (Some errOutOfBounds), b).
Proof. intros Hv. unfold PlaceStone. by rewrite bounds_test, Hv. Qed.

Lemma PlaceStone_occupied b row col p :
  isValidPosition row col = true ->
  grid_get (Grid b) row col = Some p -> p <> Empty ->
  PlaceStone row col b = (Ret (Some errOccupied), b).
Proof.
  intros Hv Hget Hp. unfold PlaceStone. rewrite bounds_test, Hv. simpl. munfold.
  rewrite Hget. by apply Player_eqb_neq in Hp as ->.
Qed.

Lemma PlaceStone_finished b row col :
  isValidPosition row col = true ->
  grid_get (Grid b) row col = Some Empty -> GameFinished b = true ->
  PlaceStone row col b = (Ret (Some errFinished), b).
Proof.
  intros Hv Hget Hfin. unfold PlaceStone. rewrite bounds_test, Hv. simpl. munfold.
  rewrite Hget. simpl. by rewrite Hfin.
Qed.

Lemma Undo_empty b :
  MoveHistory b = [] -> Undo b = (Ret (Some errNoMoves), b).
Proof. intros Hh. unfold Undo. munfold. by rewrite Hh. Qed.

(** What a successful [Undo] computes. *)
Lemma Undo_run b h m g1 :
  MoveHistory b = h ++ [m] ->
  grid_set (Grid b) m.1 m.2 Empty = Some g1 ->
  Undo b = (Ret None, mkBoard g1 (nextPlayer b) h false).
Proof.
  intros Hh Hset. unfold Undo. munfold. rewrite Hh, last_snoc, length_app. simpl.
  replace (length h + 1 =? 0)%nat with false by (symmetry; apply Nat.eqb_neq; lia).
  rewrite Hset. simpl. rewrite Hh, length_app. simpl.
  replace (length h + 1 - 1)%nat with (length h) by lia.
  rewrite take_app_length. reflexivity.
Qed.

Lemma history_ok_last h m :
  history_ok h = true -> last h = Some m -> isValidPosition m.1 m.2 = true.
Proof.
  unfold history_ok. rewrite forallb_forall. intros Hall Hlast.
  apply Hall, list_elem_of_In. rewrite last_lookup in Hlast.
  by eapply list_elem_of_lookup_2.
Qed.

Lemma Undo_nonempty b :
  board_ok b = true -> MoveHistory b <> [] -> exists b', Undo b = (Ret None, b').
Proof.
  unfold board_ok. intros [Hg Hh]%andb_true_iff Hne.
  destruct (MoveHistory b) as [|x l] eqn:Hm using rev_ind; [done|]. clear IHl.
  assert (Hv : isValidPosition x.1 x.2 = true).
  { eapply history_ok_last; [exact Hh|]. by rewrite last_snoc. }
  destruct (grid_get_valid _ _ _ Hg Hv) as [q Hq].
  destruct (grid_set_is_Some _ _ _ Empty _ Hq) as [g1 Hset].
  eexists. by eapply Undo_run.
Qed.

(** C5.  [PlaceStone] fails exactly when the position is outside the board,
    or the cell is occupied (tested after the bounds), or the game is
    finished (tested after the occupancy); [Undo] fails exactly when the
    history is empty; and a failing call leaves the board as it was. *)
Theorem errors_characterised b row col :
  board_ok b = true ->
  (row < 0 \/ BoardSize <= row \/ col < 0 \/ BoardSize <= col ->
     PlaceStone row col b = (Ret (Some errOutOfBounds), b)) /\
  (isValidPosition row col = true -> cell (Grid b) row col <> Empty ->
     PlaceStone row col b = (Ret (Some errOccupied), b)) /\
  (isValidPosition row col = true -> cell (Grid b) row col = Empty ->
   GameFinished b = true ->
     PlaceStone row col b = (Ret (Some errFinished), b)) /\
  (isValidPosition row col = true -> cell (Grid b) row col = Empty ->
   GameFinished b = false ->
     (PlaceStone row col b).1 = Ret None) /\
  ((exists e, (PlaceStone row col b).1 = Ret (Some e)) <->
     isValidPosition row col = false \/ cell (Grid b) row col <> Empty \/
     GameFinished b = true) /\
  (forall e b', PlaceStone row col b = (Ret (Some e), b') -> b' = b) /\
  (MoveHistory b = [] -> Undo b = (Ret (Some errNoMoves), b)) /\
  (MoveHistory b <> [] -> (Undo b).1 = Ret None) /\
  ((exists e, (Undo b).1 = Ret (Some e)) <-> MoveHistory b = []) /\
  (forall e b', Undo b = (Ret (Some e), b') -> b' = b).
Proof.
  intros Hok. pose proof Hok as [Hg Hh]%andb_true_iff.
  assert (Hcases :
    (isValidPosition row col = false /\
       PlaceStone row col b = (Ret (Some errOutOfBounds), b)) \/
    (isValidPosition row col = true /\ cell (Grid b) row col <> Empty /\
       PlaceStone row col b = (Ret (Some errOccupied), b)) \/
    (isValidPosition row col = true /\ cell (Grid b) row col = Empty /\
       GameFinished b = true /\
       PlaceStone row col b = (Ret (Some errFinished), b)) \/
    (isValidPosition row col = true /\ cell (Grid b) row col = Empty /\
       GameFinished b = false /\ exists b', PlaceStone row col b = (Ret None, b'))).
  { destruct (isValidPosition row col) eqn:Hv;
      [|left; split; [done|by apply PlaceStone_out_of_bounds]].
    destruct (grid_get_valid _ _ _ Hg Hv) as [p Hp]. rewrite (cell_get _ _ _ _ Hp).
    destruct (decide (p = Empty)) as [->|Hne];
      [|right; left; repeat split; [done|by eapply PlaceStone_occupied]].
    destruct (GameFinished b) eqn:Hfin;
      [right; right; left; repeat split; by apply PlaceStone_finished|].
    right; right; right. repeat split.
    destruct (PlaceStone_success b row col Hg Hv Hp Hfin) as (b' & Hrun & _). eauto. }
  assert (Hundo :
    (MoveHistory b = [] /\ Undo b = (Ret (Some errNoMoves), b)) \/
    (MoveHistory b <> [] /\ exists b', Undo b = (Ret None, b'))).
  { destruct (decide (MoveHistory b = [])) as [He|Hne];
      [left; split; [done|by apply Undo_empty]|right; split; [done|by apply Undo_nonempty]]. }
  repeat split.
  - intros Hb%isValidPosition_false. by apply PlaceStone_out_of_bounds.
  - intros Hv Hc.
    destruct Hcases as [[? ?]|[(? & ? & ?)|[(? & ? & ? & ?)|(? & ? & ? & ?)]]]; congruence.
  - intros Hv Hc Hf.
    destruct Hcases as [[? ?]|[(? & ? & ?)|[(? & ? & ? & ?)|(? & ? & ? & ?)]]]; congruence.
  - intros Hv Hc Hf.
    destruct Hcases as [[? ?]|[(? & ? & ?)|[(? & ? & ? & ?)|(? & ? & ? & [b' Hb'])]]]; try congruence.
    by rewrite Hb'.
  - intros [e He].
    destruct Hcases as [[? ?]|[(? & ? & ?)|[(? & ? & ? & ?)|(? & ? & ? & [b' Hb'])]]]; eauto.
    by rewrite Hb' in He.
  - intros Hor.
    destruct Hcases as [[? ->]|[(? & ? & ->)|[(? & ? & ? & ->)|(? & ? & ? & ?)]]]; eauto.
    destruct Hor as [?|[?|?]]; congruence.
  - intros e b' Hrun.
    destruct Hcases as [[? ?]|[(? & ? & ?)|[(? & ? & ? & ?)|(? & ? & ? & [b'' Hb''])]]];
      congruence.
  - by apply Undo_empty.
  - intros Hne. destruct Hundo as [[? ?]|[_ [b' ->]]]; done.
  - intros [e He]. destruct Hundo as [[? ?]|[_ [b' Hb']]]; [done|]. by rewrite Hb' in He.
  - intros He. destruct Hundo as [[? ->]|[? _]]; [eauto|done].
  - intros e b' Hrun. destruct Hundo as [[? ?]|[_ [b'' Hb'']]]; congruence.
Qed.

Lemma errors_characterised_witness :
  PlaceStone 15 0 NewBoard = (Ret (Some errOutOfBounds), NewBoard) /\
  Undo NewBoard = (Ret (Some errNoMoves), NewBoard).
Proof.
  destruct (errors_characterised NewBoard 15 0) as (H1 & _ & _ & _ & _ & _ & H2 & _);
    [reflexivity|].
  split; [apply H1; unfold BoardSize; lia|by apply H2].
Defined.

(** Placing a stone and taking it back: the grid, the history and the flag
    are those of the board before the move; the turn is computed by
    [nextPlayer] from the turn that [PlaceStone] left. *)
Lemma PlaceStone_Undo b row col :
  grid_ok (Grid b) = true ->
  isValidPosition row col = true ->
  grid_get (Grid b) row col = Some Empty ->
  GameFinished b = false ->
  exists b1 won,
    PlaceStone row col b = (Ret None, b1) /\
    CheckWin b1 row col = Ret won /\
    Undo b1 = (Ret None,
               mkBoard (Grid b)
                       (if won then nextPlayer b
                        else nextPlayer (set_CurrentTurn (nextPlayer b) b))
                       (MoveHistory b) false).
Proof.
  intros Hok Hv Hget Hfin.
  destruct (grid_set_is_Some _ _ _ (CurrentTurn b) _ Hget) as [g1 Hset].
  destruct (PlaceStone_run b row col g1 Hv Hget Hfin Hset) as (won & Hwin & Hrun).
  pose proof (grid_set_restore _ _ _ _ _ _ Hget Hset) as Hback.
  eexists _, won. split; [exact Hrun|].
  destruct won; (split; [by rewrite <- Hwin|]);
    by rewrite (Undo_run _ (MoveHistory b) (row, col) (Grid b)).
Qed.

(** The round trip proper: when the stone does not complete five in a row
    and a player (Black or White) is to move, [Undo] gives back the board. *)
Lemma PlaceStone_Undo_roundtrip b row col b1 :
  grid_ok (Grid b) = true ->
  CurrentTurn b <> Empty ->
  GameFinished b = false ->
  PlaceStone row col b = (Ret None, b1) ->
  CheckWin b1 row col = Ret false ->
  Undo b1 = (Ret None, b).
Proof.
  intros Hok Hturn Hfin Hrun Hwin.
  destruct (isValidPosition row col) eqn:Hv;
    [|by rewrite PlaceStone_out_of_bounds in Hrun].
  destruct (grid_get_valid _ _ _ Hok Hv) as [p Hp].
  destruct (decide (p = Empty)) as [->|Hne];
    [|by erewrite PlaceStone_occupied in Hrun].
  destruct (PlaceStone_Undo b row col Hok Hv Hp Hfin) as (b1' & won & Hrun' & Hwin' & Hundo).
  rewrite Hrun in Hrun'. injection Hrun' as <-.
  rewrite Hwin in Hwin'. injection Hwin' as <-.
  rewrite Hundo. f_equal. destruct b as [g t h f]. simpl in *. subst f.
  f_equal. unfold nextPlayer. simpl. by destruct t.
Qed.

(** C2.  The round trip on a winning move.  Black completes five in a row at
    (7,7); [Undo] then restores the grid, the history and the flag, but
    hands the turn to White, whereas Black was to move before the stone was
    placed. *)
Theorem Undo_after_winning_move :
  let b := four_in_row_board in
  board_ok b = true /\ CurrentTurn b = Black /\ GameFinished b = false /\
  exists b1 b2,
    PlaceStone 7 7 b = (Ret None, b1) /\
    CheckWin b1 7 7 = Ret true /\
    GameFinished b1 = true /\ CurrentTurn b1 = Black /\
    Undo b1 = (Ret None, b2) /\
    Grid b2 = Grid b /\ MoveHistory b2 = MoveHistory b /\
    GameFinished b2 = GameFinished b /\
    CurrentTurn b2 = White /\ CurrentTurn b2 <> CurrentTurn b.
Proof.
  cbv zeta. split; [by vm_compute|]. split; [by vm_compute|]. split; [by vm_compute|].
  exists (PlaceStone 7 7 four_in_row_board).2.
  exists (Undo (PlaceStone 7 7 four_in_row_board).2).2.
  vm_compute. repeat split; congruence.
Qed.

(** ** [CheckWin] *)

(** The loop counts the matching cells from [i] on, stopping at the first
    one that does not match or after [n] cells. *)
Lemma countRun_spec g player pos n : forall i count,
  exists m, 0 <= m <= Z.of_nat n /\
    countRun g player pos n i count = count + m /\
    (forall j, i <= j < i + m -> matches g player pos j) /\
    (m < Z.of_nat n -> ~ matches g player pos (i + m)).
Proof.
  induction n as [|n IH]; intros i count; simpl.
  - exists 0. split; [lia|]. split; [lia|]. split; [intros; lia|lia].
  - destruct (pos i) as [r c] eqn:Hpos.
    assert (Hhere : matches g player pos i <->
              isValidPosition r c = true /\ Player_eqb (cell g r c) player = true).
    { unfold matches. rewrite Hpos. simpl. by rewrite Player_eqb_eq. }
    destruct (isValidPosition r c) eqn:Hv; simpl.
    + destruct (Player_eqb (cell g r c) player) eqn:Hp; simpl.
      * destruct (IH (i + 1) (count + 1)) as (m & Hm & Heq & Hall & Hstop).
        exists (m + 1). split; [lia|]. split; [lia|]. split.
        -- intros j Hj. destruct (decide (j = i)) as [->|Hne];
             [by apply Hhere | apply Hall; lia].
        -- intros Hlt. replace (i + (m + 1)) with (i + 1 + m) by lia.
           apply Hstop. lia.
      * exists 0. split; [lia|]. split; [lia|]. split; [intros; lia|].
        intros _. rewrite Z.add_0_r, Hhere. intros [_ ?]. congruence.
    + exists 0. split; [lia|]. split; [lia|]. split; [intros; lia|].
      intros _. rewrite Z.add_0_r, Hhere. intros [? _]. congruence.
Qed.

Lemma matches_holds g player pos i :
  grid_ok g = true ->
  matches g player pos i <-> holds g player (pos i).1 (pos i).2.
Proof.
  intros Hok. unfold matches, holds. split; intros [Hv Hc]; split; try done.
  - destruct (grid_get_valid _ _ _ Hok Hv) as [q Hq].
    by rewrite (cell_get _ _ _ _ Hq) in Hc; subst.
  - by apply cell_get.
Qed.

(** The count along one axis reaches five exactly when a contiguous segment
    of at least five cells through (row,col) holds the player. *)
Lemma lineCount_five g player row col dir :
  grid_ok g = true ->
  holds g player row col ->
  WinCondition <= lineCount g player row col dir <->
  exists lo hi, run_through g player row col dir lo hi /\ WinCondition <= hi - lo + 1.
Proof.
  intros Hok Hhere. unfold lineCount, WinCondition.
  destruct (countRun_spec g player (forward row col dir) (Z.to_nat (5 - 1)) 1 1)
    as (f & Hf & -> & Hfall & Hfstop).
  destruct (countRun_spec g player (backward row col dir) (Z.to_nat (5 - 1)) 1 (1 + f))
    as (k & Hk & -> & Hkall & Hkstop).
  change (Z.of_nat (Z.to_nat (5 - 1))) with 4 in *.
  split.
  - intros Hge. exists (- k), f. split; [|lia]. split; [lia|].
    intros i Hi.
    destruct (Z.lt_trichotomy i 0) as [Hneg|[->|Hpos]].
    + assert (Hm : matches g player (backward row col dir) (- i)) by (apply Hkall; lia).
      apply matches_holds in Hm; [|done]. unfold backward in Hm. simpl in Hm.
      by replace (row - dir.1 * - i) with (row + dir.1 * i) in Hm by lia;
         replace (col - dir.2 * - i) with (col + dir.2 * i) in Hm by lia.
    + by rewrite !Z.mul_0_r, !Z.add_0_r.
    + assert (Hm : matches g player (forward row col dir) i) by (apply Hfall; lia).
      by apply matches_holds in Hm.
  - intros (lo & hi & [Hlohi Hrun] & Hlen).
    assert (Hf' : f < 4 -> hi <= f).
    { intros Hlt. apply Z.nlt_ge. intros Hhi. apply (Hfstop Hlt).
      apply matches_holds; [done|]. unfold forward. simpl. apply Hrun. lia. }
    assert (Hk' : k < 4 -> - lo <= k).
    { intros Hlt. apply Z.nlt_ge. intros Hlo. apply (Hkstop Hlt).
      apply matches_holds; [done|]. unfold backward. simpl.
      replace (row - dir.1 * (1 + k)) with (row + dir.1 * (- (1 + k))) by lia.
      replace (col - dir.2 * (1 + k)) with (col + dir.2 * (- (1 + k))) by lia.
      apply Hrun. lia. }
    lia.
Qed.

(** [CheckWin] at any cell of the board, occupied or not: it takes the value
    stored there as the player and looks for five of it through the cell. *)
Lemma CheckWin_five b row col p :
  grid_ok (Grid b) = true ->
  grid_get (Grid b) row col = Some p ->
  exists won, CheckWin b row col = Ret won /\
    (won = true <-> five_through (Grid b) p row col).
Proof.
  intros Hok Hget. unfold CheckWin. rewrite Hget. eexists. split; [reflexivity|].
  assert (Hhere : holds (Grid b) p row col).
  { split; [by eapply grid_get_Some_valid|done]. }
  rewrite existsb_exists. unfold five_through. split.
  - intros (dir & Hin & Hge). apply list_elem_of_In in Hin.
    apply Z.geb_le, (lineCount_five _ _ _ _ _ Hok Hhere) in Hge as (lo & hi & Hrun & Hlen).
    eauto 6.
  - intros (dir & lo & hi & Hin & Hrun & Hlen). exists dir.
    split; [by apply list_elem_of_In|].
    apply Z.geb_le, (lineCount_five _ _ _ _ _ Hok Hhere). eauto.
Qed.

Lemma directions_cases (dir : Z * Z) :
  dir ∈ directions -> dir = (1, 0) \/ dir = (0, 1) \/ dir = (1, 1) \/ dir = (1, -1).
Proof. unfold directions. rewrite !elem_of_cons, elem_of_nil. tauto. Qed.

(** C6.  At an occupied cell of the board [CheckWin] returns true exactly
    when, along one of the four axes, the contiguous run of the cell's player
    through the cell has length at least five.  The result is a function of
    the grid alone.  It is true on five stones in a row along each axis, at
    each of the five stones, and false on a row of four closed at both ends. *)
Theorem CheckWin_occupied b row col p :
  grid_ok (Grid b) = true ->
  isValidPosition row col = true ->
  grid_get (Grid b) row col = Some p ->
  p <> Empty ->
  (exists won, CheckWin b row col = Ret won /\
     (won = true <-> five_through (Grid b) p row col)) /\
  (forall b', Grid b' = Grid b -> CheckWin b' row col = CheckWin b row col) /\
  (forall dir i turn history, dir ∈ directions -> 0 <= i < 5 ->
     CheckWin (board_of (five_stones dir) turn history)
              (5 + dir.1 * i) (7 + dir.2 * i) = Ret true) /\
  (forall c turn history, 3 <= c <= 6 ->
     CheckWin (board_of blocked_four turn history) 7 c = Ret false).
Proof.
  intros Hok Hv Hget Hp. repeat split.
  - by apply CheckWin_five.
  - intros b' Hg. by apply CheckWin_grid.
  - intros dir i turn history Hdir Hi.
    assert (Hcases : i = 0 \/ i = 1 \/ i = 2 \/ i = 3 \/ i = 4) by lia.
    apply directions_cases in Hdir.
    destruct Hdir as [->|[->|[->| ->]]];
      destruct Hcases as [->|[->|[->|[->| ->]]]]; reflexivity.
  - intros c turn history Hc.
    assert (Hcases : c = 3 \/ c = 4 \/ c = 5 \/ c = 6) by lia.
    destruct Hcases as [->|[->|[->| ->]]]; reflexivity.
Qed.

Lemma CheckWin_occupied_witness :
  CheckWin (board_of (five_stones (1, 1)) White []) 5 7 = Ret true.
Proof.
  destruct (CheckWin_occupied (board_of (five_stones (1, 1)) White []) 5 7 Black)
    as (_ & _ & Hfive & _); [reflexivity|reflexivity|reflexivity|discriminate|].
  apply (Hfive (1, 1) 0 White []); [|lia].
  unfold directions. rewrite !elem_of_cons. tauto.
Defined.

Lemma NewBoard_empty r c p : grid_get (Grid NewBoard) r c = Some p -> p = Empty.
Proof.
  unfold grid_get. simpl. destruct ((r <? 0) || (c <? 0)); [done|].
  unfold empty_grid.
  destruct (replicate _ _ !! Z.to_nat r) as [line|] eqn:Hline; [|done].
  apply lookup_replicate in Hline as [-> _].
  intros [-> _]%lookup_replicate. done.
Qed.

(** C10.  At an empty cell of the board [CheckWin] takes [Empty] as the
    player: it returns true exactly when five contiguous empty cells run
    through the cell along some axis.  On the new board, which has no stone
    at all, it returns true at the centre. *)
Theorem CheckWin_empty_cell b row col :
  grid_ok (Grid b) = true ->
  isValidPosition row col = true ->
  grid_get (Grid b) row col = Some Empty ->
  (exists won, CheckWin b row col = Ret won /\
     (won = true <-> five_through (Grid b) Empty row col)) /\
  CheckWin NewBoard 7 7 = Ret true /\
  (forall r c p, grid_get (Grid NewBoard) r c = Some p -> p = Empty).
Proof.
  intros Hok Hv Hget. repeat split.
  - by apply CheckWin_five.
  - apply NewBoard_empty.
Qed.

Lemma CheckWin_empty_cell_witness :
  exists won, CheckWin NewBoard 0 0 = Ret won /\
    (won = true <-> five_through (Grid NewBoard) Empty 0 0).
Proof.
  destruct (CheckWin_empty_cell NewBoard 0 0) as (H & _); try reflexivity.
  exact H.
Defined.

(** ** Reasoning about computations on the board *)

Lemma bind_run {A B} (m : M A) (f : A -> M B) b :
  (m ≫= f) b = match m b with
               | (Ret a, b') => f a b'
               | (Panic, b') => (Panic, b')
               end.
Proof. reflexivity. Qed.

Lemma bind_run_ret {A B} (m : M A) (f : A -> M B) b a b' :
  m b = (Ret a, b') -> (m ≫= f) b = f a b'.
Proof. intros H. by rewrite bind_run, H. Qed.

Lemma bind_run_panic {A B} (m : M A) (f : A -> M B) b b' :
  m b = (Panic, b') -> (m ≫= f) b = (Panic, b').
Proof. intros H. by rewrite bind_run, H. Qed.

Lemma triple_ret {A} (P : Board -> Prop) (a : A) (Q : A -> Board -> Prop) E :
  (forall b, P b -> Q a b) -> triple P (mret a) Q E.
Proof. intros H b Hb. by apply H. Qed.

Lemma triple_bind {A B} (P : Board -> Prop) (m : M A) (f : A -> M B)
    (R : A -> Board -> Prop) (Q : B -> Board -> Prop) E :
  triple P m R E -> (forall a, triple (R a) (f a) Q E) -> triple P (m ≫= f) Q E.
Proof.
  intros Hm Hf b Hb. rewrite bind_run. specialize (Hm b Hb).
  destruct (m b) as [[a|] b']; [by apply Hf|done].
Qed.

Lemma triple_conseq {A} (P P' : Board -> Prop) (m : M A)
    (Q Q' : A -> Board -> Prop) (E E' : Board -> Prop) :
  triple P' m Q' E' ->
  (forall b, P b -> P' b) -> (forall a b, Q' a b -> Q a b) -> (forall b, E' b -> E b) ->
  triple P m Q E.
Proof.
  intros Hm HP HQ HE b Hb. specialize (Hm b (HP b Hb)).
  destruct (m b) as [[a|] b']; eauto.
Qed.

Lemma triple_gets {A} (P : Board -> Prop) (f : Board -> A) E :
  triple P (gets f) (fun a b => P b /\ a = f b) E.
Proof. by intros b Hb. Qed.

Lemma triple_query {A} (P : Board -> Prop) (q : Board -> res A) :
  triple P (query q) (fun a b => P b /\ q b = Ret a) (fun b => P b /\ q b = Panic).
Proof. intros b Hb. unfold query. destruct (q b) eqn:Hq; by split. Qed.

Lemma triple_readGrid (P : Board -> Prop) r c :
  triple P (readGrid r c)
         (fun p b => P b /\ grid_get (Grid b) r c = Some p)
         (fun b => P b /\ grid_get (Grid b) r c = None).
Proof.
  intros b Hb. unfold readGrid.
  destruct (grid_get (Grid b) r c) eqn:Hget; by split.
Qed.

(** A loop with early return: every iteration keeps [I] while it goes on,
    and establishes [Q] when it returns. *)
Lemma triple_forM {A R} (I : Board -> Prop) (xs : list A) (body : A -> M (option R))
    (Q : R -> Board -> Prop) E :
  (forall x, x ∈ xs ->
     triple I (body x) (fun r b => match r with Some v => Q v b | None => I b end) E) ->
  triple I (forM xs body) (fun r b => match r with Some v => Q v b | None => I b end) E.
Proof.
  induction xs as [|x xs IH]; intros Hbody; simpl.
  - by apply triple_ret.
  - eapply triple_bind; [apply Hbody; by left|].
    intros [v|]; [by apply triple_ret|].
    apply IH. intros y Hy. apply Hbody. by right.
Qed.

(** A loop over local variables [s] with invariant [I]. *)
Lemma triple_foldM {A S} (I : S -> Board -> Prop) (xs : list A) (body : S -> A -> M S) E s :
  (forall s x, x ∈ xs -> triple (I s) (body s x) I E) ->
  triple (I s) (foldM xs s body) I E.
Proof.
  revert s. induction xs as [|x xs IH]; intros s Hbody; simpl.
  - by apply triple_ret.
  - eapply triple_bind; [apply Hbody; by left|].
    intros s'. apply IH. intros s'' y Hy. apply Hbody. by right.
Qed.

Lemma elem_of_range lo hi i : i ∈ range lo hi <-> lo <= i < hi.
Proof. unfold range. rewrite elem_of_seqZ. lia. Qed.

Lemma elem_of_rangeIncl lo hi i : i ∈ rangeIncl lo hi <-> lo <= i <= hi.
Proof. unfold rangeIncl. rewrite elem_of_seqZ. lia. Qed.

Lemma set_Grid_back b g1 : set_Grid (Grid b) (set_Grid g1 b) = b.
Proof. by destruct b. Qed.

(** A speculative placement on an empty cell: the write succeeds, the cell
    then holds the stone, and the write of [Empty] gives back the board. *)
Lemma speculate b i j p :
  grid_get (Grid b) i j = Some Empty ->
  exists b1,
    writeGrid i j p b = (Ret tt, b1) /\
    grid_get (Grid b1) i j = Some p /\
    writeGrid i j Empty b1 = (Ret tt, b) /\
    MoveHistory b1 = MoveHistory b.
Proof.
  intros Hget. destruct (grid_set_is_Some _ _ _ p _ Hget) as [g1 Hset].
  exists (set_Grid g1 b). unfold writeGrid. rewrite Hset. simpl.
  rewrite (grid_set_restore _ _ _ _ _ _ Hget Hset), set_Grid_back.
  split; [done|]. split; [by eapply grid_get_set_eq|done].
Qed.

Lemma CheckWin_Ret b i j p :
  grid_get (Grid b) i j = Some p -> exists won, CheckWin b i j = Ret won.
Proof. intros H. unfold CheckWin. rewrite H. eauto. Qed.

Lemma hasOpenFour_Ret ai b i j p :
  grid_get (Grid b) i j = Some p -> exists r, hasOpenFour ai b i j = Ret r.
Proof. intros H. unfold hasOpenFour. rewrite H. eauto. Qed.

Lemma hasOpenThree_Ret ai b i j p :
  grid_get (Grid b) i j = Some p -> exists r, hasOpenThree ai b i j = Ret r.
Proof. intros H. unfold hasOpenThree. rewrite H. eauto. Qed.

Lemma hasDoubleThree_Ret ai b i j p :
  grid_get (Grid b) i j = Some p -> exists r, hasDoubleThree ai b i j = Ret r.
Proof. intros H. unfold hasDoubleThree. rewrite H. eauto. Qed.

(** The same loops with an invariant that mentions the elements already
    visited. *)
Lemma triple_forM_visited {A R} (I : list A -> Board -> Prop) (body : A -> M (option R))
    (Q : R -> Board -> Prop) E (xs : list A) : forall pre0,
  (forall pre x post, xs = pre ++ x :: post ->
     triple (I (pre0 ++ pre)) (body x)
            (fun r b => match r with
                        | Some v => Q v b
                        | None => I (pre0 ++ pre ++ [x]) b
                        end) E) ->
  triple (I pre0) (forM xs body)
         (fun r b => match r with Some v => Q v b | None => I (pre0 ++ xs) b end) E.
Proof.
  induction xs as [|x xs IH]; intros pre0 Hbody; simpl.
  - apply triple_ret. intros b Hb. by rewrite app_nil_r.
  - eapply triple_bind.
    + specialize (Hbody [] x xs eq_refl). rewrite app_nil_r in Hbody. exact Hbody.
    + intros [v|]; [by apply triple_ret|]. simpl.
      replace (pre0 ++ x :: xs) with ((pre0 ++ [x]) ++ xs) by (by rewrite <- app_assoc).
      apply IH. intros pre y post ->.
      specialize (Hbody (x :: pre) y post eq_refl).
      by rewrite <- !app_assoc.
Qed.

Lemma triple_foldM_visited {A S} (I : list A -> S -> Board -> Prop)
    (body : S -> A -> M S) E (xs : list A) : forall pre0 s,
  (forall pre x post s, xs = pre ++ x :: post ->
     triple (I (pre0 ++ pre) s) (body s x) (I (pre0 ++ pre ++ [x])) E) ->
  triple (I pre0 s) (foldM xs s body) (I (pre0 ++ xs)) E.
Proof.
  induction xs as [|x xs IH]; intros pre0 s Hbody; simpl.
  - apply triple_ret. intros b Hb. by rewrite app_nil_r.
  - eapply triple_bind.
    + specialize (Hbody [] x xs s eq_refl). rewrite app_nil_r in Hbody. exact Hbody.
    + intros s'.
      replace (pre0 ++ x :: xs) with ((pre0 ++ [x]) ++ xs) by (by rewrite <- app_assoc).
      apply IH. intros pre y post s'' ->.
      specialize (Hbody (x :: pre) y post s'' eq_refl).
      by rewrite <- !app_assoc.
Qed.

(** ** The scans of the agent *)

Lemma grid_get_None_not_ok (g : grid) r c :
  isValidPosition r c = true -> grid_get g r c = None -> grid_ok g = false.
Proof.
  intros Hv Hnone. destruct (grid_ok g) eqn:Hok; [|done].
  destruct (grid_get_valid _ _ _ Hok Hv) as [p Hp]. congruence.
Qed.

Lemma range_valid i j :
  i ∈ range 0 BoardSize -> j ∈ range 0 BoardSize -> isValidPosition i j = true.
Proof. rewrite !elem_of_range. intros. apply isValidPosition_spec. lia. Qed.

(** The shape shared by the scans: two nested loops over the board whose
    body returns the cell it stands on or goes on. *)
Lemma scan_loops b0 (body : Z -> Z -> M (option (Z * Z))) :
  (forall i j, isValidPosition i j = true ->
     triple (eq b0) (body i j)
            (fun r b => match r with
                        | Some v => b = b0 /\ emptyCell b0 v
                        | None => b0 = b
                        end)
            (fun b => b = b0 /\ grid_ok (Grid b0) = false)) ->
  scanSpec b0 (r ← forM (range 0 BoardSize) (fun i =>
                     forM (range 0 BoardSize) (fun j => body i j));
               mret (default noMove r)).
Proof.
  intros Hbody. unfold scanSpec. eapply triple_bind.
  - apply (triple_forM (eq b0)) with (Q := fun v b => b = b0 /\ emptyCell b0 v).
    intros i Hi. apply (triple_forM (eq b0)). intros j Hj.
    apply Hbody. by apply range_valid.
  - intros [v|]; apply triple_ret; simpl.
    + intros b [-> Hv]. auto.
    + intros b <-. auto.
Qed.

Ltac spec_write Hget b1 Hw Hg1 Hback p :=
  destruct (speculate _ _ _ p Hget) as (b1 & Hw & Hg1 & Hback & _);
  rewrite (bind_run_ret _ _ _ _ _ Hw).

Ltac spec_query lem Hg1 r Hr :=
  let H := fresh in
  pose proof (lem _ _ _ _ Hg1) as H; destruct H as [r Hr];
  rewrite bind_run; unfold query at 1; rewrite Hr.

Lemma findWinningMove_spec ai p b0 : scanSpec b0 (findWinningMove ai p).
Proof.
  apply scan_loops. intros i j Hv b <-.
  rewrite bind_run. unfold readGrid at 1.
  destruct (grid_get (Grid b0) i j) as [q|] eqn:Hget;
    [|split; [done|by eapply grid_get_None_not_ok]].
  destruct (Player_eqb q Empty) eqn:Hq; [|done].
  apply Player_eqb_eq in Hq as ->.
  spec_write Hget b1 Hw Hg1 Hback p.
  destruct (CheckWin_Ret _ _ _ _ Hg1) as [won Hwon].
  rewrite bind_run. unfold query at 1. rewrite Hwon.
  destruct won; rewrite (bind_run_ret _ _ _ _ _ Hback); simpl; [|done].
  split; [done|]. by split.
Qed.

Lemma findOpenFourMove_spec ai p b0 : scanSpec b0 (findOpenFourMove ai p).
Proof.
  apply scan_loops. intros i j Hv b <-.
  rewrite bind_run. unfold readGrid at 1.
  destruct (grid_get (Grid b0) i j) as [q|] eqn:Hget;
    [|split; [done|by eapply grid_get_None_not_ok]].
  destruct (Player_eqb q Empty) eqn:Hq; [|done].
  apply Player_eqb_eq in Hq as ->. simpl.
  spec_write Hget b1 Hw Hg1 Hback p.
  destruct (hasOpenFour_Ret ai _ _ _ _ Hg1) as [found Hfound].
  rewrite bind_run. unfold query at 1. rewrite Hfound.
  destruct found; rewrite (bind_run_ret _ _ _ _ _ Hback); simpl; [|done].
  split; [done|]. by split.
Qed.

Lemma findOpenThreeMove_spec ai p b0 : scanSpec b0 (findOpenThreeMove ai p).
Proof.
  apply scan_loops. intros i j Hv b <-.
  rewrite bind_run. unfold readGrid at 1.
  destruct (grid_get (Grid b0) i j) as [q|] eqn:Hget;
    [|split; [done|by eapply grid_get_None_not_ok]].
  destruct (Player_eqb q Empty) eqn:Hq; [|done].
  apply Player_eqb_eq in Hq as ->. simpl.
  spec_write Hget b1 Hw Hg1 Hback p.
  destruct (hasOpenThree_Ret ai _ _ _ _ Hg1) as [found Hfound].
  rewrite bind_run. unfold query at 1. rewrite Hfound.
  destruct found; rewrite (bind_run_ret _ _ _ _ _ Hback); simpl; [|done].
  split; [done|]. by split.
Qed.

Lemma findAdvancedThreatMove_spec ai p b0 : scanSpec b0 (findAdvancedThreatMove ai p).
Proof.
  apply scan_loops. intros i j Hv b <-.
  rewrite bind_run. unfold readGrid at 1.
  destruct (grid_get (Grid b0) i j) as [q|] eqn:Hget;
    [|split; [done|by eapply grid_get_None_not_ok]].
  destruct (Player_eqb q Empty) eqn:Hq; [|done].
  apply Player_eqb_eq in Hq as ->. simpl.
  spec_write Hget b1 Hw Hg1 Hback p.
  destruct (hasOpenFour_Ret ai _ _ _ _ Hg1) as [four Hfour].
  rewrite bind_run. unfold query at 1. rewrite Hfour.
  destruct four.
  { rewrite (bind_run_ret _ _ _ _ _ Hback). simpl. split; [done|]. by split. }
  destruct (hasDoubleThree_Ret ai _ _ _ _ Hg1) as [three Hthree].
  rewrite bind_run. unfold query at 1. rewrite Hthree.
  destruct three; rewrite (bind_run_ret _ _ _ _ _ Hback); simpl; [|done].
  split; [done|]. by split.
Qed.

Lemma findThreatsMove_spec ai b0 : scanSpec b0 (findThreatsMove ai).
Proof.
  apply scan_loops. intros i j Hv b <-.
  rewrite bind_run. unfold readGrid at 1.
  destruct (grid_get (Grid b0) i j) as [q|] eqn:Hget;
    [|split; [done|by eapply grid_get_None_not_ok]].
  destruct (Player_eqb q Empty) eqn:Hq; [|done].
  apply Player_eqb_eq in Hq as ->. simpl.
  rewrite bind_run. unfold gets at 1.
  match goal with |- context [if ?t then _ else _] => destruct t end; simpl; [|done].
  split; [done|]. by split.
Qed.


(** The same shape, keeping track of what the cells passed over do not
    satisfy: [noMove] means that no cell of the board satisfies [found]. *)
Lemma scan_first b0 (body : Z -> Z -> M (option (Z * Z))) (found : Z -> Z -> Prop) :
  (forall i j, isValidPosition i j = true ->
     triple (eq b0) (body i j)
            (fun r b => b = b0 /\
               match r with Some v => emptyCell b0 v | None => ~ found i j end)
            (fun b => b = b0 /\ grid_ok (Grid b0) = false)) ->
  triple (eq b0)
         (r ← forM (range 0 BoardSize) (fun i =>
                forM (range 0 BoardSize) (fun j => body i j));
          mret (default noMove r))
         (fun r b => b = b0 /\
            (emptyCell b0 r \/
             r = noMove /\ forall i j, isValidPosition i j = true -> ~ found i j))
         (fun b => b = b0 /\ grid_ok (Grid b0) = false).
Proof.
  intros Hbody.
  set (E := fun b => b = b0 /\ grid_ok (Grid b0) = false).
  set (Q := fun (v : Z * Z) b => b = b0 /\ emptyCell b0 v).
  set (Irow := fun (rows : list Z) b => b = b0 /\
         forall i j, i ∈ rows -> j ∈ range 0 BoardSize -> ~ found i j).
  set (inner := fun i => forM (range 0 BoardSize) (fun j => body i j)).
  assert (Hinner : forall rows i, i ∈ range 0 BoardSize ->
    triple (Irow rows) (inner i)
           (fun r b => match r with Some v => Q v b | None => Irow (rows ++ [i]) b end) E).
  { intros rows i Hi.
    set (Icol := fun (cols : list Z) b => b = b0 /\
           (forall i' j, i' ∈ rows -> j ∈ range 0 BoardSize -> ~ found i' j) /\
           forall j, j ∈ cols -> ~ found i j).
    pose proof (triple_forM_visited Icol (fun j => body i j) Q E (range 0 BoardSize) [])
      as Hloop.
    eapply triple_conseq; [apply Hloop| | |intros b H; exact H].
    - intros cols j post Hsplit. simpl.
      assert (Hj : j ∈ range 0 BoardSize)
        by (rewrite Hsplit; apply elem_of_app; right; apply elem_of_cons; by left).
      intros b (-> & Hrows & Hcols).
      specialize (Hbody i j (range_valid i j Hi Hj) b0 eq_refl).
      destruct (body i j b0) as [[[v|]|] b']; [done| |done].
      destruct Hbody as [-> Hnot]. split; [done|]. split; [done|].
      intros j' [Hj'| ->%list_elem_of_singleton]%elem_of_app; [by apply Hcols|done].
    - intros b [-> Hrows]. split; [done|]. split; [done|].
      intros j Hj. by apply elem_of_nil in Hj.
    - intros [v|] b; [done|]. simpl. intros (-> & Hrows & Hcols). split; [done|].
      intros i' j [Hi'| ->%list_elem_of_singleton]%elem_of_app Hj; [by apply Hrows|].
      by apply Hcols. }
  eapply triple_bind.
  - pose proof (triple_forM_visited Irow inner Q E (range 0 BoardSize) []) as Hloop.
    eapply triple_conseq; [apply Hloop| |intros a b H; exact H|intros b H; exact H].
    + intros rows i post Hsplit. simpl. apply Hinner.
      rewrite Hsplit. apply elem_of_app. right. apply elem_of_cons. by left.
    + intros b <-. split; [done|]. intros i j Hi. by apply elem_of_nil in Hi.
  - intros [v|]; apply triple_ret; simpl.
    + intros b [-> Hv]. auto.
    + intros b [-> Hall]. split; [done|]. right. split; [done|].
      intros r c [Hr Hc]%isValidPosition_spec. apply Hall; apply elem_of_range; lia.
Qed.

(** The last resort of [makeEasyMove] finds an empty cell whenever there
    is one. *)
Lemma firstEmpty_spec b0 :
  triple (eq b0) firstEmpty
         (fun r b => b = b0 /\ (emptyCell b0 r \/ r = noMove /\ boardFull b0))
         (fun b => b = b0 /\ grid_ok (Grid b0) = false).
Proof.
  apply (scan_first b0 _ (fun i j => grid_get (Grid b0) i j = Some Empty)).
  intros i j Hv b <-.
  rewrite bind_run. unfold readGrid at 1.
  destruct (grid_get (Grid b0) i j) as [q|] eqn:Hget;
    [|split; [done|by eapply grid_get_None_not_ok]].
  destruct (Player_eqb q Empty) eqn:Hq; simpl.
  - apply Player_eqb_eq in Hq as ->. by repeat split.
  - apply Player_eqb_neq in Hq. split; [done|]. congruence.
Qed.

(** ** Position scoring *)

Lemma leadingRun_nonneg p w : 0 <= leadingRun p w.
Proof. induction w as [|q w IH]; simpl; [lia|]. destruct (Player_eqb q p); lia. Qed.

Lemma leadingRun_le_longestRun p w : leadingRun p w <= longestRun p w.
Proof. destruct w as [|q w]; simpl; lia. Qed.

Lemma longestRun_nonneg p w : 0 <= longestRun p w.
Proof.
  pose proof (leadingRun_nonneg p w). pose proof (leadingRun_le_longestRun p w). lia.
Qed.

Lemma countOf_cons p q w :
  countOf p (q :: w) = (if Player_eqb q p then 1 else 0) + countOf p w.
Proof.
  unfold countOf, Player_eqb. rewrite filter_cons.
  case_decide; case_bool_decide; try done; simpl; lia.
Qed.

Lemma countOf_nonneg p w : 0 <= countOf p w.
Proof. unfold countOf. lia. Qed.

Lemma opponent_cases ai q :
  player ai <> Empty -> q <> player ai -> q <> Empty -> q = getOpponent ai.
Proof. unfold getOpponent. by destruct (player ai), q. Qed.

Lemma getOpponent_neq ai : getOpponent ai <> player ai /\ getOpponent ai <> Empty.
Proof. unfold getOpponent. by destruct (player ai). Qed.

Lemma dirStep_off ai g row col dRow dCol v i :
  isValidPosition (row + dRow * i) (col + dCol * i) = false ->
  dirStep ai g row col dRow dCol v i = v.
Proof. intros Hv. unfold dirStep. by rewrite bounds_test, Hv. Qed.

Lemma dirStep_own ai g row col dRow dCol v i :
  isValidPosition (row + dRow * i) (col + dCol * i) = true ->
  cell g (row + dRow * i) (col + dCol * i) = player ai ->
  dirStep ai g row col dRow dCol v i =
    mkDirVars (myCount v + 1) (oppCount v) (empty v)
              (Z.max (maxMySeq v) (currentMySeq v + 1)) (maxOppSeq v)
              (currentMySeq v + 1) 0.
Proof.
  intros Hv Hq. unfold dirStep. rewrite bounds_test, Hv, Hq, Player_eqb_refl. simpl.
  f_equal. destruct (Z.gtb_spec (currentMySeq v + 1) (maxMySeq v)); lia.
Qed.

Lemma dirStep_empty ai g row col dRow dCol v i :
  player ai <> Empty ->
  isValidPosition (row + dRow * i) (col + dCol * i) = true ->
  cell g (row + dRow * i) (col + dCol * i) = Empty ->
  dirStep ai g row col dRow dCol v i =
    mkDirVars (myCount v) (oppCount v) (empty v + 1) (maxMySeq v) (maxOppSeq v) 0 0.
Proof.
  intros Hme Hv Hq. unfold dirStep. rewrite bounds_test, Hv, Hq. simpl.
  assert (Player_eqb Empty (player ai) = false) as -> by (by apply Player_eqb_neq).
  done.
Qed.

Lemma dirStep_opp ai g row col dRow dCol v i :
  isValidPosition (row + dRow * i) (col + dCol * i) = true ->
  cell g (row + dRow * i) (col + dCol * i) <> player ai ->
  cell g (row + dRow * i) (col + dCol * i) <> Empty ->
  dirStep ai g row col dRow dCol v i =
    mkDirVars (myCount v) (oppCount v + 1) (empty v) (maxMySeq v)
              (Z.max (maxOppSeq v) (currentOppSeq v + 1)) 0 (currentOppSeq v + 1).
Proof.
  intros Hv Hq1%Player_eqb_neq Hq2%Player_eqb_neq. unfold dirStep.
  rewrite bounds_test, Hv, Hq1, Hq2. simpl.
  f_equal. destruct (Z.gtb_spec (currentOppSeq v + 1) (maxOppSeq v)); lia.
Qed.

(** The loop of [evaluateDirection], started from any values of its
    variables, in terms of the cells it visits. *)
Lemma dirStep_fold ai g row col dRow dCol (offs : list Z) : forall v,
  player ai <> Empty ->
  0 <= currentMySeq v <= maxMySeq v ->
  0 <= currentOppSeq v <= maxOppSeq v ->
  let w := omap (cellAtOffset g row col (dRow, dCol)) offs in
  let v' := foldl (dirStep ai g row col dRow dCol) v offs in
  myCount v' = myCount v + countOf (player ai) w /\
  empty v' = empty v + countOf Empty w /\
  maxMySeq v' =
    Z.max (maxMySeq v)
          (Z.max (currentMySeq v + leadingRun (player ai) w) (longestRun (player ai) w)) /\
  maxOppSeq v' =
    Z.max (maxOppSeq v)
          (Z.max (currentOppSeq v + leadingRun (getOpponent ai) w)
                 (longestRun (getOpponent ai) w)).
Proof.
  induction offs as [|i offs IH]; intros v Hme Hmy Hopp.
  - cbn. unfold countOf. simpl. lia.
  - cbv zeta.
    change (foldl (dirStep ai g row col dRow dCol) v (i :: offs))
      with (foldl (dirStep ai g row col dRow dCol) (dirStep ai g row col dRow dCol v i) offs).
    change (omap (cellAtOffset g row col (dRow, dCol)) (i :: offs))
      with (match cellAtOffset g row col (dRow, dCol) i with
            | Some q => q :: omap (cellAtOffset g row col (dRow, dCol)) offs
            | None => omap (cellAtOffset g row col (dRow, dCol)) offs
            end).
    destruct (isValidPosition (row + dRow * i) (col + dCol * i)) eqn:Hv.
    2:{ assert (cellAtOffset g row col (dRow, dCol) i = None) as ->
          by (unfold cellAtOffset; cbn [fst snd]; by rewrite Hv).
        rewrite dirStep_off by done. by apply IH. }
    assert (cellAtOffset g row col (dRow, dCol) i
            = Some (cell g (row + dRow * i) (col + dCol * i))) as ->
      by (unfold cellAtOffset; cbn [fst snd]; by rewrite Hv).
    set (w := omap (cellAtOffset g row col (dRow, dCol)) offs).
    pose proof (getOpponent_neq ai) as [Hopp1 Hopp2].
    pose proof (leadingRun_nonneg (player ai) w) as Hl1.
    pose proof (leadingRun_nonneg (getOpponent ai) w) as Hl2.
    pose proof (leadingRun_le_longestRun (player ai) w) as Hll1.
    pose proof (leadingRun_le_longestRun (getOpponent ai) w) as Hll2.
    rewrite !countOf_cons. cbn [leadingRun longestRun].
    destruct (decide (cell g (row + dRow * i) (col + dCol * i) = player ai)) as [Hq|Hq1];
      [|destruct (decide (cell g (row + dRow * i) (col + dCol * i) = Empty)) as [Hq|Hq2]].
    + rewrite dirStep_own by done. rewrite Hq, Player_eqb_refl.
      assert (Player_eqb (player ai) Empty = false) as -> by (by apply Player_eqb_neq).
      assert (Player_eqb (player ai) (getOpponent ai) = false) as ->
        by (by apply Player_eqb_neq).
      match goal with |- context [foldl _ ?v0 offs] =>
        destruct (IH v0 Hme) as (H1 & H2 & H3 & H4);
          [cbn [maxMySeq currentMySeq]; lia | cbn [maxOppSeq currentOppSeq]; lia |]
      end.
      rewrite H1, H2, H3, H4.
      cbn [myCount empty maxMySeq maxOppSeq currentMySeq currentOppSeq]. fold w.
      repeat split; lia.
    + rewrite dirStep_empty by done. rewrite Hq, Player_eqb_refl.
      assert (Player_eqb Empty (player ai) = false) as -> by (by apply Player_eqb_neq).
      assert (Player_eqb Empty (getOpponent ai) = false) as ->
        by (by apply Player_eqb_neq).
      match goal with |- context [foldl _ ?v0 offs] =>
        destruct (IH v0 Hme) as (H1 & H2 & H3 & H4);
          [cbn [maxMySeq currentMySeq]; lia | cbn [maxOppSeq currentOppSeq]; lia |]
      end.
      rewrite H1, H2, H3, H4.
      cbn [myCount empty maxMySeq maxOppSeq currentMySeq currentOppSeq]. fold w.
      repeat split; lia.
    + rewrite dirStep_opp by done.
      rewrite (opponent_cases ai _ Hme Hq1 Hq2), Player_eqb_refl.
      assert (Player_eqb (getOpponent ai) (player ai) = false) as ->
        by (by apply Player_eqb_neq).
      assert (Player_eqb (getOpponent ai) Empty = false) as ->
        by (by apply Player_eqb_neq).
      match goal with |- context [foldl _ ?v0 offs] =>
        destruct (IH v0 Hme) as (H1 & H2 & H3 & H4);
          [cbn [maxMySeq currentMySeq]; lia | cbn [maxOppSeq currentOppSeq]; lia |]
      end.
      rewrite H1, H2, H3, H4.
      cbn [myCount empty maxMySeq maxOppSeq currentMySeq currentOppSeq]. fold w.
      repeat split; lia.
Qed.

(** [evaluateDirection] is the directional score of the window. *)
Lemma evaluateDirection_axis ai b row col (dir : Z * Z) :
  player ai <> Empty ->
  evaluateDirection ai b row col dir.1 dir.2
  = axisScore (player ai) (getOpponent ai) (window (Grid b) row col dir).
Proof.
  intros Hme. unfold evaluateDirection, window.
  destruct (dirStep_fold ai (Grid b) row col dir.1 dir.2 (rangeIncl (-4) 4)
              (mkDirVars 0 0 0 0 0 0 0) Hme) as (H1 & H2 & H3 & H4);
    [simpl; lia|simpl; lia|].
  destruct dir as [dRow dCol]. cbn [fst snd] in *.
  set (w := omap (cellAtOffset (Grid b) row col (dRow, dCol)) (rangeIncl (-4) 4)) in *.
  set (v := foldl _ _ _) in *.
  pose proof (leadingRun_nonneg (player ai) w).
  pose proof (leadingRun_nonneg (getOpponent ai) w).
  pose proof (leadingRun_le_longestRun (player ai) w).
  pose proof (leadingRun_le_longestRun (getOpponent ai) w).
  cbn [myCount empty maxMySeq maxOppSeq currentMySeq currentOppSeq] in *.
  unfold dirScore, axisScore. rewrite H1, H2, H3, H4.
  replace (0 `max` ((0 + leadingRun (player ai) w) `max` longestRun (player ai) w))
    with (longestRun (player ai) w) by lia.
  replace (0 `max` ((0 + leadingRun (getOpponent ai) w) `max` longestRun (getOpponent ai) w))
    with (longestRun (getOpponent ai) w) by lia.
  generalize (longestRun (player ai) w) (longestRun (getOpponent ai) w)
             (countOf (player ai) w) (countOf Empty w).
  intros m o c e.
  repeat case_decide;
    repeat match goal with |- context [if ?t then _ else _] => destruct t eqn:? end;
    lia.
Qed.

Lemma evaluateDirection_nonneg ai b row col dRow dCol :
  player ai <> Empty -> 0 <= evaluateDirection ai b row col dRow dCol.
Proof.
  intros Hme. pose proof (evaluateDirection_axis ai b row col (dRow, dCol) Hme) as Heq.
  cbn [fst snd] in Heq. rewrite Heq.
  unfold axisScore.
  pose proof (countOf_nonneg (player ai) (window (Grid b) row col (dRow, dCol))).
  pose proof (countOf_nonneg Empty (window (Grid b) row col (dRow, dCol))).
  repeat case_decide; lia.
Qed.

Lemma speculate_set b i j p :
  grid_get (Grid b) i j = Some Empty ->
  exists g1,
    grid_set (Grid b) i j p = Some g1 /\
    grid_get g1 i j = Some p /\
    writeGrid i j p b = (Ret tt, set_Grid g1 b) /\
    writeGrid i j Empty (set_Grid g1 b) = (Ret tt, b).
Proof.
  intros Hget. destruct (grid_set_is_Some _ _ _ p _ Hget) as [g1 Hset].
  exists g1. unfold writeGrid. rewrite Hset. simpl.
  rewrite (grid_set_restore _ _ _ _ _ _ Hget Hset), set_Grid_back.
  split; [done|]. split; [by eapply grid_get_set_eq|done].
Qed.

(** [evaluatePosition] on an empty cell: it returns, the board is as before,
    and the value is [positionValue]. *)
Lemma evaluatePosition_run ai row col b :
  grid_get (Grid b) row col = Some Empty ->
  evaluatePosition ai row col b = (Ret (positionValue ai b row col), b).
Proof.
  intros Hget. unfold evaluatePosition, positionValue, winsAt.
  destruct (speculate_set b row col (player ai) Hget) as (gm & Hsetm & Hgm & Hwm & Hbm).
  destruct (speculate_set b row col (getOpponent ai) Hget) as (go & Hseto & Hgo & Hwo & Hbo).
  rewrite Hsetm, Hseto.
  rewrite (bind_run_ret _ _ _ _ _ Hwm).
  destruct (CheckWin_Ret (set_Grid gm b) row col _ Hgm) as [wm Hm].
  rewrite bind_run. unfold query at 1. rewrite Hm.
  destruct wm; rewrite (bind_run_ret _ _ _ _ _ Hbm); [done|].
  rewrite (bind_run_ret _ _ _ _ _ Hwo).
  destruct (CheckWin_Ret (set_Grid go b) row col _ Hgo) as [wo Ho].
  rewrite bind_run. unfold query at 1. rewrite Ho.
  destruct wo; rewrite (bind_run_ret _ _ _ _ _ Hbo); [done|].
  rewrite bind_run. unfold gets at 1. rewrite bind_run. unfold gets at 1.
  unfold baseScore.
  destruct (MoveHistory b) as [|m h] eqn:Hh.
  - simpl. unfold mret, M_ret. by rewrite Z.sub_0_r.
  - destruct (last (m :: h)) as [lastMove|] eqn:Hlast; [done|].
    by apply last_None in Hlast.
Qed.

Lemma baseScore_quiet ai b row col :
  player ai <> Empty -> baseScore ai b row col = quietScore ai b row col.
Proof.
  intros Hme. unfold baseScore, quietScore, directions, sumOver, manhattan, centre.
  cbn [foldl foldr fst snd].
  pose proof (evaluateDirection_axis ai b row col (1, 0) Hme) as H1.
  pose proof (evaluateDirection_axis ai b row col (0, 1) Hme) as H2.
  pose proof (evaluateDirection_axis ai b row col (1, 1) Hme) as H3.
  pose proof (evaluateDirection_axis ai b row col (1, -1) Hme) as H4.
  cbn [fst snd] in H1, H2, H3, H4. rewrite H1, H2, H3, H4.
  change (BoardSize `quot` 2) with 7.
  destruct (last (MoveHistory b)); lia.
Qed.

Lemma winsAt_five b row col p g :
  grid_ok (Grid b) = true ->
  grid_get (Grid b) row col = Some Empty ->
  grid_set (Grid b) row col p = Some g ->
  winsAt b row col p = true <-> five_through g p row col.
Proof.
  intros Hok Hget Hset. unfold winsAt. rewrite Hset.
  assert (Hok' : grid_ok (Grid (set_Grid g b)) = true) by (by eapply grid_set_ok).
  assert (Hg : grid_get (Grid (set_Grid g b)) row col = Some p)
    by (by eapply grid_get_set_eq).
  destruct (CheckWin_five _ _ _ _ Hok' Hg) as (won & -> & Hwon). exact Hwon.
Qed.

(** C7.  On an empty cell of the board, for an agent playing Black or White,
    [evaluatePosition] returns 10000 when the agent's stone placed there
    completes five in a row; else 9000 when the opponent's stone placed there
    does; else the sum over the four axes of the directional score of the
    window of offsets -4..+4 (2000, 1000 or 100 for the longest own run, 1500
    or 200 for the longest opponent run, 10 per own stone, 2 per empty cell),
    minus 10 times the Manhattan distance to the centre, minus 5 times the
    Manhattan distance to the last move when there is one.  The board is left
    as it was. *)
Theorem evaluatePosition_value ai b row col :
  grid_ok (Grid b) = true ->
  isValidPosition row col = true ->
  grid_get (Grid b) row col = Some Empty ->
  player ai <> Empty ->
  exists gm go score,
    grid_set (Grid b) row col (player ai) = Some gm /\
    grid_set (Grid b) row col (getOpponent ai) = Some go /\
    evaluatePosition ai row col b = (Ret score, b) /\
    (five_through gm (player ai) row col -> score = 10000) /\
    (~ five_through gm (player ai) row col ->
     five_through go (getOpponent ai) row col -> score = 9000) /\
    (~ five_through gm (player ai) row col ->
     ~ five_through go (getOpponent ai) row col ->
     score = quietScore ai b row col).
Proof.
  intros Hok Hv Hget Hme.
  destruct (grid_set_is_Some _ _ _ (player ai) _ Hget) as [gm Hsetm].
  destruct (grid_set_is_Some _ _ _ (getOpponent ai) _ Hget) as [go Hseto].
  exists gm, go, (positionValue ai b row col).
  split; [done|]. split; [done|]. split; [by apply evaluatePosition_run|].
  pose proof (winsAt_five b row col _ gm Hok Hget Hsetm) as Hm.
  pose proof (winsAt_five b row col _ go Hok Hget Hseto) as Ho.
  unfold positionValue.
  destruct (winsAt b row col (player ai)); [|destruct (winsAt b row col (getOpponent ai))].
  - split; [done|]. split; intros Hn; exfalso; apply Hn; by apply Hm.
  - split; [intros H%Hm; done|]. split; [done|].
    intros _ Hn. exfalso. apply Hn. by apply Ho.
  - split; [intros H%Hm; done|]. split; [intros _ H%Ho; done|].
    intros _ _. by apply baseScore_quiet.
Qed.

Lemma evaluatePosition_value_witness :
  exists score,
    evaluatePosition (mkAI White Easy) 7 8 centre_stone_board
    = (Ret score, centre_stone_board).
Proof.
  destruct (evaluatePosition_value (mkAI White Easy) centre_stone_board 7 8)
    as (gm & go & score & _ & _ & Hrun & _);
    [reflexivity|reflexivity|reflexivity|discriminate|].
  exists score. exact Hrun.
Defined.

(** ** Pattern detectors *)

(** The walk of [hasOpenFour] and [hasOpenThree]: it counts the cells that
    match, and adds one to [space] exactly when it stops, before the last
    step, at an empty cell of the board. *)
Lemma openWalk_spec g player pos n : forall i count space,
  exists m ds,
    openWalk g player pos n i count space = (count + m, space + ds) /\
    0 <= m <= Z.of_nat n /\
    (forall j, i <= j < i + m -> matches g player pos j) /\
    (m = Z.of_nat n /\ ds = 0 \/
     m < Z.of_nat n /\ ~ matches g player pos (i + m) /\
     (ds = 1 /\ matches g Empty pos (i + m) \/
      ds = 0 /\ ~ matches g Empty pos (i + m))).
Proof.
  induction n as [|n IH]; intros i count space.
  - exists 0, 0. simpl. split; [f_equal; lia|]. split; [lia|].
    split; [intros; lia|]. left. lia.
  - cbn [openWalk]. destruct (pos i) as [r c] eqn:Hpos.
    assert (Hhere : forall q, matches g q pos i <->
              isValidPosition r c = true /\ Player_eqb (cell g r c) q = true).
    { intros q. unfold matches. rewrite Hpos. simpl. by rewrite Player_eqb_eq. }
    destruct (isValidPosition r c) eqn:Hv; simpl.
    + destruct (Player_eqb (cell g r c) player) eqn:Hp.
      * destruct (IH (i + 1) (count + 1) space) as (m & ds & Heq & Hm & Hall & Hstop).
        exists (m + 1), ds. rewrite Heq. split; [f_equal; lia|]. split; [lia|].
        split.
        -- intros j Hj. destruct (decide (j = i)) as [->|Hne];
             [by apply Hhere | apply Hall; lia].
        -- replace (i + (m + 1)) with (i + 1 + m) by lia.
           destruct Hstop as [[-> ->]|(Hlt & Hno & Hds)]; [left; lia|right].
           split; [lia|]. done.
      * destruct (Player_eqb (cell g r c) Empty) eqn:He.
        -- exists 0, 1. split; [f_equal; lia|]. split; [lia|]. split; [intros; lia|].
           right. rewrite Z.add_0_r. split; [lia|]. rewrite !Hhere.
           split; [intros [_ ?]; congruence|]. left. done.
        -- exists 0, 0. split; [f_equal; lia|]. split; [lia|]. split; [intros; lia|].
           right. rewrite Z.add_0_r. split; [lia|]. rewrite !Hhere.
           split; [intros [_ ?]; congruence|]. right. split; [done|].
           intros [_ ?]; congruence.
    + exists 0, 0. split; [f_equal; lia|]. split; [lia|]. split; [intros; lia|].
      right. rewrite Z.add_0_r. split; [lia|]. rewrite !Hhere.
      split; [intros [? _]; congruence|]. right. split; [done|].
      intros [? _]; congruence.
Qed.

(** The walk of [hasDoubleThree] computes the same count and space, and adds
    to [blocked] only when it adds nothing to [space]. *)
Lemma threeWalk_openWalk g player pos n : forall i count space blocked,
  exists db,
    threeWalk g player pos n i count space blocked
    = (openWalk g player pos n i count space, blocked + db) /\
    0 <= db /\
    (openWalk g player pos n i count space).2 - space + db <= 1.
Proof.
  induction n as [|n IH]; intros i count space blocked.
  - exists 0. simpl. split; [repeat f_equal; lia|]. lia.
  - cbn [threeWalk openWalk]. destruct (pos i) as [r c].
    destruct (isValidPosition r c); simpl.
    + destruct (Player_eqb (cell g r c) player); [apply IH|].
      destruct (Player_eqb (cell g r c) Empty).
      * exists 0. simpl. split; [repeat f_equal; lia|]. lia.
      * exists 1. simpl. split; [done|]. lia.
    + exists 1. simpl. split; [done|]. lia.
Qed.

Lemma openWalk_space_mono g player pos n i count space :
  space <= (openWalk g player pos n i count space).2.
Proof.
  destruct (openWalk_spec g player pos n i count space) as (m & ds & -> & _ & _ & H).
  simpl. destruct H as [[_ ->]|(_ & _ & [[-> _]|[-> _]])]; lia.
Qed.

(** The per-axis test of [hasDoubleThree] is the per-axis test of
    [hasOpenThree]. *)
Lemma doubleThreeAxis_openThreeAxis g player row col dir :
  doubleThreeAxis g player row col dir = openThreeAxis g player row col dir.
Proof.
  unfold doubleThreeAxis, openThreeAxis, threeLine, openLine.
  destruct (threeWalk_openWalk g player (forward row col dir) 3 1 1 0 0)
    as (db1 & -> & Hdb1 & Hs1).
  pose proof (openWalk_space_mono g player (forward row col dir) 3 1 1 0) as Hm1.
  destruct (openWalk g player (forward row col dir) 3 1 1 0) as [c1 s1].
  destruct (threeWalk_openWalk g player (backward row col dir) 3 1 c1 s1 (0 + db1))
    as (db2 & -> & Hdb2 & Hs2).
  pose proof (openWalk_space_mono g player (backward row col dir) 3 1 c1 s1) as Hm2.
  destruct (openWalk g player (backward row col dir) 3 1 c1 s1) as [c2 s2].
  simpl in *. lia.
Qed.

(** The test of [hasOpenThree] along one axis holds exactly on an open
    three. *)
Lemma openThreeAxis_openThree g player row col dir :
  grid_ok g = true ->
  holds g player row col ->
  player <> Empty ->
  openThreeAxis g player row col dir = true <-> openThree g player row col dir.
Proof.
  intros Hok Hhere Hp. unfold openThreeAxis, openLine.
  destruct (openWalk_spec g player (forward row col dir) 3 1 1 0)
    as (m1 & d1 & -> & Hm1 & Hall1 & Hstop1).
  destruct (openWalk_spec g player (backward row col dir) 3 1 (1 + m1) (0 + d1))
    as (m2 & d2 & -> & Hm2 & Hall2 & Hstop2).
  change (Z.of_nat 3) with 3 in *.
  assert (Hfwd : forall q i, matches g q (forward row col dir) i <->
                   holds g q (row + dir.1 * i) (col + dir.2 * i)).
  { intros q i. by rewrite matches_holds. }
  assert (Hbwd : forall q i, matches g q (backward row col dir) i <->
                   holds g q (row + dir.1 * (- i)) (col + dir.2 * (- i))).
  { intros q i. rewrite matches_holds by done. unfold backward. simpl.
    by replace (row - dir.1 * i) with (row + dir.1 * - i) by lia;
       replace (col - dir.2 * i) with (col + dir.2 * - i) by lia. }
  assert (Hexcl : forall r c, holds g Empty r c -> holds g player r c -> False).
  { intros r c [_ H1] [_ H2]. congruence. }
  split.
  - intros [Hc Hs]%andb_true_iff.
    assert (d1 = 1 /\ d2 = 1) as [-> ->].
    { destruct Hstop1 as [[_ ->]|(_ & _ & [[-> _]|[-> _]])];
        destruct Hstop2 as [[_ ->]|(_ & _ & [[-> _]|[-> _]])]; lia. }
    destruct Hstop1 as [[_ ?]|(Hlt1 & _ & [[_ He1]|[? _]])]; [lia| |lia].
    destruct Hstop2 as [[_ ?]|(Hlt2 & _ & [[_ He2]|[? _]])]; [lia| |lia].
    exists (- m2), m1. split; [|split; [lia|split]].
    + split; [lia|]. intros i Hi.
      destruct (Z.lt_trichotomy i 0) as [Hneg|[->|Hpos]].
      * replace i with (- - i) by lia. apply Hbwd, Hall2. lia.
      * by rewrite !Z.mul_0_r, !Z.add_0_r.
      * apply Hfwd, Hall1. lia.
    + apply Hfwd. by replace (m1 + 1) with (1 + m1) by lia.
    + apply Hbwd in He2. by replace (- m2 - 1) with (- (1 + m2)) by lia.
  - intros (lo & hi & [Hlohi Hrun] & Hlen & Hehi & Helo).
    assert (m1 = hi) as ->.
    { destruct (Z.lt_trichotomy m1 hi) as [Hlt|[Heq|Hgt]]; [|done|].
      - exfalso. destruct Hstop1 as [[? _]|(_ & Hno & _)]; [lia|].
        apply Hno, Hfwd, Hrun. lia.
      - exfalso. apply (Hexcl _ _ Hehi). apply Hfwd, Hall1. lia. }
    assert (m2 = - lo) as ->.
    { destruct (Z.lt_trichotomy m2 (- lo)) as [Hlt|[Heq|Hgt]]; [|done|].
      - exfalso. destruct Hstop2 as [[? _]|(_ & Hno & _)]; [lia|].
        apply Hno, Hbwd, Hrun. lia.
      - exfalso. apply (Hexcl _ _ Helo).
        replace (lo - 1) with (- (1 - lo)) by lia. apply Hbwd, Hall2. lia. }
    assert (d1 = 1) as ->.
    { destruct Hstop1 as [[? _]|(_ & _ & [[-> _]|[_ Hno]])]; [lia|done|].
      exfalso. apply Hno, Hfwd. by replace (1 + hi) with (hi + 1) by lia. }
    assert (d2 = 1) as ->.
    { destruct Hstop2 as [[? _]|(_ & _ & [[-> _]|[_ Hno]])]; [lia|done|].
      exfalso. apply Hno, Hbwd. by replace (- (1 + - lo)) with (lo - 1) by lia. }
    apply andb_true_iff. lia.
Qed.

Lemma threeCount_axesWith (test : Z * Z -> bool) :
  foldl (fun threeCount dir => if test dir then threeCount + 1 else threeCount)
        0 directions
  = axesWith test.
Proof.
  unfold axesWith, directions. cbn [foldl].
  rewrite !filter_cons, filter_nil.
  destruct (test (1, 0)), (test (0, 1)), (test (1, 1)), (test (1, -1)); reflexivity.
Qed.

Lemma existsb_axesWith (test : Z * Z -> bool) :
  existsb test directions = (1 <=? axesWith test).
Proof.
  unfold axesWith, directions. cbn [existsb].
  rewrite !filter_cons, filter_nil.
  destruct (test (1, 0)), (test (0, 1)), (test (1, 1)), (test (1, -1)); reflexivity.
Qed.

(** C8.  At a cell of the board that holds a stone, [hasDoubleThree] returns
    true exactly when at least two of the four axes pass the per-axis test of
    [hasOpenThree]: the two per-axis tests agree ([space == 2] already
    excludes a blocked walk), and the test holds exactly on a contiguous run
    of three of the player's stones through the cell with an empty cell of
    the board at either end. *)
Theorem hasDoubleThree_two_axes ai b row col p :
  grid_ok (Grid b) = true ->
  isValidPosition row col = true ->
  grid_get (Grid b) row col = Some p ->
  p <> Empty ->
  (forall dir, doubleThreeAxis (Grid b) p row col dir
               = openThreeAxis (Grid b) p row col dir) /\
  (forall dir, openThreeAxis (Grid b) p row col dir = true
               <-> openThree (Grid b) p row col dir) /\
  hasDoubleThree ai b row col = Ret (2 <=? axesWith (openThreeAxis (Grid b) p row col)) /\
  hasOpenThree ai b row col = Ret (1 <=? axesWith (openThreeAxis (Grid b) p row col)).
Proof.
  intros Hok Hv Hget Hp. split; [|split; [|split]].
  - intros dir. apply doubleThreeAxis_openThreeAxis.
  - intros dir. by apply openThreeAxis_openThree.
  - unfold hasDoubleThree. rewrite Hget. f_equal.
    rewrite threeCount_axesWith.
    rewrite Z.geb_leb. f_equal. unfold axesWith. f_equal. f_equal.
    apply list_filter_iff. intros dir. by rewrite doubleThreeAxis_openThreeAxis.
  - unfold hasOpenThree. rewrite Hget. f_equal. apply existsb_axesWith.
Qed.

Lemma hasDoubleThree_two_axes_witness :
  hasDoubleThree (mkAI White Hard) centre_stone_board 7 7 = Ret false.
Proof.
  destruct (hasDoubleThree_two_axes (mkAI White Hard) centre_stone_board 7 7 Black)
    as (_ & _ & H & _); [reflexivity|reflexivity|reflexivity|discriminate|].
  rewrite H. reflexivity.
Defined.

(** ** Bounds on the scores *)

Lemma foldl_invariant {A B} (P : A -> Prop) (f : A -> B -> A) (l : list B) : forall a,
  P a -> (forall a x, P a -> P (f a x)) -> P (foldl f a l).
Proof. induction l as [|x l IH]; intros a Ha Hf; simpl; [done|]. apply IH; auto. Qed.

Lemma evaluateDirection_nonneg_any ai b row col dRow dCol :
  0 <= evaluateDirection ai b row col dRow dCol.
Proof.
  unfold evaluateDirection.
  assert (H : 0 <= myCount (foldl (dirStep ai (Grid b) row col dRow dCol)
                                  (mkDirVars 0 0 0 0 0 0 0) (rangeIncl (-4) 4)) /\
              0 <= empty (foldl (dirStep ai (Grid b) row col dRow dCol)
                                (mkDirVars 0 0 0 0 0 0 0) (rangeIncl (-4) 4))).
  { apply (foldl_invariant (fun v => 0 <= myCount v /\ 0 <= empty v)); [simpl; lia|].
    intros v i [H1 H2]. unfold dirStep.
    repeat match goal with |- context [if ?t then _ else _] => destruct t end;
      simpl; lia. }
  destruct H as [H1 H2]. unfold dirScore.
  repeat match goal with |- context [if ?t then _ else _] => destruct t end; lia.
Qed.

Lemma manhattan_nonneg a b : 0 <= manhattan a b.
Proof. unfold manhattan. lia. Qed.

Lemma positionValue_lower ai b row col :
  isValidPosition row col = true ->
  history_ok (MoveHistory b) = true ->
  -280 <= positionValue ai b row col.
Proof.
  intros [Hr Hc]%isValidPosition_spec Hh. unfold positionValue.
  destruct (winsAt b row col (player ai)); [lia|].
  destruct (winsAt b row col (getOpponent ai)); [lia|].
  unfold baseScore, directions. cbn [foldl fst snd].
  pose proof (evaluateDirection_nonneg_any ai b row col 1 0).
  pose proof (evaluateDirection_nonneg_any ai b row col 0 1).
  pose proof (evaluateDirection_nonneg_any ai b row col 1 1).
  pose proof (evaluateDirection_nonneg_any ai b row col 1 (-1)).
  change (BoardSize `quot` 2) with 7. unfold BoardSize in *.
  destruct (last (MoveHistory b)) as [m|] eqn:Hlast.
  - apply (history_ok_last _ _ Hh) in Hlast as [Hm1 Hm2]%isValidPosition_spec.
    unfold manhattan, BoardSize in *. lia.
  - unfold manhattan. lia.
Qed.

Lemma evaluatePositionMedium_run ai row col b :
  grid_get (Grid b) row col = Some Empty ->
  exists score,
    evaluatePositionMedium ai row col b = (Ret score, b) /\
    positionValue ai b row col <= score.
Proof.
  intros Hget. unfold evaluatePositionMedium.
  rewrite (bind_run_ret _ _ _ _ _ (evaluatePosition_run ai row col b Hget)).
  destruct (speculate_set b row col (player ai) Hget) as (gm & _ & Hgm & Hwm & Hbm).
  destruct (speculate_set b row col (getOpponent ai) Hget) as (go & _ & Hgo & Hwo & Hbo).
  rewrite (bind_run_ret _ _ _ _ _ Hwm).
  destruct (hasOpenFour_Ret ai (set_Grid gm b) row col _ Hgm) as [f1 Hf1].
  destruct (hasOpenThree_Ret ai (set_Grid gm b) row col _ Hgm) as [t1 Ht1].
  destruct (hasOpenFour_Ret ai (set_Grid go b) row col _ Hgo) as [f2 Hf2].
  destruct (hasOpenThree_Ret ai (set_Grid go b) row col _ Hgo) as [t2 Ht2].
  rewrite bind_run. unfold query at 1. rewrite Hf1.
  rewrite bind_run. unfold query at 1. rewrite Ht1.
  rewrite (bind_run_ret _ _ _ _ _ Hbm).
  rewrite (bind_run_ret _ _ _ _ _ Hwo).
  rewrite bind_run. unfold query at 1. rewrite Hf2.
  rewrite bind_run. unfold query at 1. rewrite Ht2.
  rewrite (bind_run_ret _ _ _ _ _ Hbo).
  eexists. split; [reflexivity|].
  destruct f1, t1, f2, t2; lia.
Qed.

Lemma nearbyStones_nonneg g row col : 0 <= nearbyStones g row col.
Proof.
  unfold nearbyStones. apply (foldl_invariant (fun n => 0 <= n)); [lia|].
  intros n i Hn. apply (foldl_invariant (fun n => 0 <= n)); [done|].
  intros n' j Hn'.
  repeat match goal with |- context [if ?t then _ else _] => destruct t end; lia.
Qed.

Lemma evaluatePositionHard_run ai row col b :
  grid_get (Grid b) row col = Some Empty ->
  exists score,
    evaluatePositionHard ai row col b = (Ret score, b) /\
    forall bound, 0 <= bound ->
      - bound <= positionValue ai b row col
                 - manhattan (row - BoardSize `quot` 2) (col - BoardSize `quot` 2) * 15 ->
      - bound <= score.
Proof.
  intros Hget. unfold evaluatePositionHard.
  rewrite (bind_run_ret _ _ _ _ _ (evaluatePosition_run ai row col b Hget)).
  destruct (speculate_set b row col (player ai) Hget) as (gm & _ & Hgm & Hwm & Hbm).
  destruct (speculate_set b row col (getOpponent ai) Hget) as (go & _ & Hgo & Hwo & Hbo).
  rewrite (bind_run_ret _ _ _ _ _ Hwm).
  destruct (hasOpenFour_Ret ai (set_Grid gm b) row col _ Hgm) as [f1 Hf1].
  destruct (hasDoubleThree_Ret ai (set_Grid gm b) row col _ Hgm) as [d1 Hd1].
  destruct (hasOpenThree_Ret ai (set_Grid gm b) row col _ Hgm) as [t1 Ht1].
  destruct (hasOpenFour_Ret ai (set_Grid go b) row col _ Hgo) as [f2 Hf2].
  destruct (hasDoubleThree_Ret ai (set_Grid go b) row col _ Hgo) as [d2 Hd2].
  destruct (hasOpenThree_Ret ai (set_Grid go b) row col _ Hgo) as [t2 Ht2].
  rewrite bind_run. unfold query at 1. rewrite Hf1.
  rewrite bind_run. unfold query at 1. rewrite Hd1.
  rewrite bind_run. unfold query at 1. rewrite Ht1.
  rewrite (bind_run_ret _ _ _ _ _ Hbm).
  rewrite (bind_run_ret _ _ _ _ _ Hwo).
  rewrite bind_run. unfold query at 1. rewrite Hf2.
  rewrite bind_run. unfold query at 1. rewrite Hd2.
  rewrite bind_run. unfold query at 1. rewrite Ht2.
  rewrite (bind_run_ret _ _ _ _ _ Hbo).
  rewrite bind_run. unfold gets at 1.
  eexists. split; [reflexivity|].
  intros bound Hb Hlow.
  pose proof (nearbyStones_nonneg (Grid b) row col) as Hnear.
  set (pv := positionValue ai b row col) in *.
  set (cd := manhattan _ _) in *.
  set (near := nearbyStones _ _ _) in *.
  assert (Hq : forall x, - bound <= x -> - bound <= x `quot` 2).
  { intros x Hx. destruct (Z.le_gt_cases 0 x) as [Hpos|Hneg].
    - pose proof (Z.quot_pos x 2 Hpos). lia.
    - pose proof (Z.quot_le_lower_bound (- x) 2 0). 
      assert (x `quot` 2 = - ((- x) `quot` 2)) as -> by (rewrite Z.quot_opp_l; lia).
      pose proof (Z.quot_le_upper_bound (- x) 2 (- x)). 
      assert ((- x) `quot` 2 <= - x); [|lia].
      apply Z.quot_le_upper_bound; lia. }
  destruct f1, d1, t1, f2, d2, t2;
    match goal with |- context [if ?t then _ else _] => destruct t end;
    try apply Hq; lia.
Qed.

(** ** The strategies *)

(** Step 7 of the Medium and Hard strategies leaves the board as it was, and
    returns an empty cell whenever there is one, provided (condition [H])
    every score exceeds [MinInt32]. *)
Lemma bestScoreMove_spec b0 (eval : Z -> Z -> M Z) (H : Prop) :
  (forall i j, emptyCell b0 (i, j) ->
     exists score, eval i j b0 = (Ret score, b0) /\ (H -> MinInt32 < score)) ->
  triple (eq b0) (bestScoreMove eval)
         (fun r b => b = b0 /\ (H -> emptyCell b0 r \/ r = noMove /\ boardFull b0))
         (fun b => b = b0 /\ grid_ok (Grid b0) = false).
Proof.
  intros Heval.
  set (E := fun b => b = b0 /\ grid_ok (Grid b0) = false).
  set (Irow := fun (rows : list Z) (best : Z * (Z * Z)) b => b = b0 /\ (H ->
         best = (MinInt32, noMove) /\
            (forall i j, i ∈ rows -> j ∈ range 0 BoardSize ->
                         grid_get (Grid b0) i j <> Some Empty)
          \/ emptyCell b0 best.2)).
  set (cellBody := fun i (best : Z * (Z * Z)) j =>
         p ← readGrid i j;
         if Player_eqb p Empty then
           score ← eval i j;
           if score >? best.1 then mret (score, (i, j)) else mret best
         else mret best).
  set (rowBody := fun (best : Z * (Z * Z)) i =>
         foldM (range 0 BoardSize) best (cellBody i)).
  assert (Hrow : forall rows i best, i ∈ range 0 BoardSize ->
    triple (Irow rows best) (rowBody best i) (Irow (rows ++ [i])) E).
  { intros rows i best Hi.
    set (Icol := fun (cols : list Z) (best : Z * (Z * Z)) b => b = b0 /\ (H ->
            best = (MinInt32, noMove) /\
              (forall i' j, i' ∈ rows -> j ∈ range 0 BoardSize ->
                            grid_get (Grid b0) i' j <> Some Empty) /\
              (forall j, j ∈ cols -> grid_get (Grid b0) i j <> Some Empty)
            \/ emptyCell b0 best.2)).
    pose proof (triple_foldM_visited Icol (cellBody i) E (range 0 BoardSize) [] best)
      as Hloop.
    eapply triple_conseq; [apply Hloop| | |intros b Hb; exact Hb].
    - intros cols j post best' Hsplit. simpl.
      assert (Hj : j ∈ range 0 BoardSize)
        by (rewrite Hsplit; apply elem_of_app; right; apply elem_of_cons; by left).
      intros b [-> Hinv]. unfold cellBody.
      rewrite bind_run. unfold readGrid at 1.
      destruct (grid_get (Grid b0) i j) as [q|] eqn:Hget;
        [|unfold E; split; [done|apply (grid_get_None_not_ok _ i j); [by apply range_valid|done]]].
      destruct (Player_eqb q Empty) eqn:Hq.
      + apply Player_eqb_eq in Hq as ->.
        assert (Hcell : emptyCell b0 (i, j)) by (split; [by apply range_valid|done]).
        destruct (Heval i j Hcell) as (score & Hrun & Hscore).
        rewrite (bind_run_ret _ _ _ _ _ Hrun).
        destruct (Z.gtb_spec score best'.1) as [Hgt|Hle]; simpl.
        * split; [done|]. intros _. by right.
        * split; [done|]. intros HH. specialize (Hinv HH). specialize (Hscore HH). right.
          destruct Hinv as [(-> & _)|Hbest]; [simpl in Hle; lia|done].
      + apply Player_eqb_neq in Hq. simpl. split; [done|].
        intros HH. specialize (Hinv HH).
        destruct Hinv as [(-> & Hrows & Hcols)|Hbest]; [left|by right].
        split; [done|]. split; [done|].
        intros j' [Hj'| ->%list_elem_of_singleton]%elem_of_app; [by apply Hcols|].
        congruence.
    - intros b [-> Hinv]. split; [done|]. intros HH. specialize (Hinv HH).
      destruct Hinv as [(-> & Hrows)|Hbest]; [left|by right].
      split; [done|]. split; [done|]. intros j Hj. by apply elem_of_nil in Hj.
    - intros best' b [-> Hinv]. split; [done|]. simpl in Hinv.
      intros HH. specialize (Hinv HH).
      destruct Hinv as [(-> & Hrows & Hcols)|Hbest]; [left|by right].
      split; [done|].
      intros i' j [Hi'| ->%list_elem_of_singleton]%elem_of_app Hj; [by apply Hrows|].
      by apply Hcols. }
  unfold bestScoreMove. eapply triple_bind.
  - pose proof (triple_foldM_visited Irow rowBody E (range 0 BoardSize) []
                  (MinInt32, noMove)) as Hloop.
    eapply triple_conseq; [apply Hloop| |intros a b Hb; exact Hb|intros b Hb; exact Hb].
    + intros rows i post best Hsplit. simpl. apply Hrow.
      rewrite Hsplit. apply elem_of_app. right. apply elem_of_cons. by left.
    + intros b <-. split; [done|]. intros _. left. split; [done|].
      intros i j Hi. by apply elem_of_nil in Hi.
  - intros best. apply triple_ret. simpl. intros b [-> Hinv]. split; [done|].
    intros HH. specialize (Hinv HH).
    destruct Hinv as [(-> & Hall)|Hbest]; [right|by left].
    split; [done|].
    intros r c [Hr Hc]%isValidPosition_spec. apply Hall; apply elem_of_range; lia.
Qed.

Lemma candidateWeight_run ai lastRow lastCol i j b :
  grid_get (Grid b) i j = Some Empty ->
  exists weight, candidateWeight ai lastRow lastCol i j b = (Ret weight, b).
Proof.
  intros Hget. unfold candidateWeight.
  rewrite (bind_run_ret _ _ _ _ _ (evaluatePosition_run ai i j b Hget)).
  rewrite bind_run. unfold gets at 1.
  match goal with |- context [foldl ?f ?a ?l] => destruct (foldl f a l) as [near w] end.
  eexists. reflexivity.
Qed.

(** Step 5 of [makeEasyMove], on a range inside the board: every move
    collected is an empty cell, and the board is as before. *)
Lemma collectMoves_spec ai b0 minRow maxRow minCol maxCol lastRow lastCol :
  0 <= minRow -> maxRow < BoardSize -> 0 <= minCol -> maxCol < BoardSize ->
  triple (eq b0) (collectMoves ai minRow maxRow minCol maxCol lastRow lastCol)
         (fun moves b => b = b0 /\
            Forall (fun m => emptyCell b0 (mw_row m, mw_col m)) moves)
         (fun b => b = b0 /\ grid_ok (Grid b0) = false).
Proof.
  intros Hr1 Hr2 Hc1 Hc2. unfold collectMoves.
  set (I := fun (moves : list moveWithWeight) b => b = b0 /\
         Forall (fun m => emptyCell b0 (mw_row m, mw_col m)) moves).
  eapply triple_conseq;
    [apply (triple_foldM I) with (s := [])
    | | intros a b Hb; exact Hb | intros b Hb; exact Hb].
  - intros moves i Hi%elem_of_rangeIncl. apply (triple_foldM I).
    intros moves' j Hj%elem_of_rangeIncl b [-> Hall].
    assert (Hv : isValidPosition i j = true) by (apply isValidPosition_spec; lia).
    rewrite bind_run. unfold readGrid at 1.
    destruct (grid_get (Grid b0) i j) as [q|] eqn:Hget;
      [|split; [done|by apply (grid_get_None_not_ok _ i j)]].
    destruct (Player_eqb q Empty) eqn:Hq; [|by split].
    apply Player_eqb_eq in Hq as ->.
    destruct (candidateWeight_run ai lastRow lastCol i j b0 Hget) as [w Hw].
    rewrite (bind_run_ret _ _ _ _ _ Hw). simpl. split; [done|].
    apply Forall_app. split; [done|]. apply Forall_singleton. by split.
  - intros b <-. split; [done|]. apply Forall_nil_2.
Qed.

Lemma clamp_bounds a b :
  0 <= max 2 a /\ min (BoardSize - 3) b < BoardSize.
Proof. unfold max, min, BoardSize. split; [destruct (2 >? a) eqn:?|destruct (15 - 3 <? b) eqn:?]; lia. Qed.

Lemma candidateMoves_spec ai b0 s :
  triple (eq b0) (candidateMoves ai s)
         (fun moves b => b = b0 /\
            Forall (fun m => emptyCell b0 (mw_row m, mw_col m)) moves)
         (fun b => b = b0 /\ grid_ok (Grid b0) = false).
Proof.
  unfold candidateMoves. intros b <-.
  rewrite bind_run. unfold gets at 1.
  assert (Hlast : exists lastMove,
    (if (0 <? length (MoveHistory b0))%nat
     then match last (MoveHistory b0) with
          | Some lastMove => mret lastMove
          | None => panic
          end
     else mret (BoardSize `quot` 2, BoardSize `quot` 2)) b0 = (Ret lastMove, b0)).
  { destruct (MoveHistory b0) as [|m h] eqn:Hh; [by eexists|].
    destruct (last (m :: h)) as [lastMove|] eqn:Hl; [by eexists|].
    by apply last_None in Hl. }
  destruct Hlast as [lastMove Hlast].
  rewrite (bind_run_ret _ _ _ _ _ Hlast).
  pose proof (clamp_bounds (minRow s - 2) (maxRow s + 2)) as [Hr1 Hr2].
  pose proof (clamp_bounds (minCol s - 2) (maxCol s + 2)) as [Hc1 Hc2].
  by apply (collectMoves_spec ai b0 _ _ _ _ lastMove.1 lastMove.2 Hr1 Hr2 Hc1 Hc2).
Qed.

(** *** The weighted draw *)

Lemma totalWeight_foldl (moves : list moveWithWeight) : forall a,
  foldl (fun total move => total + mw_weight move) a moves
  = a + sumOver mw_weight moves.
Proof.
  induction moves as [|m moves IH]; intros a; simpl; [lia|]. rewrite IH. lia.
Qed.

Lemma pickMove_Some (moves : list moveWithWeight) : forall current random,
  current <= random -> random < current + sumOver mw_weight moves ->
  exists m, m ∈ moves /\ pickMove moves current random = Some (mw_row m, mw_col m).
Proof.
  induction moves as [|m moves IH]; intros current random Hle Hlt; simpl in *; [lia|].
  destruct (Z.gtb_spec (current + mw_weight m) random) as [Hgt|Hngt].
  - exists m. split; [by left|done].
  - destruct (IH (current + mw_weight m) random) as (m' & Hin & Hpick); [lia|lia|].
    exists m'. split; [by right|done].
Qed.

(** The draw is defined exactly when the weights sum to a positive number,
    and it then returns one of the moves. *)
Lemma selectMove_run rnd (moves : list moveWithWeight) b :
  (0 < totalWeight moves ->
     exists m, m ∈ moves /\ selectMove rnd moves b = (Ret (mw_row m, mw_col m), b)) /\
  (totalWeight moves <= 0 -> selectMove rnd moves b = (Panic, b)).
Proof.
  unfold selectMove, rand_Intn. split; intros Htotal.
  - replace (totalWeight moves <=? 0) with false by lia.
    rewrite bind_run. unfold mret at 1, M_ret.
    pose proof (Z.mod_pos_bound (rnd (totalWeight moves)) (totalWeight moves) Htotal) as Hr.
    destruct (pickMove_Some moves 0 (rnd (totalWeight moves) `mod` totalWeight moves))
      as (m & Hin & ->); [lia| |by eauto].
    unfold totalWeight in *. rewrite totalWeight_foldl in *. lia.
  - replace (totalWeight moves <=? 0) with true by lia. done.
Qed.

(** *** The range of the stones *)

Lemma rangeStep_cols g i (cols : list Z) : forall s,
  hasStones (foldl (rangeStep g i) s cols) = false ->
  hasStones s = false /\ forall j, j ∈ cols -> cell g i j = Empty.
Proof.
  induction cols as [|j cols IH]; intros s Hs; simpl in *.
  - split; [done|]. intros j Hj. by apply elem_of_nil in Hj.
  - apply IH in Hs as [Hstep Hcols]. unfold rangeStep in Hstep.
    destruct (Player_eqb (cell g i j) Empty) eqn:Hq; simpl in Hstep; [|done].
    apply Player_eqb_eq in Hq. split; [done|].
    intros j' [->|Hj']%elem_of_cons; [done|by apply Hcols].
Qed.

Lemma rangeStep_rows g (rows cols : list Z) : forall s,
  hasStones (foldl (fun s i => foldl (rangeStep g i) s cols) s rows) = false ->
  hasStones s = false /\ forall i j, i ∈ rows -> j ∈ cols -> cell g i j = Empty.
Proof.
  induction rows as [|i rows IH]; intros s Hs; simpl in *.
  - split; [done|]. intros i j Hi. by apply elem_of_nil in Hi.
  - apply IH in Hs as [Hstep Hrows]. apply rangeStep_cols in Hstep as [Hs Hcols].
    split; [done|].
    intros i' j [->|Hi']%elem_of_cons Hj; [by apply Hcols|by apply Hrows].
Qed.

Lemma findRange_unfold g :
  findRange g = foldl (fun s i => foldl (rangeStep g i) s (range 0 BoardSize))
        (mkRange (BoardSize - 1) 0 (BoardSize - 1) 0 false)
        (range 0 BoardSize).
Proof. unfold findRange. reflexivity. Qed.

(** When the scan finds no stone, every cell of the board is empty. *)
Lemma findRange_no_stones g i j :
  hasStones (findRange g) = false -> isValidPosition i j = true -> cell g i j = Empty.
Proof.
  intros Hs [Hi Hj]%isValidPosition_spec.
  rewrite findRange_unfold in Hs.
  apply rangeStep_rows in Hs as [_ Hall].
  apply Hall.
  - apply elem_of_range. lia.
  - apply elem_of_range. lia.
Qed.

(** *** The cascades *)

Lemma emptyCell_nonneg b m : emptyCell b m -> (m.1 >=? 0) = true.
Proof. intros [[Hr _]%isValidPosition_spec _]. lia. Qed.

(** One step of a cascade: a scan, whose move is returned when there is one. *)
Lemma cascade_step b0 (find rest : M (Z * Z)) (C X : Prop) :
  scanSpec b0 find ->
  (grid_ok (Grid b0) = false -> X) ->
  triple (eq b0) rest (fun r b => b = b0 /\ (C -> moveSpec b0 r)) (fun b => b = b0 /\ X) ->
  triple (eq b0) (move ← find; if move.1 >=? 0 then mret move else rest)
         (fun r b => b = b0 /\ (C -> moveSpec b0 r)) (fun b => b = b0 /\ X).
Proof.
  intros Hfind HX Hrest b <-. rewrite bind_run.
  specialize (Hfind b0 eq_refl). destruct (find b0) as [[r|] b'].
  - destruct Hfind as [-> [->|Hcell]]; simpl.
    + by apply Hrest.
    + rewrite (emptyCell_nonneg _ _ Hcell). split; [done|]. intros _. by left.
  - destruct Hfind as [-> Hok]. auto.
Qed.

Lemma drawUndefined_not_full ai b0 : drawUndefined ai b0 -> boardFull b0 -> False.
Proof.
  intros (moves & Hrun & Hne & _) Hfull.
  pose proof (candidateMoves_spec ai b0 (findRange (Grid b0)) b0 eq_refl) as Hspec.
  rewrite Hrun in Hspec. destruct Hspec as [_ Hall].
  destruct moves as [|m moves]; [done|].
  apply Forall_cons in Hall as [[Hv Hget] _]. by apply (Hfull _ _ Hv).
Qed.

(** The Easy strategy: the board is left as it was; on a well-formed grid
    the move is an empty cell, or [noMove] on a full board; it panics only on
    a malformed grid or at the draw. *)
Lemma makeEasyMove_spec rnd ai b0 :
  triple (eq b0) (makeEasyMove rnd ai)
         (fun r b => b = b0 /\ (grid_ok (Grid b0) = true -> moveSpec b0 r))
         (fun b => b = b0 /\ (grid_ok (Grid b0) = false \/ drawUndefined ai b0)).
Proof.
  unfold makeEasyMove.
  apply cascade_step; [apply findWinningMove_spec|by left|].
  apply cascade_step; [apply findWinningMove_spec|by left|].
  apply cascade_step; [apply findThreatsMove_spec|by left|].
  intros b <-. rename b0 into b. rewrite bind_run. unfold gets at 1.
  destruct (hasStones (findRange (Grid b))) eqn:Hs; simpl.
  - pose proof (candidateMoves_spec ai b (findRange (Grid b)) b eq_refl) as Hspec.
    rewrite bind_run.
    destruct (candidateMoves ai (findRange (Grid b)) b) as [[moves|] b'] eqn:Hrun;
      [|destruct Hspec as [-> Hok]; by auto].
    destruct Hspec as [-> Hall].
    destruct moves as [|m moves]; simpl.
    + pose proof (firstEmpty_spec b b eq_refl) as Hfirst.
      destruct (firstEmpty b) as [[r|] b'']; destruct Hfirst as [-> H]; auto.
    + destruct (selectMove_run rnd (m :: moves) b) as [Hpos Hneg].
      destruct (Z.lt_ge_cases 0 (totalWeight (m :: moves))) as [Hlt|Hge].
      * destruct (Hpos Hlt) as (m' & Hin & ->). split; [done|]. intros _. left.
        by apply (proj1 (Forall_forall _ _) Hall).
      * rewrite (Hneg Hge). split; [done|]. right. exists (m :: moves). by repeat split.
  - unfold mret, M_ret. split; [done|]. intros Hok. left.
    change (BoardSize `quot` 2) with 7.
    assert (Hv : isValidPosition 7 7 = true) by reflexivity.
    split; [done|]. simpl.
    destruct (grid_get_valid _ _ _ Hok Hv) as [p Hp]. rewrite Hp. f_equal.
    rewrite <- (cell_get _ _ _ _ Hp). by apply findRange_no_stones.
Qed.

Lemma board_ok_grid b : board_ok b = true -> grid_ok (Grid b) = true.
Proof. unfold board_ok. by intros [? ?]%andb_true_iff. Qed.

Lemma board_ok_history b : board_ok b = true -> history_ok (MoveHistory b) = true.
Proof. unfold board_ok. by intros [? ?]%andb_true_iff. Qed.

Lemma grid_not_ok_board b : grid_ok (Grid b) = false -> board_ok b = false.
Proof. unfold board_ok. by intros ->. Qed.

Lemma not_emptyCell_negative b m : (m.1 >=? 0) = false -> ~ emptyCell b m.
Proof. intros Hneg Hcell. by rewrite (emptyCell_nonneg _ _ Hcell) in Hneg. Qed.

(** The end of a cascade: the best-scored move, or the weaker strategy when
    there is none. *)
Lemma cascade_best b0 (eval : Z -> Z -> M Z) (fallback : M (Z * Z)) (X : Prop) :
  (forall i j, emptyCell b0 (i, j) ->
     exists score, eval i j b0 = (Ret score, b0) /\
                   (history_ok (MoveHistory b0) = true -> MinInt32 < score)) ->
  triple (eq b0) fallback
         (fun r b => b = b0 /\ (board_ok b0 = true -> moveSpec b0 r))
         (fun b => b = b0 /\ (board_ok b0 = false \/ X)) ->
  (X -> boardFull b0 -> False) ->
  triple (eq b0)
         (bestMove ← bestScoreMove eval;
          if bestMove.1 >=? 0 then mret bestMove else fallback)
         (fun r b => b = b0 /\ (board_ok b0 = true -> moveSpec b0 r))
         (fun b => b = b0 /\ board_ok b0 = false).
Proof.
  intros Heval Hfall HX b <-. rewrite bind_run.
  pose proof (bestScoreMove_spec b0 eval _ Heval b0 eq_refl) as Hbest.
  destruct (bestScoreMove eval b0) as [[r|] b'];
    [|destruct Hbest as [-> Hok]; split; [done|by apply grid_not_ok_board]].
  destruct Hbest as [-> Hbest].
  destruct (r.1 >=? 0) eqn:Hr.
  - split; [done|]. intros Hok. apply Hbest. by apply board_ok_history.
  - specialize (Hfall b0 eq_refl).
    destruct (fallback b0) as [[r'|] b'].
    + destruct Hfall as [-> Hfall]. by split.
    + destruct Hfall as [-> [Hbad|HX']]; [done|]. split; [done|].
      destruct (board_ok b0) eqn:Hok; [exfalso|done].
      destruct (Hbest (board_ok_history _ Hok)) as [Hcell|[_ Hfull]].
      * by apply (not_emptyCell_negative b0 r).
      * by apply HX.
Qed.

Lemma evalMedium_scores ai b0 i j :
  emptyCell b0 (i, j) ->
  exists score, evaluatePositionMedium ai i j b0 = (Ret score, b0) /\
                (history_ok (MoveHistory b0) = true -> MinInt32 < score).
Proof.
  intros [Hv Hget]. simpl in *.
  destruct (evaluatePositionMedium_run ai i j b0 Hget) as (score & Hrun & Hle).
  exists score. split; [done|]. intros Hh.
  pose proof (positionValue_lower ai b0 i j Hv Hh). unfold MinInt32. lia.
Qed.

Lemma evalHard_scores ai b0 i j :
  emptyCell b0 (i, j) ->
  exists score, evaluatePositionHard ai i j b0 = (Ret score, b0) /\
                (history_ok (MoveHistory b0) = true -> MinInt32 < score).
Proof.
  intros [Hv Hget]. simpl in *.
  destruct (evaluatePositionHard_run ai i j b0 Hget) as (score & Hrun & Hlow).
  exists score. split; [done|]. intros Hh.
  pose proof (positionValue_lower ai b0 i j Hv Hh) as Hpv.
  apply isValidPosition_spec in Hv as [Hi Hj].
  assert (- 490 <= score); [|unfold MinInt32; lia].
  apply (Hlow 490); [lia|]. change (BoardSize `quot` 2) with 7.
  unfold manhattan, BoardSize in *. lia.
Qed.

(** The Medium strategy: the board is left as it was; on a well-formed
    board it returns, an empty cell, or [noMove] on a full board. *)
Lemma makeMediumMove_spec rnd ai b0 :
  triple (eq b0) (makeMediumMove rnd ai)
         (fun r b => b = b0 /\ (board_ok b0 = true -> moveSpec b0 r))
         (fun b => b = b0 /\ board_ok b0 = false).
Proof.
  unfold makeMediumMove.
  apply cascade_step; [apply findWinningMove_spec|apply grid_not_ok_board|].
  apply cascade_step; [apply findWinningMove_spec|apply grid_not_ok_board|].
  apply cascade_step; [apply findOpenFourMove_spec|apply grid_not_ok_board|].
  apply cascade_step; [apply findOpenFourMove_spec|apply grid_not_ok_board|].
  apply cascade_step; [apply findOpenThreeMove_spec|apply grid_not_ok_board|].
  apply cascade_step; [apply findThreatsMove_spec|apply grid_not_ok_board|].
  apply (cascade_best b0 _ _ (drawUndefined ai b0)).
  - intros i j. apply evalMedium_scores.
  - eapply triple_conseq; [apply makeEasyMove_spec|done| |].
    + intros r b [-> Hr]. split; [done|]. intros Hok. by apply Hr, board_ok_grid.
    + intros b [-> [Hbad|Hdraw]]; (split; [done|]);
        [left; by apply grid_not_ok_board|by right].
  - apply drawUndefined_not_full.
Qed.

(** The Hard strategy, likewise. *)
Lemma makeHardMove_spec rnd ai b0 :
  triple (eq b0) (makeHardMove rnd ai)
         (fun r b => b = b0 /\ (board_ok b0 = true -> moveSpec b0 r))
         (fun b => b = b0 /\ board_ok b0 = false).
Proof.
  unfold makeHardMove.
  apply cascade_step; [apply findWinningMove_spec|apply grid_not_ok_board|].
  apply cascade_step; [apply findWinningMove_spec|apply grid_not_ok_board|].
  apply cascade_step; [apply findAdvancedThreatMove_spec|apply grid_not_ok_board|].
  apply cascade_step; [apply findAdvancedThreatMove_spec|apply grid_not_ok_board|].
  apply cascade_step; [apply findOpenThreeMove_spec|apply grid_not_ok_board|].
  apply cascade_step; [apply findOpenThreeMove_spec|apply grid_not_ok_board|].
  apply (cascade_best b0 _ _ False).
  - intros i j. apply evalHard_scores.
  - eapply triple_conseq; [apply makeMediumMove_spec|done|done|].
    intros b [-> Hbad]. split; [done|by left].
  - done.
Qed.

(** [MakeMove]: the board is left as it was; on a well-formed board the move
    is an empty cell, or [noMove] on a full board; on a well-formed board
    only the Easy strategy can panic, and only at its draw. *)
Lemma MakeMove_spec rnd ai b0 :
  triple (eq b0) (MakeMove rnd ai)
         (fun r b => b = b0 /\ (board_ok b0 = true -> moveSpec b0 r))
         (fun b => b = b0 /\
            (board_ok b0 = false \/ difficulty ai = Easy /\ drawUndefined ai b0)).
Proof.
  unfold MakeMove. destruct (difficulty ai) eqn:Hd.
  - eapply triple_conseq; [apply makeEasyMove_spec|done| |].
    + intros r b [-> Hr]. split; [done|]. intros Hok. by apply Hr, board_ok_grid.
    + intros b [-> [Hbad|Hdraw]]; (split; [done|]);
        [left; by apply grid_not_ok_board|by right].
  - eapply triple_conseq; [apply makeMediumMove_spec|done|done|].
    intros b [-> Hbad]. split; [done|by left].
  - eapply triple_conseq; [apply makeHardMove_spec|done|done|].
    intros b [-> Hbad]. split; [done|by left].
Qed.

(** C3.  Whatever the board, the difficulty, the agent's colour and the
    outcome of the random draw, [MakeMove] leaves the board exactly as it
    found it: grid, turn, history and flag (also when the call does not
    return).  So does each scan that places stones speculatively, and so does
    each scoring function on an empty cell, where the strategies call it. *)
Theorem MakeMove_leaves_board rnd ai b :
  (MakeMove rnd ai b).2 = b /\
  (forall p, (findWinningMove ai p b).2 = b /\ (findOpenFourMove ai p b).2 = b /\
             (findOpenThreeMove ai p b).2 = b /\ (findAdvancedThreatMove ai p b).2 = b) /\
  (forall row col, grid_get (Grid b) row col = Some Empty ->
     (evaluatePosition ai row col b).2 = b /\
     (evaluatePositionMedium ai row col b).2 = b /\
     (evaluatePositionHard ai row col b).2 = b).
Proof.
  assert (Hscan : forall m, scanSpec b m -> (m b).2 = b).
  { intros m Hm. specialize (Hm b eq_refl).
    destruct (m b) as [[r|] b']; by destruct Hm as [-> _]. }
  split; [|split].
  - pose proof (MakeMove_spec rnd ai b b eq_refl) as Hspec.
    destruct (MakeMove rnd ai b) as [[r|] b']; by destruct Hspec as [-> _].
  - intros p. repeat split; apply Hscan.
    + apply findWinningMove_spec.
    + apply findOpenFourMove_spec.
    + apply findOpenThreeMove_spec.
    + apply findAdvancedThreatMove_spec.
  - intros row col Hget. repeat split.
    + by rewrite evaluatePosition_run.
    + by destruct (evaluatePositionMedium_run ai row col b Hget) as (score & -> & _).
    + by destruct (evaluatePositionHard_run ai row col b Hget) as (score & -> & _).
Qed.

Lemma MakeMove_leaves_board_witness :
  (MakeMove (fun _ => 0) (mkAI White Hard) centre_stone_board).2 = centre_stone_board /\
  (evaluatePosition (mkAI White Hard) 7 8 centre_stone_board).2 = centre_stone_board.
Proof.
  destruct (MakeMove_leaves_board (fun _ => 0) (mkAI White Hard) centre_stone_board)
    as (Hmove & _ & Heval).
  split; [exact Hmove|]. apply Heval. reflexivity.
Defined.

(** ** The weighted draw of the Easy strategy *)





(** ** What [MakeMove] returns *)


(** ** The order of the scans *)

Lemma seqZ_split m n (pre : list Z) x post :
  seqZ m n = pre ++ x :: post ->
  x = m + Z.of_nat (length pre) /\ forall y, y ∈ pre <-> m <= y < x.
Proof.
  intros Hsplit.
  assert (Hx : seqZ m n !! length pre = Some x).
  { rewrite Hsplit. by rewrite list_lookup_middle. }
  apply lookup_seqZ in Hx as [Hx Hlt]. split; [done|].
  intros y. split.
  - intros [k Hk]%list_elem_of_lookup.
    assert (Hk' : seqZ m n !! k = Some y).
    { rewrite Hsplit. rewrite lookup_app_l; [done|]. by eapply lookup_lt_Some. }
    apply lookup_lt_Some in Hk. apply lookup_seqZ in Hk' as [-> _]. lia.
  - intros Hy. apply list_elem_of_lookup. exists (Z.to_nat (y - m)).
    assert (Hk' : seqZ m n !! Z.to_nat (y - m) = Some y).
    { apply lookup_seqZ. lia. }
    rewrite Hsplit in Hk'. rewrite lookup_app_l in Hk'; [done|lia].
Qed.

Lemma range_split lo hi (pre : list Z) x post :
  range lo hi = pre ++ x :: post ->
  lo <= x < hi /\ forall y, y ∈ pre <-> lo <= y < x.
Proof.
  intros Hsplit. pose proof Hsplit as [Hx Hpre]%seqZ_split. split; [|done].
  apply elem_of_range. rewrite Hsplit. apply elem_of_app. right. by left.
Qed.

(** Two nested loops over the board whose body returns the cell it stands on
    exactly when the cell satisfies [found]: the result is the first such
    cell in row-major order. *)
Lemma scan_order b0 (body : Z -> Z -> M (option (Z * Z))) (found : Z -> Z -> Prop) :
  (forall i j, isValidPosition i j = true ->
     triple (eq b0) (body i j)
            (fun r b => b = b0 /\
               match r with Some v => v = (i, j) /\ found i j | None => ~ found i j end)
            (fun b => b = b0 /\ grid_ok (Grid b0) = false)) ->
  triple (eq b0)
         (r ← forM (range 0 BoardSize) (fun i =>
                forM (range 0 BoardSize) (fun j => body i j));
          mret (default noMove r))
         (fun r b => b = b0 /\ firstFound found r)
         (fun b => b = b0 /\ grid_ok (Grid b0) = false).
Proof.
  intros Hbody.
  set (E := fun b => b = b0 /\ grid_ok (Grid b0) = false).
  set (Q := fun (v : Z * Z) b => b = b0 /\
         isValidPosition v.1 v.2 = true /\ found v.1 v.2 /\
         forall i j, isValidPosition i j = true -> before (i, j) v -> ~ found i j).
  set (Irow := fun (rows : list Z) b => b = b0 /\
         forall i j, i ∈ rows -> j ∈ range 0 BoardSize -> ~ found i j).
  set (inner := fun i => forM (range 0 BoardSize) (fun j => body i j)).
  assert (Hinner : forall rows i post, range 0 BoardSize = rows ++ i :: post ->
    triple (Irow rows) (inner i)
           (fun r b => match r with Some v => Q v b | None => Irow (rows ++ [i]) b end) E).
  { intros rows i post Hrows. pose proof Hrows as [Hi Hrows']%range_split.
    set (Icol := fun (cols : list Z) b => b = b0 /\
           (forall i' j, i' ∈ rows -> j ∈ range 0 BoardSize -> ~ found i' j) /\
           forall j, j ∈ cols -> ~ found i j).
    pose proof (triple_forM_visited Icol (fun j => body i j) Q E (range 0 BoardSize) [])
      as Hloop.
    eapply triple_conseq; [apply Hloop| | |intros b Hb; exact Hb].
    - intros cols j post' Hcols. simpl.
      pose proof Hcols as [Hj Hcols']%range_split.
      assert (Hv : isValidPosition i j = true) by (apply isValidPosition_spec; lia).
      intros b (-> & Hrs & Hcs).
      specialize (Hbody i j Hv b0 eq_refl).
      destruct (body i j b0) as [[[v|]|] b']; [| |done].
      + destruct Hbody as (-> & -> & Hfound). unfold Q. simpl.
        split; [done|]. split; [done|]. split; [done|].
        intros i' j' [Hi' Hj']%isValidPosition_spec [Hlt|[Heq Hlt]]; simpl in *.
        * apply Hrs; [apply Hrows'; lia|apply elem_of_range; lia].
        * subst i'. apply Hcs. apply Hcols'. lia.
      + destruct Hbody as [-> Hnot]. split; [done|]. split; [done|].
        intros j' [Hj'| ->%list_elem_of_singleton]%elem_of_app; [by apply Hcs|done].
    - intros b [-> Hrs]. split; [done|]. split; [done|].
      intros j Hj. by apply elem_of_nil in Hj.
    - intros [v|] b; [done|]. simpl. intros (-> & Hrs & Hcs). split; [done|].
      intros i' j [Hi'| ->%list_elem_of_singleton]%elem_of_app Hj; [by apply Hrs|].
      by apply Hcs. }
  eapply triple_bind.
  - pose proof (triple_forM_visited Irow inner Q E (range 0 BoardSize) []) as Hloop.
    eapply triple_conseq; [apply Hloop| |intros a b Hb; exact Hb|intros b Hb; exact Hb].
    + intros rows i post Hsplit. simpl. by eapply Hinner.
    + intros b <-. split; [done|]. intros i j Hi. by apply elem_of_nil in Hi.
  - intros [v|]; apply triple_ret; simpl.
    + intros b (-> & Hv & Hf & Hfirst). split; [done|]. left. done.
    + intros b [-> Hall]. split; [done|]. right. split; [done|].
      intros r c [Hr Hc]%isValidPosition_spec. apply Hall; apply elem_of_range; lia.
Qed.

(** The body shared by the scans that place a stone: read the cell, place
    the stone, ask the detector, take the stone back. *)
Lemma speculate_test b i j p (test : Board -> Z -> Z -> res bool) :
  grid_get (Grid b) i j = Some Empty ->
  (forall b1, grid_get (Grid b1) i j = Some p -> exists r, test b1 i j = Ret r) ->
  exists b1,
    writeGrid i j p b = (Ret tt, b1) /\
    test b1 i j = Ret (testAfter test b i j p) /\
    writeGrid i j Empty b1 = (Ret tt, b).
Proof.
  intros Hget Htest.
  destruct (speculate_set b i j p Hget) as (g1 & Hset & Hg1 & Hw & Hback).
  exists (set_Grid g1 b). split; [done|]. split; [|done].
  unfold testAfter. rewrite Hset.
  destruct (Htest (set_Grid g1 b) Hg1) as [r ->]. done.
Qed.

Lemma winsAt_testAfter b i j p : winsAt b i j p = testAfter CheckWin b i j p.
Proof. reflexivity. Qed.

Lemma findWinningMove_order ai p b0 :
  triple (eq b0) (findWinningMove ai p)
         (fun r b => b = b0 /\
            firstFound (emptyAnd b0 (fun i j => winsAt b0 i j p)) r)
         (fun b => b = b0 /\ grid_ok (Grid b0) = false).
Proof.
  apply scan_order. intros i j Hv b <-.
  rewrite bind_run. unfold readGrid at 1. unfold emptyAnd.
  destruct (grid_get (Grid b0) i j) as [q|] eqn:Hget;
    [|split; [done|by eapply grid_get_None_not_ok]].
  destruct (Player_eqb q Empty) eqn:Hq;
    [|apply Player_eqb_neq in Hq; split; [done|]; intros [? _]; congruence].
  apply Player_eqb_eq in Hq as ->.
  destruct (speculate_test b0 i j p CheckWin Hget) as (b1 & Hw & Ht & Hback);
    [intros b1 Hb1; by eapply CheckWin_Ret|].
  rewrite (bind_run_ret _ _ _ _ _ Hw).
  rewrite bind_run. unfold query at 1. rewrite Ht.
  change (winsAt b0 i j p) with (testAfter CheckWin b0 i j p).
  destruct (testAfter CheckWin b0 i j p); rewrite (bind_run_ret _ _ _ _ _ Hback); simpl.
  - by repeat split.
  - split; [done|]. by intros [_ ?].
Qed.

Lemma findOpenFourMove_order ai p b0 :
  triple (eq b0) (findOpenFourMove ai p)
         (fun r b => b = b0 /\
            firstFound (emptyAnd b0 (fun i j => testAfter (hasOpenFour ai) b0 i j p)) r)
         (fun b => b = b0 /\ grid_ok (Grid b0) = false).
Proof.
  apply scan_order. intros i j Hv b <-.
  rewrite bind_run. unfold readGrid at 1. unfold emptyAnd.
  destruct (grid_get (Grid b0) i j) as [q|] eqn:Hget;
    [|split; [done|by eapply grid_get_None_not_ok]].
  destruct (Player_eqb q Empty) eqn:Hq;
    [|apply Player_eqb_neq in Hq; split; [done|]; intros [? _]; congruence].
  apply Player_eqb_eq in Hq as ->. simpl.
  destruct (speculate_test b0 i j p (hasOpenFour ai) Hget) as (b1 & Hw & Ht & Hback);
    [intros b1 Hb1; by eapply hasOpenFour_Ret|].
  rewrite (bind_run_ret _ _ _ _ _ Hw).
  rewrite bind_run. unfold query at 1. rewrite Ht.
  destruct (testAfter (hasOpenFour ai) b0 i j p);
    rewrite (bind_run_ret _ _ _ _ _ Hback); simpl.
  - by repeat split.
  - split; [done|]. by intros [_ ?].
Qed.

Lemma findOpenThreeMove_order ai p b0 :
  triple (eq b0) (findOpenThreeMove ai p)
         (fun r b => b = b0 /\
            firstFound (emptyAnd b0 (fun i j => testAfter (hasOpenThree ai) b0 i j p)) r)
         (fun b => b = b0 /\ grid_ok (Grid b0) = false).
Proof.
  apply scan_order. intros i j Hv b <-.
  rewrite bind_run. unfold readGrid at 1. unfold emptyAnd.
  destruct (grid_get (Grid b0) i j) as [q|] eqn:Hget;
    [|split; [done|by eapply grid_get_None_not_ok]].
  destruct (Player_eqb q Empty) eqn:Hq;
    [|apply Player_eqb_neq in Hq; split; [done|]; intros [? _]; congruence].
  apply Player_eqb_eq in Hq as ->. simpl.
  destruct (speculate_test b0 i j p (hasOpenThree ai) Hget) as (b1 & Hw & Ht & Hback);
    [intros b1 Hb1; by eapply hasOpenThree_Ret|].
  rewrite (bind_run_ret _ _ _ _ _ Hw).
  rewrite bind_run. unfold query at 1. rewrite Ht.
  destruct (testAfter (hasOpenThree ai) b0 i j p);
    rewrite (bind_run_ret _ _ _ _ _ Hback); simpl.
  - by repeat split.
  - split; [done|]. by intros [_ ?].
Qed.

Lemma findAdvancedThreatMove_order ai p b0 :
  triple (eq b0) (findAdvancedThreatMove ai p)
         (fun r b => b = b0 /\
            firstFound (emptyAnd b0 (fun i j =>
               testAfter (hasOpenFour ai) b0 i j p
               || testAfter (hasDoubleThree ai) b0 i j p)) r)
         (fun b => b = b0 /\ grid_ok (Grid b0) = false).
Proof.
  apply scan_order. intros i j Hv b <-.
  rewrite bind_run. unfold readGrid at 1. unfold emptyAnd.
  destruct (grid_get (Grid b0) i j) as [q|] eqn:Hget;
    [|split; [done|by eapply grid_get_None_not_ok]].
  destruct (Player_eqb q Empty) eqn:Hq;
    [|apply Player_eqb_neq in Hq; split; [done|]; intros [? _]; congruence].
  apply Player_eqb_eq in Hq as ->. simpl.
  destruct (speculate_set b0 i j p Hget) as (g1 & Hset & Hg1 & Hw & Hback).
  unfold testAfter. rewrite Hset.
  destruct (hasOpenFour_Ret ai (set_Grid g1 b0) i j _ Hg1) as [four Hfour].
  destruct (hasDoubleThree_Ret ai (set_Grid g1 b0) i j _ Hg1) as [three Hthree].
  rewrite Hfour, Hthree.
  rewrite (bind_run_ret _ _ _ _ _ Hw).
  rewrite bind_run. unfold query at 1. rewrite Hfour.
  destruct four.
  { rewrite (bind_run_ret _ _ _ _ _ Hback). simpl. by repeat split. }
  rewrite bind_run. unfold query at 1. rewrite Hthree.
  destruct three; rewrite (bind_run_ret _ _ _ _ _ Hback); simpl.
  - by repeat split.
  - split; [done|]. by intros [_ ?].
Qed.

Lemma findThreatsMove_order ai b0 :
  triple (eq b0) (findThreatsMove ai)
         (fun r b => b = b0 /\
            firstFound (emptyAnd b0 (fun i j =>
               existsb (threatLine (Grid b0) (getOpponent ai) i j) directions)) r)
         (fun b => b = b0 /\ grid_ok (Grid b0) = false).
Proof.
  apply scan_order. intros i j Hv b <-.
  rewrite bind_run. unfold readGrid at 1. unfold emptyAnd.
  destruct (grid_get (Grid b0) i j) as [q|] eqn:Hget;
    [|split; [done|by eapply grid_get_None_not_ok]].
  destruct (Player_eqb q Empty) eqn:Hq;
    [|apply Player_eqb_neq in Hq; split; [done|]; intros [? _]; congruence].
  apply Player_eqb_eq in Hq as ->. cbn [negb].
  rewrite bind_run. unfold gets at 1.
  destruct (existsb (threatLine (Grid b0) (getOpponent ai) i j) directions); simpl.
  - by repeat split.
  - split; [done|]. by intros [_ ?].
Qed.

Lemma firstEmpty_order b0 :
  triple (eq b0) firstEmpty
         (fun r b => b = b0 /\
            firstFound (fun i j => grid_get (Grid b0) i j = Some Empty) r)
         (fun b => b = b0 /\ grid_ok (Grid b0) = false).
Proof.
  apply scan_order. intros i j Hv b <-.
  rewrite bind_run. unfold readGrid at 1.
  destruct (grid_get (Grid b0) i j) as [q|] eqn:Hget;
    [|split; [done|by eapply grid_get_None_not_ok]].
  destruct (Player_eqb q Empty) eqn:Hq; simpl.
  - apply Player_eqb_eq in Hq as ->. by repeat split.
  - apply Player_eqb_neq in Hq. split; [done|]. congruence.
Qed.

(** From a specification to the run on a well-formed grid. *)
Lemma triple_run {A} b0 (m : M A) (Q : A -> Prop) :
  triple (eq b0) m (fun r b => b = b0 /\ Q r)
         (fun b => b = b0 /\ grid_ok (Grid b0) = false) ->
  grid_ok (Grid b0) = true ->
  exists r, m b0 = (Ret r, b0) /\ Q r.
Proof.
  intros Hm Hok. specialize (Hm b0 eq_refl).
  destruct (m b0) as [[r|] b']; destruct Hm as [-> H]; [eauto|congruence].
Qed.

(** X1.  On a well-formed grid [findWinningMove] returns, leaves the board
    as it was, and its result is the first empty cell in row-major order on
    which a stone of the given player makes [CheckWin] true; it is [noMove]
    exactly when there is no such cell. *)
Theorem findWinningMove_first ai p b :
  grid_ok (Grid b) = true ->
  exists r, findWinningMove ai p b = (Ret r, b) /\
            firstFound (emptyAnd b (fun i j => winsAt b i j p)) r.
Proof. intros Hok. by apply triple_run; [apply findWinningMove_order|]. Qed.

Lemma findWinningMove_first_witness :
  findWinningMove (mkAI White Easy) Black four_in_row_board
  = (Ret (7, 2), four_in_row_board).
Proof.
  destruct (findWinningMove_first (mkAI White Easy) Black four_in_row_board)
    as (r & Hrun & _); [reflexivity|].
  rewrite Hrun. f_equal. 
  assert (Hr : Ret r = (findWinningMove (mkAI White Easy) Black four_in_row_board).1)
    by (by rewrite Hrun).
  vm_compute in Hr. exact Hr.
Defined.

(** X2.  [findOpenFourMove] and [findOpenThreeMove] return the first empty
    cell in row-major order on which a stone of the given player is accepted
    by [hasOpenFour], respectively [hasOpenThree]; [noMove] when there is
    none. *)
Theorem findOpenMoves_first ai p b :
  grid_ok (Grid b) = true ->
  (exists r, findOpenFourMove ai p b = (Ret r, b) /\
     firstFound (emptyAnd b (fun i j => testAfter (hasOpenFour ai) b i j p)) r) /\
  (exists r, findOpenThreeMove ai p b = (Ret r, b) /\
     firstFound (emptyAnd b (fun i j => testAfter (hasOpenThree ai) b i j p)) r).
Proof.
  intros Hok. split.
  - by apply triple_run; [apply findOpenFourMove_order|].
  - by apply triple_run; [apply findOpenThreeMove_order|].
Qed.

Lemma findOpenMoves_first_witness :
  exists r, findOpenThreeMove (mkAI White Medium) Black centre_stone_board
            = (Ret r, centre_stone_board).
Proof.
  destruct (findOpenMoves_first (mkAI White Medium) Black centre_stone_board)
    as (_ & r & Hrun & _); [reflexivity|].
  by exists r.
Defined.

(** X3.  [findAdvancedThreatMove] returns the first empty cell in row-major
    order on which a stone of the given player is accepted by [hasOpenFour]
    or by [hasDoubleThree]; [noMove] when there is none. *)
Theorem findAdvancedThreatMove_first ai p b :
  grid_ok (Grid b) = true ->
  exists r, findAdvancedThreatMove ai p b = (Ret r, b) /\
    firstFound (emptyAnd b (fun i j =>
      testAfter (hasOpenFour ai) b i j p || testAfter (hasDoubleThree ai) b i j p)) r.
Proof. intros Hok. by apply triple_run; [apply findAdvancedThreatMove_order|]. Qed.

Lemma findAdvancedThreatMove_first_witness :
  exists r, findAdvancedThreatMove (mkAI White Hard) White centre_stone_board
            = (Ret r, centre_stone_board).
Proof.
  destruct (findAdvancedThreatMove_first (mkAI White Hard) White centre_stone_board)
    as (r & Hrun & _); [reflexivity|].
  by exists r.
Defined.

(** X4.  [findThreatsMove] reads the board only, and returns the first empty
    cell in row-major order at which some axis passes the threat test
    ([count >= 2 && blocked < 2] for the opponent's stones); [noMove] when
    there is none. *)
Theorem findThreatsMove_first ai b :
  grid_ok (Grid b) = true ->
  exists r, findThreatsMove ai b = (Ret r, b) /\
    firstFound (emptyAnd b (fun i j =>
      existsb (threatLine (Grid b) (getOpponent ai) i j) directions)) r.
Proof. intros Hok. by apply triple_run; [apply findThreatsMove_order|]. Qed.

Lemma findThreatsMove_first_witness :
  exists r, findThreatsMove (mkAI White Easy) centre_stone_board
            = (Ret r, centre_stone_board).
Proof.
  destruct (findThreatsMove_first (mkAI White Easy) centre_stone_board)
    as (r & Hrun & _); [reflexivity|].
  by exists r.
Defined.

Lemma firstFound_found found r i j :
  firstFound found r -> isValidPosition i j = true -> found i j ->
  isValidPosition r.1 r.2 = true /\ found r.1 r.2 /\
  (forall i j, isValidPosition i j = true -> before (i, j) r -> ~ found i j).
Proof.
  intros [H|[_ Hnone]] Hv Hf; [done|]. by destruct (Hnone i j Hv).
Qed.

Lemma firstFound_none found r :
  firstFound found r -> (forall i j, isValidPosition i j = true -> ~ found i j) ->
  r = noMove.
Proof.
  intros [(Hv & Hf & _)|[-> _]] Hnone; [|done]. by destruct (Hnone _ _ Hv).
Qed.

Lemma valid_nonneg r : isValidPosition r.1 r.2 = true -> (r.1 >=? 0) = true.
Proof. intros [? _]%isValidPosition_spec. lia. Qed.

(** X5.  Whenever some empty cell wins the game for the agent, [MakeMove]
    returns at every difficulty, and returns the first such cell in row-major
    order; the board is unchanged. *)
Theorem MakeMove_takes_the_win rnd ai b i j :
  grid_ok (Grid b) = true ->
  isValidPosition i j = true ->
  emptyAnd b (fun i j => winsAt b i j (player ai)) i j ->
  exists r, MakeMove rnd ai b = (Ret r, b) /\
    emptyAnd b (fun i j => winsAt b i j (player ai)) r.1 r.2 /\
    isValidPosition r.1 r.2 = true /\
    forall i' j', isValidPosition i' j' = true -> before (i', j') r ->
                  ~ emptyAnd b (fun i j => winsAt b i j (player ai)) i' j'.
Proof.
  intros Hok Hv Hwin.
  destruct (triple_run b _ _ (findWinningMove_order ai (player ai) b) Hok)
    as (r & Hrun & Hfirst).
  destruct (firstFound_found _ _ _ _ Hfirst Hv Hwin) as (Hrv & Hrf & Hrb).
  exists r. split; [|done].
  unfold MakeMove, makeEasyMove, makeMediumMove, makeHardMove.
  destruct (difficulty ai); rewrite (bind_run_ret _ _ _ _ _ Hrun);
    by rewrite (valid_nonneg _ Hrv).
Qed.

Lemma MakeMove_takes_the_win_witness :
  MakeMove (fun _ => 0) (mkAI White Hard) four_in_row_board
  = (Ret (8, 2), four_in_row_board).
Proof.
  destruct (MakeMove_takes_the_win (fun _ => 0) (mkAI White Hard) four_in_row_board 8 7)
    as (r & Hrun & _); [reflexivity|reflexivity|split; reflexivity|].
  rewrite Hrun. f_equal.
  assert (Hr : Ret r = (MakeMove (fun _ => 0) (mkAI White Hard) four_in_row_board).1)
    by (by rewrite Hrun).
  vm_compute in Hr. exact Hr.
Defined.

(** X6.  When no empty cell wins for the agent but some empty cell would win
    for the opponent, [MakeMove] returns at every difficulty the first such
    cell in row-major order: it blocks. *)
Theorem MakeMove_blocks_the_win rnd ai b i j :
  grid_ok (Grid b) = true ->
  (forall i j, isValidPosition i j = true ->
               ~ emptyAnd b (fun i j => winsAt b i j (player ai)) i j) ->
  isValidPosition i j = true ->
  emptyAnd b (fun i j => winsAt b i j (getOpponent ai)) i j ->
  exists r, MakeMove rnd ai b = (Ret r, b) /\
    emptyAnd b (fun i j => winsAt b i j (getOpponent ai)) r.1 r.2 /\
    isValidPosition r.1 r.2 = true /\
    forall i' j', isValidPosition i' j' = true -> before (i', j') r ->
                  ~ emptyAnd b (fun i j => winsAt b i j (getOpponent ai)) i' j'.
Proof.
  intros Hok Hnone Hv Hwin.
  destruct (triple_run b _ _ (findWinningMove_order ai (player ai) b) Hok)
    as (r0 & Hrun0 & Hfirst0).
  apply firstFound_none in Hfirst0 as ->; [|done].
  destruct (triple_run b _ _ (findWinningMove_order ai (getOpponent ai) b) Hok)
    as (r & Hrun & Hfirst).
  destruct (firstFound_found _ _ _ _ Hfirst Hv Hwin) as (Hrv & Hrf & Hrb).
  exists r. split; [|done].
  unfold MakeMove, makeEasyMove, makeMediumMove, makeHardMove.
  destruct (difficulty ai); rewrite (bind_run_ret _ _ _ _ _ Hrun0); simpl;
    rewrite (bind_run_ret _ _ _ _ _ Hrun); by rewrite (valid_nonneg _ Hrv).
Qed.


Lemma MakeMove_blocks_the_win_witness :
  MakeMove (fun _ => 0) (mkAI White Easy) open_four_board = (Ret (7, 4), open_four_board).
Proof.
  destruct (triple_run open_four_board _ _
              (findWinningMove_order (mkAI White Easy) White open_four_board))
    as (r0 & Hrun0 & Hfirst0); [reflexivity|].
  assert (Hr0 : Ret r0 = (findWinningMove (mkAI White Easy) White open_four_board).1)
    by (by rewrite Hrun0).
  vm_compute in Hr0. injection Hr0 as ->.
  destruct Hfirst0 as [(Hv & _)|[_ Hnone]]; [discriminate Hv|].
  destruct (MakeMove_blocks_the_win (fun _ => 0) (mkAI White Easy) open_four_board 7 4)
    as (r & Hrun & _); [reflexivity|exact Hnone|reflexivity|split; reflexivity|].
  rewrite Hrun. f_equal.
  assert (Hr : Ret r = (MakeMove (fun _ => 0) (mkAI White Easy) open_four_board).1)
    by (by rewrite Hrun).
  vm_compute in Hr. exact Hr.
Defined.

(** ** The boards of a game *)

Lemma history_ok_app h m :
  history_ok (h ++ [m]) = history_ok h && isValidPosition m.1 m.2.
Proof. unfold history_ok. rewrite forallb_app. simpl. by rewrite andb_true_r. Qed.

Lemma cell_set_eq (g g1 : grid) r c p :
  grid_set g r c p = Some g1 -> cell g1 r c = p.
Proof. intros H. apply cell_get. by eapply grid_get_set_eq. Qed.

Lemma cell_set_ne (g g1 : grid) r c p r' c' :
  grid_set g r c p = Some g1 -> isValidPosition r' c' = true -> (r', c') <> (r, c) ->
  cell g1 r' c' = cell g r' c'.
Proof.
  intros H [Hr Hc]%isValidPosition_spec Hne. unfold cell.
  by rewrite (grid_get_set_ne _ _ _ _ _ _ _ H) by (done || lia).
Qed.

Lemma NewBoard_consistent : consistent NewBoard.
Proof.
  split; [reflexivity|]. split; [done|]. split; [apply NoDup_nil_2|]. split; [|done].
  intros r c Hv. split; [|by intros ?%elem_of_nil].
  intros Hne. exfalso. apply Hne. unfold cell.
  destruct (grid_get (Grid NewBoard) r c) as [p|] eqn:Hp; [|done].
  by apply NewBoard_empty in Hp.
Qed.

Lemma PlaceStone_consistent b row col :
  consistent b -> consistent (PlaceStone row col b).2.
Proof.
  intros Hb. pose proof Hb as (Hok & Hturn & Hnd & Hiff & Hfin).
  pose proof Hok as [Hg Hh]%andb_true_iff.
  destruct (isValidPosition row col) eqn:Hv;
    [|by rewrite PlaceStone_out_of_bounds].
  destruct (grid_get_valid _ _ _ Hg Hv) as [p Hp].
  destruct (decide (p = Empty)) as [->|Hne];
    [|by erewrite PlaceStone_occupied].
  destruct (GameFinished b) eqn:Hf;
    [by rewrite PlaceStone_finished|].
  destruct (grid_set_is_Some _ _ _ (CurrentTurn b) _ Hp) as [g1 Hset].
  destruct (PlaceStone_run b row col g1 Hv Hp Hf Hset) as (won & Hwon & ->).
  assert (Hnotin : (row, col) ∉ MoveHistory b).
  { intros Hin. apply (Hiff row col Hv) in Hin. apply Hin. by apply cell_get. }
  assert (Hiff' : forall r c, isValidPosition r c = true ->
            cell g1 r c <> Empty <-> (r, c) ∈ MoveHistory b ++ [(row, col)]).
  { intros r c Hrc. rewrite elem_of_app, list_elem_of_singleton.
    destruct (decide ((r, c) = (row, col))) as [[= -> ->]|Hne].
    - rewrite (cell_set_eq _ _ _ _ _ Hset). tauto.
    - rewrite (cell_set_ne _ _ _ _ _ _ _ Hset Hrc Hne), (Hiff r c Hrc). tauto. }
  assert (Hok' : grid_ok g1 = true) by (by eapply grid_set_ok).
  assert (Hnd' : NoDup (MoveHistory b ++ [(row, col)])).
  { apply NoDup_app. split; [done|]. split; [|apply NoDup_singleton].
    intros x Hx ->%list_elem_of_singleton. done. }
  destruct won; unfold consistent;
    cbn [snd Grid CurrentTurn MoveHistory GameFinished
         set_GameFinished set_CurrentTurn set_MoveHistory set_Grid].
  - split; [unfold board_ok; simpl; rewrite Hok', history_ok_app, Hh; cbn [fst snd]; by rewrite Hv|].
    split; [done|]. split; [done|]. split; [done|].
    intros _. exists (row, col). split; [by rewrite last_snoc|].
    cbn [fst snd]. by rewrite <- Hwon.
  - split; [unfold board_ok; simpl; rewrite Hok', history_ok_app, Hh; cbn [fst snd]; by rewrite Hv|].
    split; [apply nextPlayer_other|]. split; [done|]. split; [done|]. by rewrite Hf.
Qed.

Lemma Undo_consistent b : consistent b -> consistent (Undo b).2.
Proof.
  intros Hb. pose proof Hb as (Hok & Hturn & Hnd & Hiff & Hfin).
  pose proof Hok as [Hg Hh]%andb_true_iff.
  destruct (decide (MoveHistory b = [])) as [He|Hne0]; [by rewrite Undo_empty|].
  destruct (MoveHistory b) as [|m h _] eqn:Hm using rev_ind; [done|]. clear Hne0.
  assert (Hv : isValidPosition m.1 m.2 = true).
  { eapply history_ok_last; [exact Hh|]. by rewrite last_snoc. }
  destruct (grid_get_valid _ _ _ Hg Hv) as [q Hq].
  destruct (grid_set_is_Some _ _ _ Empty _ Hq) as [g1 Hset].
  rewrite (Undo_run b h m g1 Hm Hset). unfold consistent.
  cbn [snd Grid CurrentTurn MoveHistory GameFinished].
  apply NoDup_app in Hnd as (Hndh & Hnotin & _).
  rewrite history_ok_app in Hh. apply andb_true_iff in Hh as [Hh _].
  split; [unfold board_ok; simpl; by rewrite (grid_set_ok _ _ _ _ _ Hset Hg), Hh|].
  split; [apply nextPlayer_other|]. split; [done|]. split; [|done].
  intros r c Hrc.
  destruct (decide ((r, c) = (m.1, m.2))) as [[= -> ->]|Hne].
  - rewrite (cell_set_eq _ _ _ _ _ Hset). split; [done|].
    intros Hin. exfalso. apply (Hnotin _ Hin). destruct m. by apply list_elem_of_singleton.
  - rewrite (cell_set_ne _ _ _ _ _ _ _ Hset Hrc Hne), (Hiff r c Hrc).
    rewrite elem_of_app, list_elem_of_singleton. split; [|by left].
    intros [?|Heq]; [done|]. exfalso. apply Hne. by subst m.
Qed.

Lemma reachable_playAll moves b : reachable b -> reachable (playAll moves b).
Proof.
  revert b. induction moves as [|m moves IH]; intros b Hb; [done|].
  apply (IH (PlaceStone m.1 m.2 b).2). by apply reachable_place.
Qed.


(** X7.  On every board of a game (the new board, then any calls of
    [PlaceStone] and [Undo], failing or not) the grid is 15 x 15, the history
    lists exactly the occupied cells, each once and in bounds, the player to
    move is Black or White, and when the game is finished the last move of
    the history completes five in a row. *)
Theorem reachable_consistent b : reachable b -> consistent b.
Proof.
  induction 1 as [|b row col _ IH|b _ IH];
    [apply NewBoard_consistent|by apply PlaceStone_consistent|by apply Undo_consistent].
Qed.

Lemma reachable_consistent_witness : consistent four_in_row_board.
Proof.
  apply reachable_consistent. unfold four_in_row_board.
  apply reachable_playAll, reachable_new.
Defined.

(** X8.  On the boards of a game neither [PlaceStone] nor [Undo] panics: no
    index leaves the array, whatever the arguments. *)
Theorem reachable_no_panic b row col :
  reachable b -> (PlaceStone row col b).1 <> Panic /\ (Undo b).1 <> Panic.
Proof.
  intros Hb.
  assert (Hok : board_ok b = true).
  { assert (Hc : consistent b); [|by destruct Hc].
    induction Hb as [|b row' col' _ IH|b _ IH];
      [apply NewBoard_consistent|by apply PlaceStone_consistent|by apply Undo_consistent]. }
  pose proof Hok as [Hg Hh]%andb_true_iff. split.
  - destruct (isValidPosition row col) eqn:Hv;
      [|by rewrite PlaceStone_out_of_bounds].
    destruct (grid_get_valid _ _ _ Hg Hv) as [p Hp].
    destruct (decide (p = Empty)) as [->|Hne]; [|by erewrite PlaceStone_occupied].
    destruct (GameFinished b) eqn:Hf; [by rewrite PlaceStone_finished|].
    destruct (grid_set_is_Some _ _ _ (CurrentTurn b) _ Hp) as [g1 Hset].
    by destruct (PlaceStone_run b row col g1 Hv Hp Hf Hset) as (won & _ & ->).
  - destruct (decide (MoveHistory b = [])) as [He|Hne]; [by rewrite Undo_empty|].
    by destruct (Undo_nonempty b Hok Hne) as [b' ->].
Qed.

Lemma reachable_no_panic_witness :
  (PlaceStone 99 99 four_in_row_board).1 <> Panic.
Proof.
  apply (reachable_no_panic four_in_row_board 99 99). unfold four_in_row_board.
  apply reachable_playAll, reachable_new.
Defined.

(** A successful [PlaceStone] that leaves the game unfinished: the game was
    not finished before, the stone does not win, the grid is still 15 x 15 and
    the turn has passed on. *)
Lemma PlaceStone_unfinished b row col b1 :
  grid_ok (Grid b) = true ->
  PlaceStone row col b = (Ret None, b1) ->
  GameFinished b1 = false ->
  GameFinished b = false /\ CheckWin b1 row col = Ret false /\
  grid_ok (Grid b1) = true /\ CurrentTurn b1 = nextPlayer b.
Proof.
  intros Hok Hrun Hopen.
  destruct (isValidPosition row col) eqn:Hv;
    [|by rewrite PlaceStone_out_of_bounds in Hrun].
  destruct (grid_get_valid _ _ _ Hok Hv) as [p Hp].
  destruct (decide (p = Empty)) as [->|Hne];
    [|by erewrite PlaceStone_occupied in Hrun].
  destruct (GameFinished b) eqn:Hfin; [by rewrite PlaceStone_finished in Hrun|].
  destruct (grid_set_is_Some _ _ _ (CurrentTurn b) _ Hp) as [g1 Hset].
  destruct (PlaceStone_run b row col g1 Hv Hp Hfin Hset) as (won & Hwon & Hrun').
  rewrite Hrun in Hrun'. injection Hrun' as ->.
  destruct won; [done|]. split; [done|]. split; [exact Hwon|].
  split; [by eapply grid_set_ok|done].
Qed.

(** X9.  Taking back a move that did not end the game restores the board:
    when [PlaceStone] succeeds on a board whose turn is Black's or White's and
    the game is not finished afterwards, [Undo] succeeds and gives back the
    board of before, field by field. *)
Theorem PlaceStone_then_Undo b row col b1 :
  grid_ok (Grid b) = true ->
  CurrentTurn b <> Empty ->
  PlaceStone row col b = (Ret None, b1) ->
  GameFinished b1 = false ->
  Undo b1 = (Ret None, b).
Proof.
  intros Hok Hturn Hrun Hopen.
  destruct (PlaceStone_unfinished b row col b1 Hok Hrun Hopen) as (Hfin & Hwin & _).
  by apply (PlaceStone_Undo_roundtrip b row col).
Qed.

Lemma PlaceStone_then_Undo_witness :
  Undo (PlaceStone 7 7 NewBoard).2 = (Ret None, NewBoard).
Proof.
  apply (PlaceStone_then_Undo NewBoard 7 7); [reflexivity|discriminate| |reflexivity].
  reflexivity.
Defined.

(** X10.  At the Medium and Hard difficulties [MakeMove] does not panic on a
    well-formed board: it returns, leaves the board as it was, and its result
    is an empty cell of the board, or (-1,-1) when no cell is empty. *)
Theorem MakeMove_medium_hard_returns rnd ai b :
  board_ok b = true ->
  difficulty ai <> Easy ->
  exists r, MakeMove rnd ai b = (Ret r, b) /\
    (emptyCell b r \/ r = noMove /\ boardFull b).
Proof.
  intros Hok Hd. pose proof (MakeMove_spec rnd ai b b eq_refl) as Hspec.
  destruct (MakeMove rnd ai b) as [[r|] b'].
  - destruct Hspec as [-> Hr]. exists r. split; [done|]. by apply Hr.
  - destruct Hspec as [_ [Hbad|[He _]]]; congruence.
Qed.

Lemma MakeMove_medium_hard_returns_witness :
  exists r, MakeMove (fun _ => 0) (mkAI White Medium) centre_stone_board
            = (Ret r, centre_stone_board).
Proof.
  destruct (MakeMove_medium_hard_returns (fun _ => 0) (mkAI White Medium) centre_stone_board)
    as (r & Hrun & _); [reflexivity|discriminate|].
  by exists r.
Defined.

(** X11.  A move that [MakeMove] returns on a well-formed board of an
    unfinished game is accepted by [PlaceStone], at every difficulty, unless
    it is (-1,-1); and (-1,-1) is returned only when no cell is empty. *)
Theorem MakeMove_move_is_accepted rnd ai b r :
  board_ok b = true ->
  GameFinished b = false ->
  (MakeMove rnd ai b).1 = Ret r ->
  (r <> noMove -> (PlaceStone r.1 r.2 b).1 = Ret None) /\
  (r = noMove -> boardFull b).
Proof.
  intros Hok Hfin Hrun. pose proof (MakeMove_spec rnd ai b b eq_refl) as Hspec.
  destruct (MakeMove rnd ai b) as [[r'|] b']; [|done].
  simpl in Hrun. injection Hrun as ->. destruct Hspec as [-> Hr].
  specialize (Hr Hok). split.
  - intros Hne. destruct Hr as [[Hv Hget]|[? _]]; [|done].
    destruct (grid_set_is_Some _ _ _ (CurrentTurn b) _ Hget) as [g1 Hset].
    by destruct (PlaceStone_run b r.1 r.2 g1 Hv Hget Hfin Hset) as (won & _ & ->).
  - intros ->. destruct Hr as [[Hv _]|[_ Hfull]]; [discriminate Hv|done].
Qed.

Lemma MakeMove_move_is_accepted_witness :
  (PlaceStone 7 4 open_four_board).1 = Ret None.
Proof.
  apply (MakeMove_move_is_accepted (fun _ => 0) (mkAI White Easy) open_four_board (7, 4));
    [reflexivity|reflexivity|vm_compute; reflexivity|discriminate].
Defined.

(** X12.  The verdict of [CheckWin] does not depend on which cell of a line
    is asked: when five or more contiguous cells along an axis hold the same
    value, [CheckWin] returns true at every one of them. *)
Theorem CheckWin_along_the_run b p row col dir lo hi i :
  grid_ok (Grid b) = true ->
  dir ∈ directions ->
  run_through (Grid b) p row col dir lo hi ->
  WinCondition <= hi - lo + 1 ->
  lo <= i <= hi ->
  CheckWin b (row + dir.1 * i) (col + dir.2 * i) = Ret true.
Proof.
  intros Hok Hdir [Hlohi Hall] Hlen Hi.
  destruct (Hall i Hi) as [Hv Hget].
  destruct (CheckWin_five b _ _ p Hok Hget) as (won & -> & Hwon).
  f_equal. apply Hwon. exists dir, (lo - i), (hi - i).
  split; [done|]. split; [|lia]. split; [lia|].
  intros k Hk. specialize (Hall (i + k) ltac:(lia)).
  by replace (row + dir.1 * i + dir.1 * k) with (row + dir.1 * (i + k)) by lia;
     replace (col + dir.2 * i + dir.2 * k) with (col + dir.2 * (i + k)) by lia.
Qed.

Lemma CheckWin_along_the_run_witness :
  CheckWin (board_of (five_stones (0, 1)) White []) (5 + 0 * 3) (7 + 1 * 3) = Ret true.
Proof.
  apply (CheckWin_along_the_run (board_of (five_stones (0, 1)) White []) Black 5 7 (0, 1) 0 4 3).
  - reflexivity.
  - right. left.
  - split; [lia|]. intros i Hi.
    assert (Hcases : i = 0 \/ i = 1 \/ i = 2 \/ i = 3 \/ i = 4) by lia.
    by destruct Hcases as [->|[->|[->|[->| ->]]]].
  - unfold WinCondition. lia.
  - lia.
Defined.

(** ** The candidates and the draw of the Easy strategy *)

Lemma bind_singleton_fmap {A B} (f : A -> B) (l : list A) :
  l ≫= (fun x => [f x]) = f <$> l.
Proof. induction l as [|x l IH]; [done|]. by rewrite bind_cons, IH. Qed.

Lemma cellsOf_snoc rows i cols :
  cellsOf (rows ++ [i]) cols = cellsOf rows cols ++ ((fun j => (i, j)) <$> cols).
Proof.
  unfold cellsOf. rewrite bind_app. f_equal.
  rewrite bind_cons. change (@nil Z ≫= _) with (@nil (Z * Z)). rewrite app_nil_r.
  apply bind_singleton_fmap.
Qed.

Lemma elem_of_cellsOf rows cols c :
  c ∈ cellsOf rows cols <-> c.1 ∈ rows /\ c.2 ∈ cols.
Proof.
  unfold cellsOf. rewrite list_elem_of_bind. split.
  - intros (i & (j & Hc & Hj)%list_elem_of_bind & Hi).
    apply list_elem_of_singleton in Hc as ->. done.
  - intros [Hi Hj]. exists c.1. split; [|done].
    apply list_elem_of_bind. exists c.2. split; [|done].
    apply list_elem_of_singleton. by destruct c.
Qed.

(** Step 5 of [makeEasyMove]: the moves collected are the empty cells of the
    rectangle, in row-major order. *)
Lemma collectMoves_cells ai b0 minRow maxRow minCol maxCol lastRow lastCol :
  0 <= minRow -> maxRow < BoardSize -> 0 <= minCol -> maxCol < BoardSize ->
  triple (eq b0) (collectMoves ai minRow maxRow minCol maxCol lastRow lastCol)
         (fun moves b => b = b0 /\
            mw_pos <$> moves =
            filter (fun c => grid_get (Grid b0) c.1 c.2 = Some Empty)
                   (cellsOf (rangeIncl minRow maxRow) (rangeIncl minCol maxCol)))
         (fun b => b = b0 /\ grid_ok (Grid b0) = false).
Proof.
  intros Hr1 Hr2 Hc1 Hc2. unfold collectMoves.
  set (cols := rangeIncl minCol maxCol).
  set (isEmpty := fun c : Z * Z => grid_get (Grid b0) c.1 c.2 = Some Empty).
  set (I := fun (rows : list Z) (moves : list moveWithWeight) b => b = b0 /\
         mw_pos <$> moves = filter isEmpty (cellsOf rows cols)).
  set (E := fun b => b = b0 /\ grid_ok (Grid b0) = false).
  pose proof (triple_foldM_visited I
    (fun moves i => foldM cols moves (fun moves j =>
       p ← readGrid i j;
       if Player_eqb p Empty then
         weight ← candidateWeight ai lastRow lastCol i j;
         mret (moves ++ [mkMove i j weight])
       else mret moves)) E (rangeIncl minRow maxRow) [] []) as Houter.
  simpl in Houter.
  eapply triple_conseq;
    [apply Houter; clear Houter
    |intros b <-; split; [done|reflexivity]
    |intros moves b Hb; exact Hb
    |intros b Hb; exact Hb].
  intros pre i post moves Hsplit.
  assert (Hi : minRow <= i <= maxRow).
  { apply elem_of_rangeIncl. rewrite Hsplit. apply elem_of_app. right. by left. }
  set (J := fun (pc : list Z) (moves : list moveWithWeight) b => b = b0 /\
         mw_pos <$> moves =
         filter isEmpty (cellsOf pre cols) ++ filter isEmpty ((fun j => (i, j)) <$> pc)).
  pose proof (triple_foldM_visited J
    (fun moves j =>
       p ← readGrid i j;
       if Player_eqb p Empty then
         weight ← candidateWeight ai lastRow lastCol i j;
         mret (moves ++ [mkMove i j weight])
       else mret moves) E cols [] moves) as Hinner.
  simpl in Hinner. eapply triple_conseq; [apply Hinner| | |done].
  - clear Hinner. intros pc j postc moves' Hsplitc.
    assert (Hj : minCol <= j <= maxCol).
    { apply elem_of_rangeIncl. fold cols. rewrite Hsplitc.
      apply elem_of_app. right. by left. }
    intros b [-> Hmoves].
    assert (Hv : isValidPosition i j = true) by (apply isValidPosition_spec; lia).
    rewrite bind_run. unfold readGrid at 1.
    destruct (grid_get (Grid b0) i j) as [q|] eqn:Hget;
      [|split; [done|by apply (grid_get_None_not_ok _ i j)]].
    destruct (Player_eqb q Empty) eqn:Hq.
    + apply Player_eqb_eq in Hq as ->.
      destruct (candidateWeight_run ai lastRow lastCol i j b0 Hget) as [w Hw].
      rewrite (bind_run_ret _ _ _ _ _ Hw). split; [done|].
      rewrite fmap_app, Hmoves, fmap_app, filter_app, <- app_assoc. f_equal. f_equal.
      simpl. by rewrite filter_cons_True.
    + split; [done|]. rewrite Hmoves, fmap_app, filter_app. f_equal.
      simpl. rewrite filter_cons_False; [by rewrite app_nil_r|].
      unfold isEmpty. simpl. rewrite Hget. intros [= ->]. by rewrite Player_eqb_refl in Hq.
  - intros b [-> Hmoves]. split; [done|]. by rewrite Hmoves, app_nil_r.
  - intros moves' b [-> Hmoves]. split; [done|].
    by rewrite Hmoves, cellsOf_snoc, filter_app.
Qed.

(** X13.  The candidates among which the Easy strategy draws are exactly the
    empty cells of the stones' range widened by two and clipped to rows and
    columns 2 to 12, in row-major order; no cell of the two outer rings of
    the board is ever among them. *)
Theorem easy_candidates_inside ai s b :
  grid_ok (Grid b) = true ->
  exists moves,
    candidateMoves ai s b = (Ret moves, b) /\
    mw_pos <$> moves =
      filter (fun c => grid_get (Grid b) c.1 c.2 = Some Empty) (searchCells s) /\
    Forall (fun m => 2 <= mw_row m <= BoardSize - 3 /\ 2 <= mw_col m <= BoardSize - 3 /\
                     minRow s - 2 <= mw_row m <= maxRow s + 2 /\
                     minCol s - 2 <= mw_col m <= maxCol s + 2) moves.
Proof.
  intros Hok. unfold candidateMoves. rewrite bind_run. unfold gets at 1.
  assert (Hlast : exists lastMove,
    (if (0 <? length (MoveHistory b))%nat
     then match last (MoveHistory b) with
          | Some lastMove => mret lastMove
          | None => panic
          end
     else mret (BoardSize `quot` 2, BoardSize `quot` 2)) b = (Ret lastMove, b)).
  { destruct (MoveHistory b) as [|m h] eqn:Hh; [by eexists|].
    destruct (last (m :: h)) as [lastMove|] eqn:Hl; [by eexists|].
    by apply last_None in Hl. }
  destruct Hlast as [lastMove Hlast]. rewrite (bind_run_ret _ _ _ _ _ Hlast).
  pose proof (clamp_bounds (minRow s - 2) (maxRow s + 2)) as [Hr1 Hr2].
  pose proof (clamp_bounds (minCol s - 2) (maxCol s + 2)) as [Hc1 Hc2].
  pose proof (collectMoves_cells ai b _ _ _ _ lastMove.1 lastMove.2 Hr1 Hr2 Hc1 Hc2 b eq_refl)
    as Hspec.
  match type of Hspec with match ?run with _ => _ end =>
    destruct run as [[moves|] b'] end; [|destruct Hspec; congruence].
  destruct Hspec as [-> Hmoves]. exists moves. split; [done|]. split; [done|].
  apply Forall_forall. intros m Hm.
  assert (Hin : mw_pos m ∈ mw_pos <$> moves) by (by apply list_elem_of_fmap_2).
  rewrite Hmoves in Hin. apply list_elem_of_filter in Hin as [_ Hin].
  apply elem_of_cellsOf in Hin as [Hrow Hcol].
  apply elem_of_rangeIncl in Hrow, Hcol. simpl in Hrow, Hcol.
  unfold max, min, BoardSize in *.
  destruct (2 >? minRow s - 2) eqn:?, (15 - 3 <? maxRow s + 2) eqn:?,
           (2 >? minCol s - 2) eqn:?, (15 - 3 <? maxCol s + 2) eqn:?; lia.
Qed.

Lemma easy_candidates_inside_witness :
  exists moves,
    candidateMoves (mkAI White Easy) (findRange (Grid edge_game_board)) edge_game_board
    = (Ret moves, edge_game_board) /\
    Forall (fun m => 2 <= mw_row m <= BoardSize - 3) moves.
Proof.
  destruct (easy_candidates_inside (mkAI White Easy) (findRange (Grid edge_game_board))
              edge_game_board) as (moves & Hrun & _ & Hall); [reflexivity|].
  exists moves. split; [done|]. eapply Forall_impl; [exact Hall|]. by intros m [? _].
Defined.

Lemma foldl_cellsOf {S} (f : Z -> S -> Z -> S) (rows cols : list Z) : forall s,
  foldl (fun s i => foldl (f i) s cols) s rows
  = foldl (fun s c => f c.1 s c.2) s (cellsOf rows cols).
Proof.
  induction rows as [|i rows IH]; intros s; [done|].
  change (cellsOf (i :: rows) cols)
    with ((cols ≫= (fun j => [(i, j)])) ++ cellsOf rows cols).
  rewrite foldl_app, bind_singleton_fmap. simpl. rewrite IH. f_equal.
  clear IH. revert s. induction cols as [|j cols IHc]; intros s; [done|].
  simpl. by rewrite IHc.
Qed.

Lemma rangeOf_step g seen s c :
  isValidPosition c.1 c.2 = true ->
  rangeOf g seen s -> rangeOf g (seen ++ [c]) (rangeStep g c.1 s c.2).
Proof.
  intros [Hi Hj]%isValidPosition_spec [Hnone Hsome]. unfold rangeStep, BoardSize in *.
  destruct (Player_eqb (cell g c.1 c.2) Empty) eqn:Hc; simpl.
  - apply Player_eqb_eq in Hc. split.
    + intros Hs. destruct (Hnone Hs) as [-> Hall]. split; [done|].
      intros c' [Hc'| ->%list_elem_of_singleton]%elem_of_app; auto.
    + intros Hs. destruct (Hsome Hs) as (Hb & H1 & H2 & H3 & H4).
      split; [|repeat split].
      * intros c' [Hc'| ->%list_elem_of_singleton]%elem_of_app Hne; [auto|done].
      * destruct H1 as (c' & ? & ? & ?). exists c'. rewrite elem_of_app. auto.
      * destruct H2 as (c' & ? & ? & ?). exists c'. rewrite elem_of_app. auto.
      * destruct H3 as (c' & ? & ? & ?). exists c'. rewrite elem_of_app. auto.
      * destruct H4 as (c' & ? & ? & ?). exists c'. rewrite elem_of_app. auto.
  - apply Player_eqb_neq in Hc. split; [done|]. intros _.
    assert (Hnew : c ∈ seen ++ [c]).
    { apply elem_of_app. right. by apply list_elem_of_singleton. }
    destruct (hasStones s) eqn:Hs.
    + destruct (Hsome eq_refl) as (Hb & H1 & H2 & H3 & H4).
      split; [|repeat split]; cbn [minRow maxRow minCol maxCol].
      * intros c' [Hc'| ->%list_elem_of_singleton]%elem_of_app Hne.
        -- specialize (Hb c' Hc' Hne).
           destruct (c.1 <? minRow s) eqn:?, (c.1 >? maxRow s) eqn:?,
                    (c.2 <? minCol s) eqn:?, (c.2 >? maxCol s) eqn:?; lia.
        -- destruct (c.1 <? minRow s) eqn:?, (c.1 >? maxRow s) eqn:?,
                    (c.2 <? minCol s) eqn:?, (c.2 >? maxCol s) eqn:?; lia.
      * destruct (c.1 <? minRow s); [by exists c|].
        destruct H1 as (c' & ? & ? & ?). exists c'. rewrite elem_of_app. auto.
      * destruct (c.1 >? maxRow s); [by exists c|].
        destruct H2 as (c' & ? & ? & ?). exists c'. rewrite elem_of_app. auto.
      * destruct (c.2 <? minCol s); [by exists c|].
        destruct H3 as (c' & ? & ? & ?). exists c'. rewrite elem_of_app. auto.
      * destruct (c.2 >? maxCol s); [by exists c|].
        destruct H4 as (c' & ? & ? & ?). exists c'. rewrite elem_of_app. auto.
    + destruct (Hnone eq_refl) as [-> Hall].
      split; [|repeat split]; cbn [minRow maxRow minCol maxCol].
      * intros c' [Hc'| ->%list_elem_of_singleton]%elem_of_app Hne.
        -- by destruct (Hne (Hall c' Hc')).
        -- destruct (c.1 <? 15 - 1) eqn:?, (c.1 >? 0) eqn:?,
                    (c.2 <? 15 - 1) eqn:?, (c.2 >? 0) eqn:?; lia.
      * exists c. split; [done|]. split; [done|]. destruct (c.1 <? 15 - 1) eqn:?; lia.
      * exists c. split; [done|]. split; [done|]. destruct (c.1 >? 0) eqn:?; lia.
      * exists c. split; [done|]. split; [done|]. destruct (c.2 <? 15 - 1) eqn:?; lia.
      * exists c. split; [done|]. split; [done|]. destruct (c.2 >? 0) eqn:?; lia.
Qed.

Lemma rangeOf_fold g (cells : list (Z * Z)) : forall seen s,
  (forall c, c ∈ cells -> isValidPosition c.1 c.2 = true) ->
  rangeOf g seen s ->
  rangeOf g (seen ++ cells) (foldl (fun s c => rangeStep g c.1 s c.2) s cells).
Proof.
  induction cells as [|c cells IH]; intros seen s Hv Hs; simpl.
  - by rewrite app_nil_r.
  - replace (seen ++ c :: cells) with ((seen ++ [c]) ++ cells)
      by (by rewrite <- app_assoc).
    apply IH.
    + intros c' Hc'. apply Hv. by right.
    + apply rangeOf_step; [|done]. apply Hv. by left.
Qed.

Lemma elem_of_board_cells c :
  c ∈ cellsOf (range 0 BoardSize) (range 0 BoardSize) <-> isValidPosition c.1 c.2 = true.
Proof.
  rewrite elem_of_cellsOf, !elem_of_range, isValidPosition_spec. lia.
Qed.

(** X14.  Step 4 of [makeEasyMove] computes the bounding box of the stones:
    [hasStones] tells whether the board holds a stone, every stone lies within
    the four bounds, and each bound is attained by a stone. *)
Theorem findRange_bounding_box g :
  let s := findRange g in
  (hasStones s = true <-> exists i j, stoneAt g i j) /\
  (forall i j, stoneAt g i j ->
     minRow s <= i <= maxRow s /\ minCol s <= j <= maxCol s) /\
  (hasStones s = true ->
     (exists j, stoneAt g (minRow s) j) /\ (exists j, stoneAt g (maxRow s) j) /\
     (exists i, stoneAt g i (minCol s)) /\ (exists i, stoneAt g i (maxCol s))).
Proof.
  intros s.
  assert (Hs : rangeOf g (cellsOf (range 0 BoardSize) (range 0 BoardSize)) s).
  { unfold s. rewrite findRange_unfold, foldl_cellsOf.
    apply (rangeOf_fold g _ []).
    - intros c Hc. by apply elem_of_board_cells.
    - split; [|done]. intros _. split; [done|]. by intros c ?%elem_of_nil. }
  destruct Hs as [Hnone Hsome].
  assert (Hstone : forall i j, stoneAt g i j -> hasStones s = true).
  { intros i j [Hv Hne]. destruct (hasStones s) eqn:Hh; [done|].
    destruct (Hnone eq_refl) as [_ Hall]. destruct Hne.
    by apply (Hall (i, j)), elem_of_board_cells. }
  split; [split|split].
  - intros Hh. destruct (Hsome Hh) as (_ & (c & Hc & Hne & _) & _).
    exists c.1, c.2. split; [by apply elem_of_board_cells|done].
  - intros (i & j & Hij). by eapply Hstone.
  - intros i j Hij. destruct (Hsome (Hstone i j Hij)) as (Hb & _).
    destruct Hij as [Hv Hne]. by apply (Hb (i, j)); [apply elem_of_board_cells|].
  - intros Hh. destruct (Hsome Hh) as (_ & H1 & H2 & H3 & H4).
    repeat split.
    + destruct H1 as (c & Hc%elem_of_board_cells & Hne & <-). by exists c.2.
    + destruct H2 as (c & Hc%elem_of_board_cells & Hne & <-). by exists c.2.
    + destruct H3 as (c & Hc%elem_of_board_cells & Hne & <-). by exists c.1.
    + destruct H4 as (c & Hc%elem_of_board_cells & Hne & <-). by exists c.1.
Qed.

Lemma findRange_bounding_box_witness :
  minRow (findRange (Grid edge_game_board)) <= 14
    <= maxRow (findRange (Grid edge_game_board)) /\
  minCol (findRange (Grid edge_game_board)) <= 7
    <= maxCol (findRange (Grid edge_game_board)).
Proof.
  destruct (findRange_bounding_box (Grid edge_game_board)) as (_ & Hbox & _).
  apply (Hbox 14 7). split; [reflexivity|]. vm_compute. discriminate.
Defined.

Lemma pickMove_at (moves : list moveWithWeight) : forall k m current random,
  moves !! k = Some m ->
  Forall (fun m => 0 <= mw_weight m) (take k moves) ->
  current + sumOver mw_weight (take k moves) <= random ->
  random < current + sumOver mw_weight (take k moves) + mw_weight m ->
  pickMove moves current random = Some (mw_row m, mw_col m).
Proof.
  induction moves as [|m0 moves IH]; intros k m current random Hk Hpos Hlo Hhi; [done|].
  destruct k as [|k]; simpl in *.
  - injection Hk as ->. by replace (current + mw_weight m >? random) with true by lia.
  - apply Forall_cons in Hpos as [Hm0 Hpos].
    pose proof (IH k m (current + mw_weight m0) random Hk Hpos) as Hrest.
    assert (Hsum : 0 <= sumOver mw_weight (take k moves)).
    { clear -Hpos. induction Hpos as [|x l Hx _ IHl]; simpl; lia. }
    replace (current + mw_weight m0 >? random) with false by lia.
    apply Hrest; lia.
Qed.

(** X16.  The weighted draw of the Easy strategy gives each candidate an
    interval of the cumulative weights: when the candidates before the k-th
    have non-negative weights and the number drawn lies in [S, S + w), where
    S is the sum of the weights before the k-th candidate and w its own
    weight, the k-th candidate is the move returned. *)
Theorem selectMove_interval rnd (moves : list moveWithWeight) b k m :
  moves !! k = Some m ->
  Forall (fun m => 0 <= mw_weight m) (take k moves) ->
  0 < totalWeight moves ->
  sumOver mw_weight (take k moves) <= rnd (totalWeight moves) `mod` totalWeight moves
    < sumOver mw_weight (take k moves) + mw_weight m ->
  selectMove rnd moves b = (Ret (mw_row m, mw_col m), b).
Proof.
  intros Hk Hpos Htotal [Hlo Hhi]. unfold selectMove, rand_Intn.
  replace (totalWeight moves <=? 0) with false by lia.
  rewrite bind_run. unfold mret at 1, M_ret.
  by rewrite (pickMove_at moves k m 0 _ Hk Hpos) by lia.
Qed.

Lemma selectMove_interval_witness :
  selectMove (fun _ => 45) [mkMove 3 3 40; mkMove 3 4 20; mkMove 3 5 25] NewBoard
  = (Ret (3, 4), NewBoard).
Proof.
  apply (selectMove_interval (fun _ => 45) _ NewBoard 1 (mkMove 3 4 20)).
  - reflexivity.
  - apply Forall_cons. split; [simpl; lia|apply Forall_nil_2].
  - reflexivity.
  - vm_compute. split; [discriminate|reflexivity].
Defined.

(** ** The opening move, the open four and the best score *)

Lemma grid_ext (g g' : grid) :
  grid_ok g = true -> grid_ok g' = true ->
  (forall i j, isValidPosition i j = true -> cell g i j = cell g' i j) -> g = g'.
Proof.
  intros [Hl Hr]%grid_ok_spec [Hl' Hr']%grid_ok_spec Hcells.
  apply list_eq_same_length with (Z.to_nat BoardSize); [lia|lia|].
  intros k line line' Hk Hline Hline'.
  apply list_eq_same_length with (Z.to_nat BoardSize); [eauto|eauto|].
  intros n p p' Hn Hp Hp'.
  assert (Hv : isValidPosition (Z.of_nat k) (Z.of_nat n) = true).
  { apply isValidPosition_spec. unfold BoardSize in *. lia. }
  specialize (Hcells _ _ Hv). unfold cell, grid_get in Hcells.
  replace ((Z.of_nat k <? 0) || (Z.of_nat n <? 0)) with false in Hcells by lia.
  rewrite !Nat2Z.id, Hline, Hline', Hp, Hp' in Hcells. done.
Qed.

(** X15.  On a board without stones and without history [MakeMove] opens at
    the centre (7,7): at every difficulty, for an agent of either colour,
    whatever the turn, the flag and the random draw. *)
Theorem MakeMove_opens_at_centre rnd ai b :
  grid_ok (Grid b) = true ->
  (forall i j, isValidPosition i j = true -> cell (Grid b) i j = Empty) ->
  MoveHistory b = [] ->
  player ai <> Empty ->
  MakeMove rnd ai b = (Ret (7, 7), b).
Proof.
  intros Hok Hempty Hh Hp.
  assert (Hg : Grid b = empty_grid).
  { apply grid_ext; [done|reflexivity|]. intros i j Hv. rewrite (Hempty i j Hv).
    symmetry. unfold cell.
    destruct (grid_get empty_grid i j) as [p|] eqn:Hget; [|done].
    by apply (NewBoard_empty i j). }
  destruct b as [g t h f], ai as [p d]. simpl in *. subst g h.
  destruct p; [done| |]; destruct d; vm_compute; reflexivity.
Qed.

Lemma MakeMove_opens_at_centre_witness :
  MakeMove (fun _ => 0) (mkAI Black Hard) NewBoard = (Ret (7, 7), NewBoard).
Proof.
  apply MakeMove_opens_at_centre; [reflexivity| |reflexivity|discriminate].
  intros i j _. unfold cell.
  destruct (grid_get (Grid NewBoard) i j) as [p|] eqn:Hget; [|done].
  by apply (NewBoard_empty i j).
Defined.

(** The test of [hasOpenFour] along one axis holds exactly on an open four. *)
Lemma openFourAxis_openFour g player row col dir :
  grid_ok g = true ->
  holds g player row col ->
  player <> Empty ->
  openFourAxis g player row col dir = true <-> openFour g player row col dir.
Proof.
  intros Hok Hhere Hp. unfold openFourAxis, openLine.
  destruct (openWalk_spec g player (forward row col dir) 4 1 1 0)
    as (m1 & d1 & -> & Hm1 & Hall1 & Hstop1).
  destruct (openWalk_spec g player (backward row col dir) 4 1 (1 + m1) (0 + d1))
    as (m2 & d2 & -> & Hm2 & Hall2 & Hstop2).
  change (Z.of_nat 4) with 4 in *.
  assert (Hfwd : forall q i, matches g q (forward row col dir) i <->
                   holds g q (row + dir.1 * i) (col + dir.2 * i)).
  { intros q i. by rewrite matches_holds. }
  assert (Hbwd : forall q i, matches g q (backward row col dir) i <->
                   holds g q (row + dir.1 * (- i)) (col + dir.2 * (- i))).
  { intros q i. rewrite matches_holds by done. unfold backward. simpl.
    by replace (row - dir.1 * i) with (row + dir.1 * - i) by lia;
       replace (col - dir.2 * i) with (col + dir.2 * - i) by lia. }
  assert (Hexcl : forall r c, holds g Empty r c -> holds g player r c -> False).
  { intros r c [_ H1] [_ H2]. congruence. }
  split.
  - intros [Hc Hs]%andb_true_iff.
    assert (d1 = 1 /\ d2 = 1) as [-> ->].
    { destruct Hstop1 as [[_ ->]|(_ & _ & [[-> _]|[-> _]])];
        destruct Hstop2 as [[_ ->]|(_ & _ & [[-> _]|[-> _]])]; lia. }
    destruct Hstop1 as [[_ ?]|(Hlt1 & _ & [[_ He1]|[? _]])]; [lia| |lia].
    destruct Hstop2 as [[_ ?]|(Hlt2 & _ & [[_ He2]|[? _]])]; [lia| |lia].
    exists (- m2), m1. split; [|split; [lia|split]].
    + split; [lia|]. intros i Hi.
      destruct (Z.lt_trichotomy i 0) as [Hneg|[->|Hpos]].
      * replace i with (- - i) by lia. apply Hbwd, Hall2. lia.
      * by rewrite !Z.mul_0_r, !Z.add_0_r.
      * apply Hfwd, Hall1. lia.
    + apply Hfwd. by replace (m1 + 1) with (1 + m1) by lia.
    + apply Hbwd in He2. by replace (- m2 - 1) with (- (1 + m2)) by lia.
  - intros (lo & hi & [Hlohi Hrun] & Hlen & Hehi & Helo).
    assert (m1 = hi) as ->.
    { destruct (Z.lt_trichotomy m1 hi) as [Hlt|[Heq|Hgt]]; [|done|].
      - exfalso. destruct Hstop1 as [[? _]|(_ & Hno & _)]; [lia|].
        apply Hno, Hfwd, Hrun. lia.
      - exfalso. apply (Hexcl _ _ Hehi). apply Hfwd, Hall1. lia. }
    assert (m2 = - lo) as ->.
    { destruct (Z.lt_trichotomy m2 (- lo)) as [Hlt|[Heq|Hgt]]; [|done|].
      - exfalso. destruct Hstop2 as [[? _]|(_ & Hno & _)]; [lia|].
        apply Hno, Hbwd, Hrun. lia.
      - exfalso. apply (Hexcl _ _ Helo).
        replace (lo - 1) with (- (1 - lo)) by lia. apply Hbwd, Hall2. lia. }
    assert (d1 = 1) as ->.
    { destruct Hstop1 as [[? _]|(_ & _ & [[-> _]|[_ Hno]])]; [lia|done|].
      exfalso. apply Hno, Hfwd. by replace (1 + hi) with (hi + 1) by lia. }
    assert (d2 = 1) as ->.
    { destruct Hstop2 as [[? _]|(_ & _ & [[-> _]|[_ Hno]])]; [lia|done|].
      exfalso. apply Hno, Hbwd. by replace (- (1 + - lo)) with (lo - 1) by lia. }
    apply andb_true_iff. lia.
Qed.

(** X17.  At a stone, [hasOpenFour] returns true exactly when, along one of
    the four axes, the contiguous run of that stone's colour through the cell
    has exactly four stones and an empty cell of the board at either end. *)
Theorem hasOpenFour_open_four ai b row col p :
  grid_ok (Grid b) = true ->
  isValidPosition row col = true ->
  grid_get (Grid b) row col = Some p ->
  p <> Empty ->
  exists found, hasOpenFour ai b row col = Ret found /\
    (found = true <-> exists dir, dir ∈ directions /\ openFour (Grid b) p row col dir).
Proof.
  intros Hok Hv Hget Hp. unfold hasOpenFour. rewrite Hget.
  eexists. split; [reflexivity|].
  rewrite existsb_exists. split.
  - intros (dir & Hin%list_elem_of_In & Haxis). exists dir. split; [done|].
    by apply openFourAxis_openFour.
  - intros (dir & Hin & Hfour). exists dir. split; [by apply list_elem_of_In|].
    by apply openFourAxis_openFour.
Qed.

Lemma hasOpenFour_open_four_witness :
  hasOpenFour (mkAI White Medium) open_four_board 7 5 = Ret true.
Proof.
  destruct (hasOpenFour_open_four (mkAI White Medium) open_four_board 7 5 Black)
    as (found & Hrun & _); [reflexivity|reflexivity|reflexivity|discriminate|].
  rewrite Hrun. f_equal.
  assert (Hf : Ret found = hasOpenFour (mkAI White Medium) open_four_board 7 5)
    by (by rewrite Hrun).
  vm_compute in Hf. by injection Hf as ->.
Defined.

Lemma bestSoFar_ext eval b (seen seen' : Z * Z -> Prop) best :
  (forall c, seen c <-> seen' c) -> bestSoFar eval b seen best -> bestSoFar eval b seen' best.
Proof.
  intros Heq [[-> Hnone]|(He & Hs & Hsc & Hall)].
  - left. split; [done|]. intros c Hc. by apply Hnone, Heq.
  - right. split; [done|]. split; [by apply Heq|]. split; [done|].
    intros c Hc. by apply Hall, Heq.
Qed.

(** Step 7 of [makeMediumMove] and [makeHardMove], for a scoring function
    that returns on every empty cell, leaves the board as it was, and scores
    above [MinInt32]. *)
Lemma bestScoreMove_argmax b0 (eval : Z -> Z -> M Z) :
  (forall i j, emptyCell b0 (i, j) ->
     exists score, eval i j b0 = (Ret score, b0) /\ MinInt32 < score) ->
  triple (eq b0) (bestScoreMove eval)
         (fun r b => b = b0 /\ firstBest eval b0 r)
         (fun b => b = b0 /\ grid_ok (Grid b0) = false).
Proof.
  intros Heval. unfold bestScoreMove.
  set (E := fun b => b = b0 /\ grid_ok (Grid b0) = false).
  set (cols := range 0 BoardSize).
  set (cellBody := fun i (best : Z * (Z * Z)) j =>
         p ← readGrid i j;
         if Player_eqb p Empty then
           score ← eval i j;
           if score >? best.1 then mret (score, (i, j)) else mret best
         else mret best).
  set (I := fun (rows : list Z) (best : Z * (Z * Z)) b => b = b0 /\
         bestSoFar eval b0 (fun c => c.1 ∈ rows /\ c.2 ∈ cols) best).
  eapply triple_bind with (R := I (range 0 BoardSize)).
  - pose proof (triple_foldM_visited I (fun best i => foldM cols best (cellBody i)) E
                  (range 0 BoardSize) [] (MinInt32, noMove)) as Houter.
    simpl in Houter.
    eapply triple_conseq;
      [apply Houter; clear Houter
      | |intros a b Hb; exact Hb|intros b Hb; exact Hb].
    2: { intros b <-. split; [done|]. left. split; [done|].
         by intros c [?%elem_of_nil _]. }
    intros pre i post best Hsplit.
    apply range_split in Hsplit as [Hi Hpre].
    set (J := fun (pc : list Z) (best : Z * (Z * Z)) b => b = b0 /\
           bestSoFar eval b0
             (fun c => (c.1 ∈ pre /\ c.2 ∈ cols) \/ (c.1 = i /\ c.2 ∈ pc)) best).
    pose proof (triple_foldM_visited J (cellBody i) E cols [] best) as Hinner.
    simpl in Hinner.
    eapply triple_conseq; [apply Hinner; clear Hinner| | |intros b Hb; exact Hb].
    + intros pc j postc best' Hsplitc.
      apply range_split in Hsplitc as [Hj Hpc].
      assert (Hv : isValidPosition i j = true) by (apply isValidPosition_spec; lia).
      assert (Hseen : forall c : Z * Z,
                (c.1 ∈ pre /\ c.2 ∈ cols) \/ (c.1 = i /\ c.2 ∈ pc) -> before c (i, j)).
      { intros c [[Hc _]|[Hc1 Hc2]]; unfold before; simpl.
        - apply Hpre in Hc. lia.
        - apply Hpc in Hc2. lia. }
      assert (Hnew : forall c : Z * Z,
                (c.1 ∈ pre /\ c.2 ∈ cols) \/ (c.1 = i /\ c.2 ∈ pc ++ [j]) ->
                ((c.1 ∈ pre /\ c.2 ∈ cols) \/ (c.1 = i /\ c.2 ∈ pc)) \/ c = (i, j)).
      { intros c [Hc|[Hc1 [Hc2|Hc2%list_elem_of_singleton]%elem_of_app]]; auto.
        right. destruct c. simpl in *. by subst. }
      assert (Hij : (i, j).1 ∈ pre /\ (i, j).2 ∈ cols \/ (i, j).1 = i /\ (i, j).2 ∈ pc ++ [j]).
      { right. split; [done|]. apply elem_of_app. right. by apply list_elem_of_singleton. }
      assert (Hold : forall c : Z * Z,
                (c.1 ∈ pre /\ c.2 ∈ cols) \/ (c.1 = i /\ c.2 ∈ pc) ->
                (c.1 ∈ pre /\ c.2 ∈ cols) \/ (c.1 = i /\ c.2 ∈ pc ++ [j])).
      { intros c [Hc|[Hc1 Hc2]]; [by left|right]. split; [done|].
        apply elem_of_app. by left. }
      intros b [-> Hinv]. unfold cellBody. rewrite bind_run. unfold readGrid at 1.
      destruct (grid_get (Grid b0) i j) as [q|] eqn:Hget;
        [|split; [done|by apply (grid_get_None_not_ok _ i j)]].
      destruct (Player_eqb q Empty) eqn:Hq.
      * apply Player_eqb_eq in Hq as ->.
        assert (Hcell : emptyCell b0 (i, j)) by (by split).
        destruct (Heval i j Hcell) as (score & Hrun & Hlow).
        assert (Hscore : scoreAt eval b0 (i, j) = score).
        { unfold scoreAt. simpl. by rewrite Hrun. }
        rewrite (bind_run_ret _ _ _ _ _ Hrun).
        destruct (Z.gtb_spec score best'.1) as [Hgt|Hle].
        -- split; [done|]. right. split; [done|]. split; [exact Hij|].
           split; [done|]. intros c Hc Hce. cbn [fst snd].
           destruct (Hnew c Hc) as [Hc'| ->].
           ++ destruct Hinv as [[-> Hnone]|(_ & _ & _ & Hall)].
              ** by destruct (Hnone c Hc').
              ** destruct (Hall c Hc' Hce) as [Hle _]. lia.
           ++ rewrite Hscore. split; [lia|]. unfold before. simpl. lia.
        -- split; [done|].
           destruct Hinv as [[-> Hnone]|(He & Hs & Hsc & Hall)];
             [unfold MinInt32 in *; simpl in Hle; lia|].
           right. split; [done|]. split; [by apply Hold|]. split; [done|].
           intros c Hc Hce. destruct (Hnew c Hc) as [Hc'| ->]; [by apply Hall|].
           rewrite Hscore. split; [lia|].
           intros Hbefore. apply Hseen in Hs. unfold before in *. simpl in *. lia.
      * split; [done|].
        assert (Hne : ~ emptyCell b0 (i, j)).
        { intros [_ Hget']. simpl in Hget'. rewrite Hget in Hget'.
          injection Hget' as ->. by rewrite Player_eqb_refl in Hq. }
        destruct Hinv as [[-> Hnone]|(He & Hs & Hsc & Hall)].
        -- left. split; [done|]. intros c Hc.
           destruct (Hnew c Hc) as [Hc'| ->]; [by apply Hnone|done].
        -- right. split; [done|]. split; [by apply Hold|]. split; [done|].
           intros c Hc Hce. destruct (Hnew c Hc) as [Hc'| ->]; [by apply Hall|done].
    + intros b [-> Hinv]. split; [done|].
      eapply bestSoFar_ext; [|exact Hinv]. intros c. split; [by left|].
      by intros [?|[_ ?%elem_of_nil]].
    + intros best' b [-> Hinv]. split; [done|].
      eapply bestSoFar_ext; [|exact Hinv]. intros c.
      rewrite elem_of_app, list_elem_of_singleton. simpl. tauto.
  - intros best. apply triple_ret. intros b [-> Hinv]. split; [done|].
    assert (Hall : forall c : Z * Z, isValidPosition c.1 c.2 = true ->
                     c.1 ∈ range 0 BoardSize /\ c.2 ∈ cols).
    { intros c [? ?]%isValidPosition_spec. unfold cols. rewrite !elem_of_range. lia. }
    destruct Hinv as [[-> Hnone]|(He & Hs & Hsc & Hbest)].
    + left. split; [done|]. intros r c Hv Hget.
      apply (Hnone (r, c)); [by apply Hall|by split].
    + right. split; [done|]. intros c Hc. rewrite <- Hsc.
      apply Hbest; [|done]. apply Hall. by destruct Hc.
Qed.

(** X18.  Step 7 of the Medium and of the Hard strategy returns, on a
    well-formed board, the empty cell whose score ([evaluatePositionMedium],
    respectively [evaluatePositionHard]) is highest, the first one in
    row-major order among cells of equal score; it returns (-1,-1) only when
    the board has no empty cell, and leaves the board as it was. *)
Theorem bestScoreMove_first_best ai b :
  board_ok b = true ->
  (exists r, bestScoreMove (evaluatePositionMedium ai) b = (Ret r, b) /\
             firstBest (evaluatePositionMedium ai) b r) /\
  (exists r, bestScoreMove (evaluatePositionHard ai) b = (Ret r, b) /\
             firstBest (evaluatePositionHard ai) b r).
Proof.
  intros Hok. pose proof (board_ok_grid _ Hok) as Hg.
  pose proof (board_ok_history _ Hok) as Hh.
  split; apply triple_run; try done; apply bestScoreMove_argmax; intros i j Hcell.
  - destruct (evalMedium_scores ai b i j Hcell) as (score & Hrun & Hlow). eauto.
  - destruct (evalHard_scores ai b i j Hcell) as (score & Hrun & Hlow). eauto.
Qed.

Lemma bestScoreMove_first_best_witness :
  exists r, bestScoreMove (evaluatePositionHard (mkAI White Hard)) centre_stone_board
            = (Ret r, centre_stone_board) /\ emptyCell centre_stone_board r.
Proof.
  destruct (bestScoreMove_first_best (mkAI White Hard) centre_stone_board)
    as (_ & r & Hrun & Hbest); [reflexivity|].
  exists r. split; [done|]. destruct Hbest as [[_ Hfull]|[Hcell _]]; [|done].
  by destruct (Hfull 0 0).
Defined.

(** ** The Undo button of the window *)

(** X19.  The Undo button takes back a full round.  From a board on which
    Black is to move, let Black's stone and then White's answer be placed,
    neither ending the game; the button, when the window is idle, then
    restores the first board exactly, with Black to move, and leaves the
    window idle.  On a finished game, or while the window is processing, the
    button changes nothing. *)
Theorem undoTapped_takes_back_the_round b0 b1 b2 r c r' c' :
  grid_ok (Grid b0) = true ->
  CurrentTurn b0 = Black ->
  PlaceStone r c b0 = (Ret None, b1) ->
  GameFinished b1 = false ->
  PlaceStone r' c' b1 = (Ret None, b2) ->
  GameFinished b2 = false ->
  undoTapped false b2 = (Ret false, b0) /\
  (forall b, GameFinished b = true -> undoTapped false b = (Ret false, b)) /\
  (forall b, undoTapped true b = (Ret true, b)).
Proof.
  intros Hok Hturn Hrun1 Hopen1 Hrun2 Hopen2.
  destruct (PlaceStone_unfinished b0 r c b1 Hok Hrun1 Hopen1)
    as (Hfin0 & Hwin1 & Hok1 & Hturn1).
  destruct (PlaceStone_unfinished b1 r' c' b2 Hok1 Hrun2 Hopen2) as (_ & Hwin2 & _).
  assert (Hwhite : CurrentTurn b1 = White).
  { rewrite Hturn1. unfold nextPlayer. by rewrite Hturn. }
  assert (Hundo2 : Undo b2 = (Ret None, b1)).
  { apply (PlaceStone_Undo_roundtrip b1 r' c'); try done. by rewrite Hwhite. }
  assert (Hundo1 : Undo b1 = (Ret None, b0)).
  { apply (PlaceStone_Undo_roundtrip b0 r c); try done. by rewrite Hturn. }
  split; [|split].
  - unfold undoTapped. rewrite bind_run. unfold gets at 1, IsGameFinished.
    rewrite Hopen2. simpl. rewrite (bind_run_ret _ _ _ _ _ Hundo2).
    rewrite bind_run. unfold gets at 1, GetCurrentPlayer. rewrite Hwhite. simpl.
    rewrite bind_run, Hundo1. reflexivity.
  - intros b Hfin. unfold undoTapped. rewrite bind_run. unfold gets at 1, IsGameFinished.
    by rewrite Hfin.
  - intros b. unfold undoTapped. by rewrite bind_run.
Qed.

Lemma undoTapped_takes_back_the_round_witness :
  undoTapped false (playAll [(7, 7); (7, 8)] NewBoard) = (Ret false, NewBoard).
Proof.
  apply (undoTapped_takes_back_the_round NewBoard (playAll [(7, 7)] NewBoard)
           (playAll [(7, 7); (7, 8)] NewBoard) 7 7 7 8); reflexivity.
Defined.
